(** * Quiz-review page extraction: a shallow embedding of the two extractors

    The repository holds two Node.js scripts that read a saved quiz-review
    page through jsdom and write the questions found in it to a JSON file:

    - the strict extractor (variant A below; its usage message calls it
      [extractCheckpoint.js]), which keeps only the questions for which a
      correct answer is known;
    - [qs_extract_quizbank_all.js] (variant B), which keeps every question
      that has choices, blanks the answer of new and wrongly answered
      questions, and maintains the course registry [assets/courses.json].

    The first half of the file is the embedding, in the order of the
    scripts: JavaScript strings, the DOM calls the scripts make, values and
    exceptions, the file system and the registry, the stat cards, the walk
    over the questions and the [main] of each variant.  The second half
    states and proves the properties of the walks, of the summary and of
    the registry updates. *)

From Stdlib Require Import ZArith List Ascii String Bool Lia.
From stdpp Require Import gmap strings list fin_maps.

Local Open Scope Z_scope.

(** ** JavaScript strings

    A string is the sequence of the bytes of its UTF-8 encoding.  Equality,
    [includes] with an ASCII pattern and concatenation are the same on bytes
    as on UTF-16 code units for well-formed text. *)

Module Js.

Definition code (a : ascii) : N := N_of_ascii a.

(** The one-byte members of WhiteSpace and LineTerminator: TAB, LF, VT, FF,
    CR and SPACE. *)
Definition ws1 (a : ascii) : bool :=
  let c := code a in ((9 <=? c) && (c <=? 13) || (c =? 32))%N.

(** U+00A0. *)
Definition ws2 (a b : ascii) : bool :=
  ((code a =? 194) && (code b =? 160))%N.

(** U+1680, U+2000 to U+200A, U+2028, U+2029, U+202F, U+205F, U+3000 and
    U+FEFF. *)
Definition ws3 (a b c : ascii) : bool :=
  let '(x, y, z) := (code a, code b, code c) in
  ((x =? 225) && (y =? 154) && (z =? 128)
   || (x =? 226) && (y =? 128)
      && ((128 <=? z) && (z <=? 138) || (z =? 168) || (z =? 169) || (z =? 175))
   || (x =? 226) && (y =? 129) && (z =? 159)
   || (x =? 227) && (y =? 128) && (z =? 128)
   || (x =? 239) && (y =? 187) && (z =? 191))%N.

(** Drops the white space at the front of [s]; with [back] set, [s] is read
    as a reversed string, so that multi-byte characters come last byte
    first. *)
Fixpoint strip (back : bool) (s : string) : string :=
  match s with
  | String a r1 =>
      if ws1 a then strip back r1 else
      match r1 with
      | String b r2 =>
          if (if back then ws2 b a else ws2 a b) then strip back r2 else
          match r2 with
          | String c r3 =>
              if (if back then ws3 c b a else ws3 a b c)
              then strip back r3 else s
          | EmptyString => s
          end
      | EmptyString => s
      end
  | EmptyString => s
  end.

(** [String.prototype.trim]. *)
Definition trim (s : string) : string :=
  String.rev (strip true (String.rev (strip false s))).

(** A string is truthy when it is not empty. *)
Definition truthy (s : string) : bool :=
  match s with EmptyString => false | String _ _ => true end.

Definition lowerChar (a : ascii) : ascii :=
  let c := code a in
  if ((65 <=? c) && (c <=? 90))%N then ascii_of_N (c + 32) else a.

Definition upperChar (a : ascii) : ascii :=
  let c := code a in
  if ((97 <=? c) && (c <=? 122))%N then ascii_of_N (c - 32) else a.

(** [String.prototype.toLowerCase], on the ASCII letters.  The characters
    outside ASCII are left as they are: none of them lower-cases to one of
    the letters of the four keywords the scripts look for, so the outcome of
    the [includes] tests below is the same. *)
Fixpoint toLowerCase (s : string) : string :=
  match s with
  | String a r => String (lowerChar a) (toLowerCase r)
  | EmptyString => EmptyString
  end.

(** [String.prototype.includes]. *)
Fixpoint includes (s pat : string) : bool :=
  String.prefix pat s
  || match s with
     | String _ r => includes r pat
     | EmptyString => false
     end.

(** [s.replace(/c/g, ' ')] for a single character [c]. *)
Fixpoint replaceChar (c : ascii) (s : string) : string :=
  match s with
  | String a r => String (if Ascii.eqb a c then " "%char else a) (replaceChar c r)
  | EmptyString => EmptyString
  end.

(** The class [\w] of a regular expression without the unicode flag. *)
Definition isWordChar (a : ascii) : bool :=
  let c := code a in
  ((48 <=? c) && (c <=? 57) || (65 <=? c) && (c <=? 90)
   || (97 <=? c) && (c <=? 122) || (c =? 95))%N.

(** [s.replace(/\b\w/g, c => c.toUpperCase())]: the first character of each
    run of word characters is upper-cased.  [inWord] tells whether the
    character before [s] is a word character. *)
Fixpoint capitalize (inWord : bool) (s : string) : string :=
  match s with
  | String a r =>
      String (if isWordChar a && negb inWord then upperChar a else a)
             (capitalize (isWordChar a) r)
  | EmptyString => EmptyString
  end.

(** The value of a digit or letter in [parseInt]. *)
Definition digitValue (a : ascii) : option Z :=
  let c := Z.of_N (code a) in
  if (48 <=? c) && (c <=? 57) then Some (c - 48)
  else if (97 <=? c) && (c <=? 122) then Some (c - 87)
  else if (65 <=? c) && (c <=? 90) then Some (c - 55)
  else None.

(** The value of the longest prefix of [s] made of digits of the radix;
    [acc] is the value read so far, [None] when no digit has been read. *)
Fixpoint digits (radix : Z) (s : string) (acc : option Z) : option Z :=
  match s with
  | String a r =>
      match digitValue a with
      | Some d =>
          if d <? radix
          then digits radix r (Some (radix * from_option id 0 acc + d))
          else acc
      | None => acc
      end
  | EmptyString => acc
  end.

(** The integer-valued double nearest to the integer [n], ties going to the
    even significand: a double has 53 significant bits, so the bits of [n]
    below them are rounded away.  This is the Number JavaScript computes
    for an integer result; the integers of magnitude 2^1024 and more, which
    JavaScript turns into Infinity, are outside this embedding. *)
Definition nearestDouble (n : Z) : Z :=
  let a := Z.abs n in
  let dropped := Z.log2 a - 52 in
  if dropped <=? 0 then n else
  let q := Z.shiftr a dropped in
  let r := a - Z.shiftl q dropped in
  let half := Z.shiftl 1 (dropped - 1) in
  let q' := if (half <? r) || ((r =? half) && Z.odd q) then q + 1 else q in
  Z.sgn n * Z.shiftl q' dropped.

(** [parseInt(s)] without a radix; [None] stands for NaN.  The numeral is
    read as the integer it denotes, and the result is the double nearest
    to it: the integer itself up to 2^53. *)
Definition parseInt (s : string) : option Z :=
  let s1 := strip false s in
  let '(sign, s2) :=
    match s1 with
    | String "-" r => (-1, r)
    | String "+" r => (1, r)
    | _ => (1, s1)
    end%char in
  let '(radix, s3) :=
    match s2 with
    | String "0" (String "x" r) | String "0" (String "X" r) => (16, r)
    | _ => (10, s2)
    end%char in
  nearestDouble <$> (Z.mul sign <$> digits radix s3 None).

(** [parseInt(s) || 0]: NaN and both zeros give 0. *)
Definition parseIntOr0 (s : string) : Z := from_option id 0 (parseInt s).

End Js.

(** ** The document tree

    An element carries its local name (the tag name in lower case, as the
    HTML parser leaves it), the tokens of its [class] attribute, its other
    attributes and its children. *)

#[local] Unset Elimination Schemes.
Inductive node : Type :=
| Text (data : string)
| Comment (data : string)
| Element (localName : string) (classList : list string)
          (attributes : list (string * string)) (childNodes : list node).
#[local] Set Elimination Schemes.

(** Induction over a tree, with the property available for every child. *)
Fixpoint node_tree_ind (P : node -> Prop)
    (HText : forall s, P (Text s)) (HComment : forall s, P (Comment s))
    (HElement : forall t cl attrs kids,
        Forall P kids -> P (Element t cl attrs kids))
    (n : node) : P n :=
  match n with
  | Text s => HText s
  | Comment s => HComment s
  | Element t cl attrs kids =>
      HElement t cl attrs kids
        ((fix all (ks : list node) : Forall P ks :=
            match ks with
            | [] => List.Forall_nil P
            | k :: ks' =>
                List.Forall_cons P k ks'
                  (node_tree_ind P HText HComment HElement k) (all ks')
            end) kids)
  end.

(** An element as a script holds it: the node together with the chain of
    its ancestors, nearest first.  A clone has no ancestors. *)
Record handle : Type := Handle { ancestors : list node; self : node }.

Definition isElement (n : node) : bool :=
  match n with Element _ _ _ _ => true | _ => false end.

(** The selectors the scripts use: [.c], [tag], [a b] (descendant
    combinator) and [s1, s2]. *)
Inductive compound : Type := ByClass (c : string) | ByTag (t : string).

Inductive selector : Type :=
| Sel (c : compound)
| Descendant (a c : compound)
| Either (s1 s2 : selector).

Definition matchesCompound (c : compound) (n : node) : bool :=
  match n with
  | Element t cl _ _ =>
      match c with
      | ByClass k => existsb (String.eqb k) cl
      | ByTag k => String.eqb k t
      end
  | _ => false
  end.

Fixpoint matches (sel : selector) (h : handle) : bool :=
  match sel with
  | Sel c => matchesCompound c (self h)
  | Descendant a c =>
      matchesCompound c (self h) && existsb (matchesCompound a) (ancestors h)
  | Either s1 s2 => matches s1 h || matches s2 h
  end.

(** The element descendants of [n] in document order, [anc] being the
    ancestors of [n]. *)
Fixpoint descendants (anc : list node) (n : node) : list handle :=
  match n with
  | Element _ _ _ kids =>
      flat_map (fun k =>
                  match k with
                  | Element _ _ _ _ =>
                      Handle (n :: anc) k :: descendants (n :: anc) k
                  | _ => []
                  end) kids
  | _ => []
  end.

Definition querySelectorAll (sel : selector) (h : handle) : list handle :=
  List.filter (matches sel) (descendants (ancestors h) (self h)).

Definition querySelector (sel : selector) (h : handle) : option handle :=
  head (querySelectorAll sel h).

(** [document.querySelectorAll]: the root element is a candidate too. *)
Definition documentElements (doc : node) : list handle :=
  if isElement doc then Handle [] doc :: descendants [] doc else [].

Definition documentQuerySelectorAll (sel : selector) (doc : node) : list handle :=
  List.filter (matches sel) (documentElements doc).

Definition parentElement (h : handle) : option handle :=
  match ancestors h with
  | p :: anc => Some (Handle anc p)
  | [] => None
  end.

Fixpoint nodeText (n : node) : string :=
  match n with
  | Text s => s
  | Comment _ => ""
  | Element _ _ _ kids => String.concat "" (map nodeText kids)
  end.

Definition textContent (h : handle) : string := nodeText (self h).

Definition getAttribute (name : string) (h : handle) : option string :=
  match self h with
  | Element _ _ attrs _ => snd <$> List.find (fun kv => String.eqb (fst kv) name) attrs
  | _ => None
  end.

Definition classListContains (c : string) (h : handle) : bool :=
  matchesCompound (ByClass c) (self h).

Definition cloneNode (h : handle) : handle := Handle [] (self h).

(** [const e = h.querySelector(sel); if (e) e.remove()]: the tree of [h]
    without its first descendant that matches [sel]; [None] when there is no
    such descendant. *)
Fixpoint removeFirstIn (sel : selector) (anc : list node) (n : node) : option node :=
  match n with
  | Element t cl attrs kids =>
      let fix go (ks : list node) : option (list node) :=
        match ks with
        | [] => None
        | k :: ks' =>
            if isElement k && matches sel (Handle (n :: anc) k) then Some ks'
            else match removeFirstIn sel (n :: anc) k with
                 | Some k' => Some (k' :: ks')
                 | None => cons k <$> go ks'
                 end
        end in
      Element t cl attrs <$> go kids
  | _ => None
  end.

Definition removeFirst (sel : selector) (h : handle) : handle :=
  match removeFirstIn sel (ancestors h) (self h) with
  | Some n' => Handle (ancestors h) n'
  | None => h
  end.

(** [h.querySelectorAll(sel).forEach(e => e.remove())]: the tree of [h]
    without any of its descendants that match [sel]. *)
Fixpoint removeAllIn (sel : selector) (anc : list node) (n : node) : node :=
  match n with
  | Element t cl attrs kids =>
      Element t cl attrs
        (flat_map (fun k =>
                     if isElement k && matches sel (Handle (n :: anc) k) then []
                     else [removeAllIn sel (n :: anc) k]) kids)
  | _ => n
  end.

Definition removeAll (sel : selector) (h : handle) : handle :=
  Handle (ancestors h) (removeAllIn sel (ancestors h) (self h)).

(** ** JavaScript values, objects and exceptions *)

(** The values a question record holds. *)
Inductive value : Type :=
| VUndefined
| VString (s : string)
| VArray (l : list string).

(** An object is the list of its properties in insertion order, which is
    the order in which [JSON.stringify] prints them. *)
Definition object : Type := list (string * value).

(** [o[k] = v]. *)
Fixpoint setProp (k : string) (v : value) (o : object) : object :=
  match o with
  | [] => [(k, v)]
  | (k', v') :: r =>
      if String.eqb k' k then (k, v) :: r else (k', v') :: setProp k v r
  end.

(** [o[k]], [None] when [o] has no property [k]. *)
Definition getProp (k : string) (o : object) : option value :=
  snd <$> List.find (fun kv => String.eqb (fst kv) k) o.

(** [a[i]] *)
Definition index (a : list string) (i : nat) : value :=
  match nth_error a i with
  | Some s => VString s
  | None => VUndefined
  end.

Inductive error : Type :=
| TypeError      (* a property of [null] was read *)
| HostError.     (* jsdom failed inside a DOM call *)

Inductive outcome (A : Type) : Type :=
| Ok (a : A)
| Thrown (e : error).
Arguments Ok {A} a.
Arguments Thrown {A} e.

#[global] Instance outcome_ret : MRet outcome := fun A a => Ok a.

#[global] Instance outcome_bind : MBind outcome := fun A B f m =>
  match m with
  | Ok a => f a
  | Thrown e => Thrown e
  end.

(** The evaluation ended without an exception. *)
Definition completes {A : Type} (m : outcome A) : bool :=
  match m with
  | Ok _ => true
  | Thrown _ => false
  end.

(** [e.p] where [e] may be [null]. *)
Definition deref {A : Type} (o : option A) : outcome A :=
  match o with
  | Some a => Ok a
  | None => Thrown TypeError
  end.

(** [l.forEach(x => ...)] where the callback updates local variables [s] and
    may throw. *)
Fixpoint forEach {S X : Type} (f : S -> X -> outcome S) (l : list X) (s : S)
  : outcome S :=
  match l with
  | [] => Ok s
  | x :: l' => s' ← f s x; forEach f l' s'
  end.

(** A DOM call on [receiver] that returns [result] unless jsdom fails on
    that node; [raises] tells on which nodes it does. *)
Definition call {A : Type} (raises : node -> bool) (receiver : handle)
    (result : A) : outcome A :=
  if raises (self receiver) then Thrown HostError else Ok result.

(** The host in which no DOM call fails. *)
Definition sound : node -> bool := fun _ => false.

(** ** The course registry and the file system *)

Module CourseModule.
Record t : Type := Make {
  id : option Z;
  name : string;
  checkpoints : option (list string)
}.
End CourseModule.

Module Course.
Record t : Type := Make {
  id : option string;
  name : string;
  modules : option (list CourseModule.t)
}.
End Course.

(** A file is modelled by what its text denotes: the course list of
    [courses.json], the records of an output file, the document of a saved
    page.  Reading a file of one kind as another kind is modelled as a
    failure of the reader. *)
Inductive file : Type :=
| Registry (courses : list Course.t)
| Questions (records : list object)
| Page (doc : node).

Inductive entry : Type :=
| Dir
| File (f : file).

(** The file system maps a path to the directory or the file it names. *)
Abbreviation disk := (gmap string entry).

(** A script step: it may throw, and it leaves a file system behind in both
    cases. *)
Definition io (A : Type) : Type := disk -> outcome A * disk.

#[global] Instance io_ret : MRet io := fun A a d => (Ok a, d).

#[global] Instance io_bind : MBind io := fun A B f m d =>
  match m d with
  | (Ok a, d') => f a d'
  | (Thrown e, d') => (Thrown e, d')
  end.

(** The segments of a path: the strings between its slashes. *)
Fixpoint splitPath (p : string) : list string :=
  match p with
  | String a r =>
      if Ascii.eqb a "/" then EmptyString :: splitPath r
      else match splitPath r with
           | s :: rest => String a s :: rest
           | [] => [String a EmptyString]
           end
  | EmptyString => [EmptyString]
  end.

(** One step of [normalizeString] of Node's [path] module, on the segments
    kept so far, last first: an empty segment and [.] are dropped, [..]
    removes the segment before it, and stays when there is none to remove
    and the path is relative. *)
Definition normalizeSegment (allowAboveRoot : bool) (kept : list string)
    (segment : string) : list string :=
  if String.eqb segment "" || String.eqb segment "." then kept
  else if String.eqb segment ".." then
    match kept with
    | top :: below =>
        if String.eqb top ".."
        then (if allowAboveRoot then segment :: kept else kept)
        else below
    | [] => if allowAboveRoot then [segment] else []
    end
  else segment :: kept.

(** The segments with a slash between them. *)
Definition joinSegments (segments : list string) : string :=
  match segments with
  | [] => ""
  | s :: rest => fold_left (fun path segment => path +:+ "/" +:+ segment) rest s
  end.

Fixpoint endsWithSlash (p : string) : bool :=
  match p with
  | String a EmptyString => Ascii.eqb a "/"
  | String _ r => endsWithSlash r
  | EmptyString => false
  end.

(** [path.normalize] of Node's POSIX [path] module. *)
Definition normalize (p : string) : string :=
  match p with
  | EmptyString => "."
  | String a _ =>
      let isAbsolute := Ascii.eqb a "/" in
      let trailingSeparator := endsWithSlash p in
      let path :=
        joinSegments
          (rev (fold_left (normalizeSegment (negb isAbsolute)) (splitPath p) [])) in
      if Js.truthy path then
        (if isAbsolute then "/" else "") +:+ path
          +:+ (if trailingSeparator then "/" else "")
      else if isAbsolute then "/"
      else if trailingSeparator then "./" else "."
  end.

(** [path.join(a, b)] of Node's POSIX [path] module: the arguments that are
    not empty, with a slash between them, normalized. *)
Definition pathJoin (a b : string) : string :=
  match a, b with
  | EmptyString, EmptyString => "."
  | EmptyString, _ => normalize b
  | _, EmptyString => normalize a
  | _, _ => normalize (a +:+ "/" +:+ b)
  end.

#[global] Arguments pathJoin : simpl never.

(** The proper prefixes of a path that end before a slash; [seen] holds
    the characters read so far, last first. *)
Fixpoint parents (seen : string) (p : string) : list string :=
  match p with
  | String a r =>
      (if Ascii.eqb a "/" && Js.truthy seen then [String.rev seen] else [])
      ++ parents (String a seen) r
  | EmptyString => []
  end.

(** The number of slashes of a path. *)
Fixpoint slashes (p : string) : nat :=
  match p with
  | String a r => ((if Ascii.eqb a "/" then 1 else 0) + slashes r)%nat
  | EmptyString => 0%nat
  end.

Definition existsSync (p : string) : io bool :=
  fun d => (Ok (bool_decide (is_Some (d !! p))), d).

(** [p] names a file. *)
Definition isFile (d : disk) (p : string) : bool :=
  match d !! p with
  | Some (File _) => true
  | _ => false
  end.

(** [fs.mkdirSync(p, { recursive: true })]: creates [p] and the directories
    above it that are missing; a file in the place of one of them makes it
    fail, and nothing is created then. *)
Definition mkdirSync (p : string) : io unit :=
  fun d =>
    let dirs := parents "" p ++ [p] in
    if existsb (isFile d) dirs then (Thrown HostError, d)
    else (Ok tt, foldr (fun a d => <[a := Dir]> d) d dirs).

(** [fs.writeFileSync(p, ...)]: fails on a directory and where the parent
    directory is missing. *)
Definition writeFileSync (p : string) (f : file) : io unit :=
  fun d =>
    match d !! p with
    | Some Dir => (Thrown HostError, d)
    | Some (File _) => (Ok tt, <[p := File f]> d)
    | None =>
        match last (parents "" p) with
        | None => (Ok tt, <[p := File f]> d)
        | Some parent =>
            match d !! parent with
            | Some Dir => (Ok tt, <[p := File f]> d)
            | _ => (Thrown HostError, d)
            end
        end
    end.

(** [JSON.parse(fs.readFileSync(p, 'utf-8'))] as the course list. *)
Definition readCourses (p : string) : io (list Course.t) :=
  fun d =>
    match d !! p with
    | Some (File (Registry courses)) => (Ok courses, d)
    | _ => (Thrown HostError, d)
    end.

(** [new JSDOM(fs.readFileSync(p, 'utf-8')).window.document]. *)
Definition readPage (p : string) : io node :=
  fun d =>
    match d !! p with
    | Some (File (Page doc)) => (Ok doc, d)
    | _ => (Thrown HostError, d)
    end.

(** The display name of a course folder or of a checkpoint: separators
    become spaces and every word is capitalized. *)
Definition displayName (first second : ascii) (s : string) : string :=
  Js.capitalize false (Js.replaceChar second (Js.replaceChar first s)).

Definition ensureCourseStructure (courseFolder : string)
  : io (string * string * string) :=
  let assetsDir := "assets" in
  let courseDir := pathJoin assetsDir courseFolder in
  let htmlDir := pathJoin courseDir "html" in
  let jsonDir := pathJoin courseDir "json" in
  htmlExists ← existsSync htmlDir;
  (if negb htmlExists then mkdirSync htmlDir else mret tt);;
  jsonExists ← existsSync jsonDir;
  (if negb jsonExists then mkdirSync jsonDir else mret tt);;
  let coursesFile := pathJoin assetsDir "courses.json" in
  fileExists ← existsSync coursesFile;
  courses ← (if fileExists : bool then readCourses coursesFile else mret []);
  let courseExists :=
    existsb (fun c => bool_decide (Course.id c = Some courseFolder)) courses in
  (if negb courseExists then
     let courseName := displayName "-" "_" courseFolder in
     let newCourse := Course.Make (Some courseFolder) courseName (Some []) in
     let courses := courses ++ [newCourse] in
     writeFileSync coursesFile (Registry courses)
   else mret tt);;
  mret (courseDir, htmlDir, jsonDir).

(** [module.checkpoints && module.checkpoints.includes(checkpointName)]. *)
Definition hasCheckpoint (checkpointName : string) (m : CourseModule.t) : bool :=
  match CourseModule.checkpoints m with
  | Some cps => existsb (String.eqb checkpointName) cps
  | None => false
  end.

(** The body of the loop over the first course whose id is [courseFolder]:
    the new module list when a module has to be added.  The next id is the
    double JavaScript computes for [Math.max(0, ...existingIds) + 1]. *)
Definition addModule (checkpointName : string) (course : Course.t)
  : option Course.t :=
  let modules := default [] (Course.modules course) in
  let checkpointExists := existsb (hasCheckpoint checkpointName) modules in
  if negb checkpointExists then
    let existingIds := map (fun m => default 0 (CourseModule.id m)) modules in
    let nextId := Js.nearestDouble (fold_left Z.max existingIds 0 + 1) in
    let moduleName := displayName "_" "-" checkpointName in
    let newModule := CourseModule.Make (Some nextId) moduleName (Some [checkpointName]) in
    Some (Course.Make (Course.id course) (Course.name course)
                      (Some (modules ++ [newModule])))
  else None.

(** The loop [for (const course of courses)], which stops at the first
    course whose id is [courseFolder]; [Some] is the list to write back. *)
Fixpoint updateCourses (courseFolder checkpointName : string)
    (courses : list Course.t) : option (list Course.t) :=
  match courses with
  | [] => None
  | course :: rest =>
      if bool_decide (Course.id course = Some courseFolder)
      then (fun course' => course' :: rest) <$> addModule checkpointName course
      else cons course <$> updateCourses courseFolder checkpointName rest
  end.

Definition updateCourseModule (courseFolder checkpointName : string) : io unit :=
  let coursesFile := "assets/courses.json" in
  fileExists ← existsSync coursesFile;
  if negb fileExists then mret tt else
  courses ← readCourses coursesFile;
  match updateCourses courseFolder checkpointName courses with
  | Some courses => writeFileSync coursesFile (Registry courses)
  | None => mret tt
  end.

(** ** Stat cards (the same code in both scripts) *)

Record stats : Type := Stats { total : Z; correct : Z; wrong : Z; new : Z }.

Definition statCard (st : stats) (card : handle) : stats :=
  let label := querySelector (Sel (ByClass "stat-label")) card in
  let value := querySelector (Sel (ByClass "stat-value")) card in
  match label, value with
  | Some label, Some value =>
      let labelText := Js.toLowerCase (textContent label) in
      let numValue := Js.parseIntOr0 (textContent value) in
      if Js.includes labelText "total"
      then Stats numValue (correct st) (wrong st) (new st)
      else if Js.includes labelText "correct"
      then Stats (total st) numValue (wrong st) (new st)
      else if Js.includes labelText "wrong"
      then Stats (total st) (correct st) numValue (new st)
      else if Js.includes labelText "new"
      then Stats (total st) (correct st) (wrong st) numValue
      else st
  | _, _ => st
  end.

Definition statCards (doc : node) : list handle :=
  documentQuerySelectorAll (Sel (ByClass "stat-card")) doc.

Definition readStats (doc : node) : stats :=
  fold_left statCard (statCards doc) (Stats 0 0 0 0).

(** ** The summary and the exit of a run *)

(** The summary printed at the end of a run: the counters of the stat cards,
    the lines under [Extracted:] with their labels, and the verdict of the
    [Match:] line. *)
Record report : Type := Report {
  htmlStats : stats;
  extracted : list (string * Z);
  perfect : bool
}.

(** A run ends with its summary, or with [process.exit(1)] on a missing
    argument or page. *)
Inductive exit : Type :=
| Exit0 (r : report)
| Exit1.

(** ** The parts the two walks share *)

Definition questionElements (doc : node) : list handle :=
  documentQuerySelectorAll (Sel (ByClass "display_question")) doc.

Definition badgeSelector : selector :=
  Either (Sel (ByClass "correct-answer-badge")) (Sel (ByClass "wrong-answer-badge")).

(** The text of a question: the text of a clone from which the first
    answer-source badge has been removed. *)
Definition questionTextOf (questionTextEl : handle) : string :=
  let questionTextClone := cloneNode questionTextEl in
  let questionTextClone :=
    removeFirst (Sel (ByClass "answer-source-badge")) questionTextClone in
  Js.trim (textContent questionTextClone).

(** The [src] of the first image of the question text, [None] for [null]. *)
Definition imgSrcOf (questionTextEl : handle) : option string :=
  match querySelector (Sel (ByTag "img")) questionTextEl with
  | Some imgEl => getAttribute "src" imgEl
  | None => None
  end.

(** The text of a choice: the text of a clone without its badges. *)
Definition choiceTextOf (answerLabel : handle) : string :=
  let choiceTextNode := cloneNode answerLabel in
  let choiceTextNode := removeAll badgeSelector choiceTextNode in
  Js.trim (textContent choiceTextNode).

(** [if (imgSrc) questionObj.img = imgSrc]. *)
Definition addImage (imgSrc : option string) (questionObj : object) : object :=
  match imgSrc with
  | Some src => if Js.truthy src then setProp "img" (VString src) questionObj
                else questionObj
  | None => questionObj
  end.

(** ** Variant A: the strict extractor *)

Module A.

(** The local variables of one run of the callback. *)
Record locals : Type := Locals {
  questionText : string;
  imgSrc : option string;
  choices : list string;
  correctAnswers : list string
}.

Section Walk.
Variable raises : node -> bool.

(** The callback of [answerLabels.forEach], on the arrays [choices] and
    [correctAnswers]. *)
Definition eachAnswerLabel (acc : list string * list string) (answerLabel : handle)
  : outcome (list string * list string) :=
  let '(choices, correctAnswers) := acc in
  choiceText ← call raises answerLabel (choiceTextOf answerLabel);
  if Js.truthy choiceText then
    parent ← deref (parentElement answerLabel);
    correctBadge ←
      call raises parent
           (querySelector (Sel (ByClass "correct-answer-badge")) parent);
    Ok (choices ++ [choiceText],
        match correctBadge with
        | Some _ => correctAnswers ++ [choiceText]
        | None => correctAnswers
        end)
  else Ok acc.

(** The DOM reads of the [try] block; [Ok None] is the early [return] of
    a question without a question text.  None of them writes to
    [extractedQuestions]. *)
Definition readQuestion (questionEl : handle) : outcome (option locals) :=
  questionTextEl ←
    call raises questionEl
         (querySelector (Sel (ByClass "question_text")) questionEl);
  match questionTextEl with
  | None => Ok None
  | Some questionTextEl =>
      questionText ← call raises questionTextEl (questionTextOf questionTextEl);
      imgSrc ← call raises questionTextEl (imgSrcOf questionTextEl);
      answerLabels ←
        call raises questionEl
             (querySelectorAll (Sel (ByClass "answer_label")) questionEl);
      '(choices, correctAnswers) ← forEach eachAnswerLabel answerLabels ([], []);
      Ok (Some (Locals questionText imgSrc choices correctAnswers))
  end.

Definition questionObj (l : locals) : object :=
  let questionObj := [("question", VString (questionText l))] in
  let questionObj := addImage (imgSrc l) questionObj in
  let questionObj := setProp "choices" (VArray (choices l)) questionObj in
  if (1 <? length (correctAnswers l))%nat
  then setProp "answer" (VArray (correctAnswers l)) questionObj
  else setProp "answer" (index (correctAnswers l) 0) questionObj.

(** The callback of [questionElements.forEach], with its [try]/[catch]:
    an exception is logged and leaves [extractedQuestions] as it is. *)
Definition eachQuestion (extractedQuestions : list object) (questionEl : handle)
  : list object :=
  match readQuestion questionEl with
  | Thrown _ => extractedQuestions
  | Ok None => extractedQuestions
  | Ok (Some l) =>
      if (0 <? length (correctAnswers l))%nat && (0 <? length (choices l))%nat
      then extractedQuestions ++ [questionObj l]
      else extractedQuestions
  end.

Definition extract (doc : node) : list object :=
  fold_left eachQuestion (questionElements doc) [].

Definition htmlPath (checkpointName : string) : string :=
  "./assets/html/" +:+ checkpointName +:+ ".html".

Definition jsonPath (checkpointName : string) : string :=
  "./assets/json/" +:+ checkpointName +:+ ".json".

(** The lines of the summary: the stat cards, the number of records, and
    whether that number is the [correct] counter. *)
Definition summary (stats : stats) (extractedQuestions : list object) : report :=
  let count := Z.of_nat (length extractedQuestions) in
  Report stats [("Questions in JSON", count)] (count =? correct stats).

(** The script, from its command line (the arguments after the script
    name) to its summary. *)
Definition main (argv : list string) : io exit :=
  match argv with
  | checkpointName :: _ =>
      if Js.truthy checkpointName then
        let htmlPath := htmlPath checkpointName in
        let jsonPath := jsonPath checkpointName in
        pageExists ← existsSync htmlPath;
        if negb pageExists then mret Exit1 else
        document ← readPage htmlPath;
        let stats := readStats document in
        let extractedQuestions := extract document in
        writeFileSync jsonPath (Questions extractedQuestions);;
        mret (Exit0 (summary stats extractedQuestions))
      else mret Exit1
  | [] => mret Exit1
  end.

End Walk.

End A.

(** ** Variant B: [qs_extract_quizbank_all.js] *)

Module B.

(** The local variables of one run of the callback. *)
Record locals : Type := Locals {
  isNewQuestion : bool;
  isWrongAnswer : bool;
  questionText : string;
  imgSrc : option string;
  choices : list string;
  correctAnswers : list string
}.

(** The variables the walk updates: the array of records and the two
    counters of the summary. *)
Record walk : Type := Walk {
  extractedQuestions : list object;
  questionsWithAnswer : nat;
  questionsWithoutAnswer : nat
}.

Section Walk.
Variable raises : node -> bool.

(** The callback of [answerLabels.forEach]. *)
Definition eachAnswerLabel (isNewQuestion isWrongAnswer : bool)
    (acc : list string * list string) (answerLabel : handle)
  : outcome (list string * list string) :=
  let '(choices, correctAnswers) := acc in
  choiceText ← call raises answerLabel (choiceTextOf answerLabel);
  if Js.truthy choiceText then
    if negb isNewQuestion && negb isWrongAnswer then
      parent ← deref (parentElement answerLabel);
      correctBadge ←
        call raises parent
             (querySelector (Sel (ByClass "correct-answer-badge")) parent);
      Ok (choices ++ [choiceText],
          match correctBadge with
          | Some _ => correctAnswers ++ [choiceText]
          | None => correctAnswers
          end)
    else Ok (choices ++ [choiceText], correctAnswers)
  else Ok acc.

(** The callback of [matchingLabels.forEach]. *)
Definition eachMatchingLabel (choices : list string) (label : handle)
  : outcome (list string) :=
  text ← call raises label (Js.trim (textContent label));
  Ok (if Js.truthy text then choices ++ [text] else choices).

(** The callback of [selectOptions.forEach]. *)
Definition eachSelectOption (choices : list string) (opt : handle)
  : outcome (list string) :=
  text ← call raises opt (Js.trim (textContent opt));
  Ok (if Js.truthy text && negb (String.eqb text "[ Choose ]")
         && negb (existsb (String.eqb text) choices)
      then choices ++ [text] else choices).

(** The DOM reads of the [try] block; [Ok None] is the early [return].
    None of them writes to the variables of the walk. *)
Definition readQuestion (questionEl : handle) : outcome (option locals) :=
  questionTextEl ←
    call raises questionEl
         (querySelector (Sel (ByClass "question_text")) questionEl);
  match questionTextEl with
  | None => Ok None
  | Some questionTextEl =>
      sourceBadge ←
        call raises questionTextEl
             (querySelector (Sel (ByClass "answer-source-badge")) questionTextEl);
      isNewQuestion ←
        match sourceBadge with
        | Some sourceBadge =>
            call raises sourceBadge (classListContains "new-source" sourceBadge)
        | None => Ok false
        end;
      isWrongAnswer ←
        match sourceBadge with
        | Some sourceBadge =>
            call raises sourceBadge
                 (Js.includes (Js.toLowerCase (textContent sourceBadge)) "wrong")
        | None => Ok false
        end;
      questionText ← call raises questionTextEl (questionTextOf questionTextEl);
      imgSrc ← call raises questionTextEl (imgSrcOf questionTextEl);
      answerLabels ←
        call raises questionEl
             (querySelectorAll (Sel (ByClass "answer_label")) questionEl);
      '(choices, correctAnswers) ←
        (if (0 <? length answerLabels)%nat then
           forEach (eachAnswerLabel isNewQuestion isWrongAnswer) answerLabels ([], [])
         else
           matchingLabels ←
             call raises questionEl
                  (querySelectorAll (Descendant (ByClass "pull-left") (ByTag "label"))
                                    questionEl);
           selectOptions ←
             call raises questionEl
                  (querySelectorAll (Descendant (ByTag "select") (ByTag "option"))
                                    questionEl);
           choices ← forEach eachMatchingLabel matchingLabels [];
           choices ← forEach eachSelectOption selectOptions choices;
           Ok (choices, []));
      Ok (Some (Locals isNewQuestion isWrongAnswer questionText imgSrc
                       choices correctAnswers))
  end.

(** The callback of [questionElements.forEach], with its [try]/[catch]:
    an exception is logged and leaves the variables of the walk as they
    are. *)
Definition eachQuestion (w : walk) (questionEl : handle) : walk :=
  match readQuestion questionEl with
  | Thrown _ => w
  | Ok None => w
  | Ok (Some l) =>
      if (0 <? length (choices l))%nat then
        let questionObj := [("question", VString (questionText l))] in
        let questionObj := addImage (imgSrc l) questionObj in
        let questionObj := setProp "choices" (VArray (choices l)) questionObj in
        if isNewQuestion l || isWrongAnswer l
           || (length (correctAnswers l) =? 0)%nat
        then
          Walk (extractedQuestions w ++ [setProp "answer" (VString "") questionObj])
               (questionsWithAnswer w)
               (S (questionsWithoutAnswer w))
        else if (1 <? length (correctAnswers l))%nat then
          Walk (extractedQuestions w
                  ++ [setProp "answer" (VArray (correctAnswers l)) questionObj])
               (S (questionsWithAnswer w))
               (questionsWithoutAnswer w)
        else
          Walk (extractedQuestions w
                  ++ [setProp "answer" (index (correctAnswers l) 0) questionObj])
               (S (questionsWithAnswer w))
               (questionsWithoutAnswer w)
      else w
  end.

Definition extract (doc : node) : walk :=
  fold_left eachQuestion (questionElements doc) (Walk [] 0 0).

Definition htmlPath (htmlDir checkpointName : string) : string :=
  pathJoin htmlDir (checkpointName +:+ ".html").

Definition jsonPath (jsonDir checkpointName : string) : string :=
  pathJoin jsonDir (checkpointName +:+ ".json").

(** The lines of the summary: the stat cards, the number of records, the
    two counters, and whether the number of records is the [total]
    counter. *)
Definition summary (stats : stats) (w : walk) : report :=
  let count := Z.of_nat (length (extractedQuestions w)) in
  Report stats
         [("Total Questions", count);
          ("With Answer", Z.of_nat (questionsWithAnswer w));
          ("Blank Answer", Z.of_nat (questionsWithoutAnswer w))]
         (count =? total stats).

(** The script, from its command line (the arguments after the script
    name) to its summary. *)
Definition main (argv : list string) : io exit :=
  match argv with
  | courseFolder :: checkpointName :: _ =>
      if Js.truthy courseFolder && Js.truthy checkpointName then
        '(_, htmlDir, jsonDir) ← ensureCourseStructure courseFolder;
        let htmlPath := htmlPath htmlDir checkpointName in
        let jsonPath := jsonPath jsonDir checkpointName in
        pageExists ← existsSync htmlPath;
        if negb pageExists then mret Exit1 else
        document ← readPage htmlPath;
        let stats := readStats document in
        let w := extract document in
        writeFileSync jsonPath (Questions (extractedQuestions w));;
        updateCourseModule courseFolder checkpointName;;
        mret (Exit0 (summary stats w))
      else mret Exit1
  | _ => mret Exit1
  end.

End Walk.

End B.

(** ** Sample pages

    Small pages in the shape of the saved quiz reviews, on which the
    definitions above can be run. *)

Module Sample.

(** An answer row: the label with the choice text, and the correct-answer
    badge when the choice is the right one. *)
Definition answer (text : string) (isCorrect : bool) : node :=
  Element "div" ["answer"] []
    [Element "label" ["answer_label"] []
       (Text text
        :: if isCorrect
           then [Element "span" ["correct-answer-badge"] [] [Text "Correct"]]
           else [])].

Definition newBadge : node :=
  Element "span" ["answer-source-badge"; "new-source"] [] [Text "New"].

Definition wrongBadge : node :=
  Element "span" ["answer-source-badge"] [] [Text "Wrong answer"].

(** A question block: the question text with its badges, then the rows. *)
Definition question (text : string) (badges rows : list node) : node :=
  Element "div" ["display_question"] []
    (Element "div" ["question_text"] [] (Text text :: badges) :: rows).

Definition statCard (label value : string) : node :=
  Element "div" ["stat-card"] []
    [Element "div" ["stat-label"] [] [Text label];
     Element "div" ["stat-value"] [] [Text value]].

Definition capital : node :=
  question " Capital of France? " [] [answer "Paris" true; answer " London " false].

Definition primes : node :=
  question "Which are prime?" [] [answer "2" true; answer "3" true; answer "4" false].

Definition unanswered : node :=
  question "Largest ocean?" [] [answer "Pacific" false; answer "Atlantic" false].

Definition fresh : node :=
  question "Capital of Spain?" [newBadge] [answer "Madrid" true; answer "Lisbon" false].

Definition missed : node :=
  question "Capital of Italy?" [wrongBadge] [answer "Rome" true; answer "Milan" false].

(** A matching question: labels on the left, a select with its options. *)
Definition matching : node :=
  question "Match the ports." []
    [Element "div" ["pull-left"] []
       [Element "label" [] [] [Text "HTTP"]; Element "label" [] [] [Text "SSH"]];
     Element "select" [] []
       [Element "option" [] [] [Text "[ Choose ]"];
        Element "option" [] [] [Text "80"];
        Element "option" [] [] [Text "SSH"];
        Element "option" [] [] [Text "22"];
        Element "option" [] [] [Text "80"]]].

Definition body : node :=
  Element "body" [] []
    [statCard "Total Questions" "10"; statCard "Correct Answers" "7";
     statCard "Wrong Answers" "2"; statCard "New / Unknown" "x";
     capital; primes; unanswered; fresh; missed; matching].

Definition page : node := Element "html" [] [] [body].

Definition capitalEl : handle := Handle [] capital.

Definition capitalTextEl : handle :=
  Handle [capital] (Element "div" ["question_text"] [] [Text " Capital of France? "]).

Definition capitalRecord : object :=
  [("question", VString "Capital of France?");
   ("choices", VArray ["Paris"; "London"]);
   ("answer", VString "Paris")].

Definition freshEl : handle := Handle [] fresh.

Definition freshRecord : object :=
  [("question", VString "Capital of Spain?");
   ("choices", VArray ["Madrid"; "Lisbon"]);
   ("answer", VString "")].

Definition matchingEl : handle := Handle [] matching.

Definition matchingRecord : object :=
  [("question", VString "Match the ports.");
   ("choices", VArray ["HTTP"; "SSH"; "80"; "22"]);
   ("answer", VString "")].

(** A host that fails on every DOM call on the label of the choice "3". *)
Definition failsOnThree (n : node) : bool :=
  match n with
  | Element "label" _ _ (Text "3" :: _) => true
  | _ => false
  end.

(** The question about primes, as the walk over [page] meets it. *)
Definition primesEl : handle := Handle [body; page] primes.

Definition missedRecord (answer : string) : object :=
  [("question", VString "Capital of Italy?");
   ("choices", VArray ["Rome"; "Milan"]);
   ("answer", VString answer)].

(** The file system before a run of variant A on the sample page. *)
Definition diskA : disk :=
  <["./assets/html/cp1.html" := File (Page page)]>
    (<["./assets/json" := Dir]> (<["./assets/html" := Dir]> ∅)).

(** The file system before a run of variant B on the sample page. *)
Definition diskB : disk :=
  <["assets/dev-net/html/cp1.html" := File (Page page)]>
    (<["assets/dev-net/html" := Dir]>
       (<["assets/dev-net" := Dir]> (<["assets" := Dir]> ∅))).

End Sample.

(** ** More sample pages *)

Module Sample2.

(** A question block that lost its question text. *)
Definition headless : node :=
  Element "div" ["display_question"] [] [Sample.answer "Paris" true].

(** A question with a picture and a new-source badge in its text. *)
Definition pictured : node :=
  Element "div" ["display_question"] []
    [Element "div" ["question_text"] []
       [Text " Which flag? "; Sample.newBadge;
        Element "img" [] [("alt", "flag"); ("src", "flags/fr.png")] [];
        Element "img" [] [("src", "flags/it.png")] []];
     Sample.answer "France" true; Sample.answer "Italy" false].

Definition picturedText : handle :=
  Handle [pictured]
    (Element "div" ["question_text"] []
       [Text " Which flag? "; Sample.newBadge;
        Element "img" [] [("alt", "flag"); ("src", "flags/fr.png")] [];
        Element "img" [] [("src", "flags/it.png")] []]).

Definition picturedRecord (answer : string) : object :=
  [("question", VString "Which flag?");
   ("img", VString "flags/fr.png");
   ("choices", VArray ["France"; "Italy"]);
   ("answer", VString answer)].

(** A page without answer-source badges. *)
Definition plainPage : node :=
  Element "html" [] []
    [Element "body" [] []
       [Sample.capital; Sample.unanswered; Sample.primes; Sample.matching]].

(** A registry with the course [dev-net] and its modules. *)
Definition devNet (modules : list CourseModule.t) : Course.t :=
  Course.Make (Some "dev-net") "Dev Net" (Some modules).

Definition withRegistry (courses : list Course.t) : disk :=
  <["assets/courses.json" := File (Registry courses)]> (<["assets" := Dir]> ∅).

Definition firstModule : CourseModule.t :=
  CourseModule.Make (Some 1) "Checkpoint1" (Some ["checkpoint1"]).

(** A file system with a saved page of the course [dev-net]. *)
Definition savedPage : disk :=
  <["assets/dev-net/html/checkpoint1.html" := File (Page Sample.page)]> ∅.

End Sample2.

(** ** The notions the properties are stated with

    These definitions read the page directly, without the walks: they say
    what a question looks like in the document. *)

Definition questionTextEl (questionEl : handle) : option handle :=
  querySelector (Sel (ByClass "question_text")) questionEl.

Definition answerLabels (questionEl : handle) : list handle :=
  querySelectorAll (Sel (ByClass "answer_label")) questionEl.

(** The container of an answer label carries a correct-answer badge. *)
Definition carriesCorrectBadge (answerLabel : handle) : bool :=
  match parentElement answerLabel with
  | Some container =>
      match querySelector (Sel (ByClass "correct-answer-badge")) container with
      | Some _ => true
      | None => false
      end
  | None => false
  end.

(** The non-empty choice texts of a list of answer labels, in document
    order. *)
Definition choiceTexts (labels : list handle) : list string :=
  List.filter Js.truthy (map choiceTextOf labels).

(** The texts of the non-empty choices marked correct, in document order. *)
Definition correctChoices (labels : list handle) : list string :=
  map choiceTextOf
      (List.filter (fun l => Js.truthy (choiceTextOf l) && carriesCorrectBadge l)
                   labels).

(** The answer of a record with the correct choices [correct]: the choice
    itself when there is one, the array when there are several. *)
Definition answerOf (correct : list string) : value :=
  match correct with
  | [c] => VString c
  | _ => VArray correct
  end.

(** The answer-source badge of a question: the first one inside its
    question text. *)
Definition sourceBadge (questionEl : handle) : option handle :=
  match questionTextEl questionEl with
  | Some qt => querySelector (Sel (ByClass "answer-source-badge")) qt
  | None => None
  end.

Definition marksNew (questionEl : handle) : bool :=
  match sourceBadge questionEl with
  | Some badge => classListContains "new-source" badge
  | None => false
  end.

Definition marksWrong (questionEl : handle) : bool :=
  match sourceBadge questionEl with
  | Some badge => Js.includes (Js.toLowerCase (textContent badge)) "wrong"
  | None => false
  end.

(** The strings an answer is made of. *)
Definition answerElements (v : value) : list string :=
  match v with
  | VUndefined => []
  | VString s => [s]
  | VArray l => l
  end.

(** A record whose answer is the empty string. *)
Definition blankAnswer (o : object) : bool :=
  match getProp "answer" o with
  | Some (VString s) => negb (Js.truthy s)
  | _ => false
  end.

(** What variant A has read when the reads of a question end without an
    exception. *)
Definition A_read (questionEl : handle) : option A.locals :=
  match questionTextEl questionEl with
  | Some qt =>
      Some (A.Locals (questionTextOf qt) (imgSrcOf qt)
                     (choiceTexts (answerLabels questionEl))
                     (correctChoices (answerLabels questionEl)))
  | None => None
  end.

(** The trimmed text of an element. *)
Definition trimmedText (h : handle) : string := Js.trim (textContent h).

(** The matching-question fallback: the non-empty texts of the labels under
    a [pull-left] element, in document order. *)
Definition matchingTexts (questionEl : handle) : list string :=
  List.filter Js.truthy
    (map trimmedText
         (querySelectorAll (Descendant (ByClass "pull-left") (ByTag "label"))
                           questionEl)).

(** An option text that is neither empty nor the placeholder. *)
Definition keptOption (t : string) : bool :=
  Js.truthy t && negb (String.eqb t "[ Choose ]").

(** The non-empty texts of the options of the selects, in document order,
    without the placeholder. *)
Definition optionTexts (questionEl : handle) : list string :=
  List.filter keptOption
    (map trimmedText
         (querySelectorAll (Descendant (ByTag "select") (ByTag "option"))
                           questionEl)).

(** Order-preserving de-duplication: every string is kept at its first
    occurrence. *)
Fixpoint dedup (l : list string) : list string :=
  match l with
  | [] => []
  | x :: r => x :: List.filter (fun y => negb (String.eqb y x)) (dedup r)
  end.

(** The option texts that are not among [seen], each at its first
    occurrence. *)
Definition freshOptions (seen options : list string) : list string :=
  dedup (List.filter (fun t => negb (existsb (String.eqb t) seen)) options).

(** The choices of the fallback: the labels first, then the options that are
    not among the labels, de-duplicated. *)
Definition fallbackChoices (questionEl : handle) : list string :=
  matchingTexts questionEl
    ++ freshOptions (matchingTexts questionEl) (optionTexts questionEl).

(** What variant B has read when the reads of a question end without an
    exception. *)
Definition B_read (questionEl : handle) : option B.locals :=
  match questionTextEl questionEl with
  | Some qt =>
      let isNew := marksNew questionEl in
      let isWrong := marksWrong questionEl in
      let labels := answerLabels questionEl in
      Some (B.Locals isNew isWrong (questionTextOf qt) (imgSrcOf qt)
              (match labels with
               | [] => fallbackChoices questionEl
               | _ => choiceTexts labels
               end)
              (if negb isNew && negb isWrong then correctChoices labels else []))
  | None => None
  end.

(** The answer variant B gives to a question it has read: blank for a new
    or wrongly answered question and when no choice is marked correct. *)
Definition B_answer (l : B.locals) : value :=
  if B.isNewQuestion l || B.isWrongAnswer l
     || bool_decide (B.correctAnswers l = [])
  then VString ""
  else answerOf (B.correctAnswers l).

(** The record variant B emits for a question it has read. *)
Definition B_record (l : B.locals) : object :=
  setProp "answer" (B_answer l)
    (setProp "choices" (VArray (B.choices l))
       (addImage (B.imgSrc l) [("question", VString (B.questionText l))])).

(** The record has a non-empty [choices] array. *)
Definition hasChoices (o : object) : Prop :=
  ∃ cs, getProp "choices" o = Some (VArray cs) ∧ cs ≠ [].

(** A populated answer: a non-empty string, or an array of at least two
    non-empty strings. *)
Definition populated (v : value) : Prop :=
  match v with
  | VUndefined => False
  | VString s => Js.truthy s = true
  | VArray l => (2 ≤ length l)%nat ∧ Forall (fun s => Js.truthy s = true) l
  end.

(** The record has an answer, and unless that answer is the empty string
    each of its elements is one of the choices of the record. *)
Definition answerAmongChoices (o : object) : Prop :=
  ∃ cs v, getProp "choices" o = Some (VArray cs)
          ∧ getProp "answer" o = Some v
          ∧ (v = VString "" ∨ incl (answerElements v) cs).

(** The four counters of the summary cards. *)
Inductive category : Type := Total | Correct | Wrong | New.

#[global] Instance category_eq_dec : EqDecision category.
Proof. solve_decision. Defined.

Definition keyword (c : category) : string :=
  match c with
  | Total => "total"
  | Correct => "correct"
  | Wrong => "wrong"
  | New => "new"
  end.

(** The category of a lower-cased label: the first of total, correct, wrong
    and new whose keyword occurs in it. *)
Definition classify (labelText : string) : option category :=
  List.find (fun c => Js.includes labelText (keyword c)) [Total; Correct; Wrong; New].

(** The category of a card that has both a label and a value. *)
Definition cardCategory (card : handle) : option category :=
  match querySelector (Sel (ByClass "stat-label")) card,
        querySelector (Sel (ByClass "stat-value")) card with
  | Some label, Some _ => classify (Js.toLowerCase (textContent label))
  | _, _ => None
  end.

(** The number on a card: its value text read as an integer, 0 when the text
    does not start with a number. *)
Definition cardValue (card : handle) : Z :=
  match querySelector (Sel (ByClass "stat-value")) card with
  | Some value =>
      match Js.parseInt (textContent value) with
      | Some n => n
      | None => 0
      end
  | None => 0
  end.

Definition counter (c : category) (st : stats) : Z :=
  match c with
  | Total => total st
  | Correct => correct st
  | Wrong => wrong st
  | New => new st
  end.

(** The number on the last card of category [c], 0 when there is none. *)
Definition lastCardValue (c : category) (cards : list handle) : Z :=
  match last (List.filter (fun card => bool_decide (cardCategory card = Some c)) cards) with
  | Some card => cardValue card
  | None => 0
  end.

(** The number a summary prints under [Extracted:] with the label [label],
    [None] when it has no such line. *)
Definition reportLine (label : string) (r : report) : option Z :=
  snd <$> List.find (fun kv => String.eqb (fst kv) label) (extracted r).

(** The numbers of records with a non-empty and with a blank answer. *)
Definition answeredCount (records : list object) : nat :=
  length (List.filter (fun o => negb (blankAnswer o)) records).

Definition blankCount (records : list object) : nat :=
  length (List.filter blankAnswer records).

(** The summary [r] of a run that emitted [records] reports how many of them
    have an answer and how many have a blank one. *)
Definition reportsAnswerCounts (r : report) (records : list object) : bool :=
  bool_decide (reportLine "With Answer" r = Some (Z.of_nat (answeredCount records)))
  && bool_decide (reportLine "Blank Answer" r = Some (Z.of_nat (blankCount records))).

(** The choices variant B finds for a question: the texts of its answer
    labels or, when it has no answer label, the choices of the fallback. *)
Definition questionChoices (questionEl : handle) : list string :=
  match answerLabels questionEl with
  | [] => fallbackChoices questionEl
  | labels => choiceTexts labels
  end.

(** The names of the properties of an object, in the order in which
    [JSON.stringify] prints them. *)
Definition keys (o : object) : list string := map fst o.

(** The [img] property a record gets from its question text: the [src] of
    the first image, when there is an image and its [src] is not empty. *)
Definition imgProperty (questionTextEl : handle) : option value :=
  match imgSrcOf questionTextEl with
  | Some src => if Js.truthy src then Some (VString src) else None
  | None => None
  end.

(** A selector without a descendant combinator: whether an element matches
    it depends on the element alone. *)
Fixpoint simpleSelector (sel : selector) : bool :=
  match sel with
  | Sel _ => true
  | Descendant _ _ => false
  | Either s1 s2 => simpleSelector s1 && simpleSelector s2
  end.

(** [m.id || 0]. *)
Definition moduleId (m : CourseModule.t) : Z := default 0 (CourseModule.id m).

(** [course.modules || []]. *)
Definition courseModules (course : Course.t) : list CourseModule.t :=
  default [] (Course.modules course).

(** [course.id === courseFolder]. *)
Definition isCourse (courseFolder : string) (course : Course.t) : bool :=
  bool_decide (Course.id course = Some courseFolder).

(** The course the loop of [updateCourseModule] stops at. *)
Definition firstCourse (courseFolder : string) (courses : list Course.t)
  : option Course.t :=
  List.find (isCourse courseFolder) courses.

(** Some module of the course lists the checkpoint. *)
Definition courseHasCheckpoint (checkpointName : string) (course : Course.t) : bool :=
  existsb (hasCheckpoint checkpointName) (courseModules course).

(** The course list of the registry file, when there is one. *)
Definition registryOf (d : disk) : option (list Course.t) :=
  match d !! "assets/courses.json" with
  | Some (File (Registry courses)) => Some courses
  | _ => None
  end.

(** The entry [ensureCourseStructure] appends for a new course folder. *)
Definition newCourse (courseFolder : string) : Course.t :=
  Course.Make (Some courseFolder) (displayName "-" "_" courseFolder) (Some []).

(** The course [updateCourseModule] has a module to add to: the first course
    of the registry with the id [courseFolder], when none of its modules
    lists the checkpoint. *)
Definition pendingCourse (courseFolder checkpointName : string) (d : disk)
  : option Course.t :=
  match registryOf d with
  | Some courses =>
      match firstCourse courseFolder courses with
      | Some course =>
          if courseHasCheckpoint checkpointName course then None else Some course
      | None => None
      end
  | None => None
  end.

(** The course list [ensureCourseStructure] starts from. *)
Definition coursesBefore (d : disk) (courses : list Course.t) : Prop :=
  (d !! "assets/courses.json" = None ∧ courses = [])
  ∨ d !! "assets/courses.json" = Some (File (Registry courses)).

(** The record has a [choices] array without empty strings. *)
Definition choicesNotBlank (o : object) : Prop :=
  ∃ cs, getProp "choices" o = Some (VArray cs)
        ∧ Forall (fun c => Js.truthy c = true) cs.

(** The answer of the record is blank, or its elements are choices of the
    record in the order of the choices. *)
Definition answerInChoiceOrder (o : object) : Prop :=
  ∃ cs v, getProp "choices" o = Some (VArray cs)
          ∧ getProp "answer" o = Some v
          ∧ (v = VString "" ∨ sublist (answerElements v) cs).

(** A name without a slash. *)
Fixpoint noSlash (s : string) : bool :=
  match s with
  | String a r => negb (Ascii.eqb a "/") && noSlash r
  | EmptyString => true
  end.

(** A plain file or folder name: not empty, without a slash, and neither
    [.] nor [..].  [path.join] puts such a name below the directory as it
    is. *)
Definition plainName (s : string) : bool :=
  Js.truthy s && noSlash s && negb (String.eqb s ".") && negb (String.eqb s "..").

(** [Number.MAX_SAFE_INTEGER]: up to it, adding 1 to an integer is exact. *)
Definition maxSafeInteger : Z := 2 ^ 53 - 1.

(** The path holds a directory, unless a file was in its place before. *)
Definition directoryUnlessFile (before after : disk) (p : string) : Prop :=
  after !! p = Some Dir ∨ ∃ f, before !! p = Some (File f).

(** The record variant A emits for a question it has read. *)
Definition A_record (l : A.locals) : object :=
  setProp "answer" (answerOf (A.correctAnswers l))
    (setProp "choices" (VArray (A.choices l))
       (addImage (A.imgSrc l) [("question", VString (A.questionText l))])).

(** The records a question contributes when its processing raises no
    exception, read off the page: in variant A one record when a choice is
    marked correct, in variant B one record when there is a choice. *)
Definition A_recordsOf (questionEl : handle) : list object :=
  match A_read questionEl with
  | Some l => if bool_decide (A.correctAnswers l = []) then [] else [A_record l]
  | None => []
  end.

Definition B_recordsOf (questionEl : handle) : list object :=
  match B_read questionEl with
  | Some l => if bool_decide (B.choices l = []) then [] else [B_record l]
  | None => []
  end.

(** ** Objects *)

Lemma getProp_setProp_eq k v o : getProp k (setProp k v o) = Some v.
Proof.
  unfold getProp. induction o as [|[k' v'] o IH]; simpl.
  - by rewrite String.eqb_refl.
  - destruct (String.eqb k' k) eqn:E; simpl.
    + by rewrite String.eqb_refl.
    + by rewrite E.
Qed.

Lemma getProp_setProp_ne k k' v o :
  k ≠ k' → getProp k (setProp k' v o) = getProp k o.
Proof.
  intros Hne. unfold getProp. induction o as [|[k1 v1] o IH]; simpl.
  - destruct (String.eqb_spec k' k); [congruence | done].
  - destruct (String.eqb_spec k1 k') as [->|Hk]; simpl.
    + destruct (String.eqb_spec k' k); [congruence | done].
    + destruct (String.eqb_spec k1 k); [done | apply IH].
Qed.

Lemma getProp_addImage k img o :
  k ≠ "img" → getProp k (addImage img o) = getProp k o.
Proof.
  intros Hne. unfold addImage. destruct img as [src|]; [|done].
  destruct (Js.truthy src); [|done]. by apply getProp_setProp_ne.
Qed.

(** The three properties that every record is given, whatever its answer. *)
Lemma record_choices img q cs v :
  getProp "choices"
    (setProp "answer" v
       (setProp "choices" (VArray cs) (addImage img [("question", VString q)])))
  = Some (VArray cs).
Proof. rewrite getProp_setProp_ne by done. apply getProp_setProp_eq. Qed.

Lemma record_answer o v : getProp "answer" (setProp "answer" v o) = Some v.
Proof. apply getProp_setProp_eq. Qed.

(** ** Loops *)

Lemma fold_left_invariant {S X : Type} (P : S → Prop) (f : S → X → S) l s :
  P s → (∀ s x, P s → P (f s x)) → P (fold_left f l s).
Proof.
  intros Hs Hf. revert s Hs. induction l as [|x l IH]; simpl; auto.
Qed.

Lemma existsb_eqb_In (t : string) (l : list string) :
  existsb (String.eqb t) l = true ↔ In t l.
Proof.
  rewrite existsb_exists. split.
  - intros (x & Hx & E). apply String.eqb_eq in E. by subst.
  - intros H. exists t. split; [done | apply String.eqb_refl].
Qed.

(** ** Answer labels *)

Lemma call_sound {A : Type} (h : handle) (x : A) : call sound h x = Ok x.
Proof. reflexivity. Qed.

(** Runs a script on the host without failures as far as the next loop. *)
Ltac run_sound :=
  repeat first
    [ progress rewrite !call_sound
    | progress cbn [mbind outcome_bind length Nat.ltb Nat.leb] ].

Lemma choiceTexts_cons lab labels :
  choiceTexts (lab :: labels)
  = (if Js.truthy (choiceTextOf lab) then [choiceTextOf lab] else [])
      ++ choiceTexts labels.
Proof. unfold choiceTexts. simpl. by destruct (Js.truthy _). Qed.

Lemma correctChoices_cons lab labels :
  correctChoices (lab :: labels)
  = (if Js.truthy (choiceTextOf lab) && carriesCorrectBadge lab
     then [choiceTextOf lab] else [])
      ++ correctChoices labels.
Proof. unfold correctChoices. simpl. by destruct (_ && _). Qed.

Lemma choiceTexts_truthy labels : Forall (fun c => Js.truthy c = true) (choiceTexts labels).
Proof.
  unfold choiceTexts. apply List.Forall_forall. intros c Hc.
  by apply filter_In in Hc as [_ Hc].
Qed.

Lemma correctChoices_incl labels : incl (correctChoices labels) (choiceTexts labels).
Proof.
  intros c Hc. unfold correctChoices in Hc. apply in_map_iff in Hc as (l & <- & Hl).
  apply filter_In in Hl as [Hl Ht]. apply andb_prop in Ht as [Ht _].
  unfold choiceTexts. apply filter_In. split; [by apply in_map | done].
Qed.

(** When the loop of variant A ends without an exception, its two arrays
    hold the choice texts and the correct choices. *)
Lemma A_answerLabels_inv raises labels cs ca cs' ca' :
  forEach (A.eachAnswerLabel raises) labels (cs, ca) = Ok (cs', ca') →
  cs' = cs ++ choiceTexts labels ∧ ca' = ca ++ correctChoices labels.
Proof.
  revert cs ca. induction labels as [|lab labels IH]; simpl; intros cs ca H.
  - injection H as <- <-. unfold choiceTexts, correctChoices. simpl.
    by rewrite !app_nil_r.
  - rewrite choiceTexts_cons, correctChoices_cons.
    unfold A.eachAnswerLabel, call, carriesCorrectBadge, mbind, outcome_bind in *.
    destruct (raises (self lab)); [done|].
    destruct (Js.truthy (choiceTextOf lab)); simpl in *.
    + destruct (parentElement lab) as [p|]; simpl in H; [|done].
      destruct (raises (self p)); [done|].
      destruct (querySelector _ p); apply IH in H as [-> ->];
        by rewrite <- !app_assoc.
    + by apply IH in H.
Qed.

(** Every element found below a node has a parent element. *)
Lemma descendants_parent n :
  ∀ anc h, In h (descendants anc n) → is_Some (parentElement h).
Proof.
  induction n as [s|s|t cl attrs kids IH] using node_tree_ind; intros anc h Hh; simpl in Hh; try done.
  apply in_flat_map in Hh as (k & Hk & Hh).
  rewrite List.Forall_forall in IH. specialize (IH k Hk).
  destruct k as [s|s|t' cl' attrs' kids']; try done.
  destruct Hh as [<-|Hh]; [by eexists | eauto].
Qed.

Lemma querySelectorAll_parent sel q h :
  In h (querySelectorAll sel q) → is_Some (parentElement h).
Proof.
  unfold querySelectorAll. intros Hh. apply filter_In in Hh as [Hh _].
  by eapply descendants_parent.
Qed.

(** In the host without failures the loop of variant A always ends. *)
Lemma A_answerLabels_sound labels cs ca :
  (∀ lab, In lab labels → is_Some (parentElement lab)) →
  forEach (A.eachAnswerLabel sound) labels (cs, ca)
  = Ok (cs ++ choiceTexts labels, ca ++ correctChoices labels).
Proof.
  revert cs ca. induction labels as [|lab labels IH]; simpl; intros cs ca Hp.
  - unfold choiceTexts, correctChoices. simpl. by rewrite !app_nil_r.
  - rewrite choiceTexts_cons, correctChoices_cons.
    destruct (Hp lab) as [p Hlab]; [by left|].
    unfold A.eachAnswerLabel, call, carriesCorrectBadge, sound, mbind, outcome_bind.
    rewrite Hlab. simpl.
    destruct (Js.truthy (choiceTextOf lab)); simpl.
    + destruct (querySelector _ p); rewrite IH by auto;
        by rewrite <- !app_assoc.
    + rewrite IH by auto. done.
Qed.

Lemma A_readQuestion_inv raises q r :
  A.readQuestion raises q = Ok r → r = A_read q.
Proof.
  unfold A.readQuestion, A_read, questionTextEl, answerLabels, call, mbind, outcome_bind.
  destruct (raises (self q)); [done|].
  destruct (querySelector _ q) as [qt|]; [|congruence].
  destruct (raises (self qt)); [done|].
  destruct (forEach _ _ _) as [[cs ca]|e] eqn:E; [|done].
  apply A_answerLabels_inv in E as [-> ->]. simpl. congruence.
Qed.

Lemma A_readQuestion_sound q : A.readQuestion sound q = Ok (A_read q).
Proof.
  unfold A.readQuestion, A_read, questionTextEl, answerLabels, call, sound, mbind, outcome_bind.
  destruct (querySelector _ q) as [qt|]; [|done].
  fold sound. rewrite A_answerLabels_sound; [done|].
  intros lab. apply querySelectorAll_parent.
Qed.

(** ** The loops of variant B *)

Lemma B_answerLabels_inv raises isNew isWrong labels cs ca cs' ca' :
  forEach (B.eachAnswerLabel raises isNew isWrong) labels (cs, ca) = Ok (cs', ca') →
  cs' = cs ++ choiceTexts labels
  ∧ ca' = ca ++ (if negb isNew && negb isWrong then correctChoices labels else []).
Proof.
  revert cs ca. induction labels as [|lab labels IH]; simpl; intros cs ca H.
  - injection H as <- <-. unfold choiceTexts, correctChoices. simpl.
    destruct (_ && _); by rewrite !app_nil_r.
  - rewrite choiceTexts_cons, correctChoices_cons.
    unfold B.eachAnswerLabel, call, carriesCorrectBadge, mbind, outcome_bind in *.
    destruct (raises (self lab)); [done|].
    destruct (Js.truthy (choiceTextOf lab)); simpl in *.
    + destruct (negb isNew && negb isWrong); simpl in *.
      * destruct (parentElement lab) as [p|]; simpl in H; [|done].
        destruct (raises (self p)); [done|].
        destruct (querySelector _ p); apply IH in H as [-> ->];
          by rewrite <- !app_assoc.
      * apply IH in H as [-> ->]. by rewrite <- !app_assoc.
    + by apply IH in H.
Qed.

Lemma B_answerLabels_sound isNew isWrong labels cs ca :
  (∀ lab, In lab labels → is_Some (parentElement lab)) →
  forEach (B.eachAnswerLabel sound isNew isWrong) labels (cs, ca)
  = Ok (cs ++ choiceTexts labels,
        ca ++ (if negb isNew && negb isWrong then correctChoices labels else [])).
Proof.
  revert cs ca. induction labels as [|lab labels IH]; simpl; intros cs ca Hp.
  - unfold choiceTexts, correctChoices. simpl.
    destruct (_ && _); by rewrite !app_nil_r.
  - rewrite choiceTexts_cons, correctChoices_cons.
    destruct (Hp lab) as [p Hlab]; [by left|].
    unfold carriesCorrectBadge. rewrite Hlab. simpl.
    destruct (Js.truthy (choiceTextOf lab)); simpl.
    + destruct (negb isNew && negb isWrong); simpl.
      * destruct (querySelector _ p); rewrite IH by auto;
          by rewrite <- !app_assoc.
      * rewrite IH by auto. by rewrite <- !app_assoc.
    + rewrite IH by auto. done.
Qed.

Lemma B_matchingLabels_inv raises labels cs cs' :
  forEach (B.eachMatchingLabel raises) labels cs = Ok cs' →
  cs' = cs ++ List.filter Js.truthy (map trimmedText labels).
Proof.
  revert cs. induction labels as [|lab labels IH]; simpl; intros cs H.
  - injection H as <-. by rewrite app_nil_r.
  - unfold B.eachMatchingLabel, call, mbind, outcome_bind in *.
    destruct (raises (self lab)); [done|]. simpl in H.
    apply IH in H as ->. unfold trimmedText at 1.
    destruct (Js.truthy _); by rewrite <- ?app_assoc.
Qed.

Lemma B_matchingLabels_sound labels cs :
  forEach (B.eachMatchingLabel sound) labels cs
  = Ok (cs ++ List.filter Js.truthy (map trimmedText labels)).
Proof.
  revert cs. induction labels as [|lab labels IH]; simpl; intros cs.
  - by rewrite app_nil_r.
  - rewrite IH. unfold trimmedText at 2.
    destruct (Js.truthy _); by rewrite <- ?app_assoc.
Qed.

(** The pushes of the option loop, on the texts alone. *)
Lemma filter_filter_comm {X : Type} (p q : X → bool) l :
  List.filter p (List.filter q l) = List.filter q (List.filter p l).
Proof.
  induction l as [|x l IH]; simpl; [done|].
  destruct (p x) eqn:Hp, (q x) eqn:Hq; simpl; rewrite ?Hp, ?Hq, ?IH; done.
Qed.

Lemma filter_filter_and {X : Type} (p q : X → bool) l :
  List.filter p (List.filter q l) = List.filter (fun x => q x && p x) l.
Proof.
  induction l as [|x l IH]; simpl; [done|].
  destruct (q x); simpl; [destruct (p x)|]; by rewrite IH.
Qed.

Lemma filter_all {X : Type} (q : X → bool) l :
  (∀ y, In y l → q y = true) → List.filter q l = l.
Proof.
  induction l as [|x l IH]; simpl; intros H; [done|].
  rewrite (H x) by auto. f_equal. auto.
Qed.

Lemma dedup_filter p l : List.filter p (dedup l) = dedup (List.filter p l).
Proof.
  induction l as [|x l IH]; simpl; [done|].
  destruct (p x) eqn:Hp; simpl.
  - by rewrite filter_filter_comm, IH.
  - rewrite <- IH. rewrite filter_filter_comm.
    apply filter_all. intros y Hy. apply filter_In in Hy as [_ Hy].
    destruct (String.eqb_spec y x) as [->|]; [congruence | done].
Qed.

Lemma B_selectOptions_texts cs texts :
  fold_left (fun cs t =>
               if keptOption t && negb (existsb (String.eqb t) cs)
               then cs ++ [t] else cs) texts cs
  = cs ++ dedup (List.filter (fun t => negb (existsb (String.eqb t) cs))
                             (List.filter keptOption texts)).
Proof.
  revert cs. induction texts as [|t texts IH]; simpl; intros cs.
  - by rewrite app_nil_r.
  - rewrite IH. destruct (keptOption t) eqn:Hk; simpl; [|done].
    destruct (existsb (String.eqb t) cs) eqn:Hin; simpl; [done|].
    rewrite <- app_assoc. simpl. do 2 f_equal.
    rewrite dedup_filter, filter_filter_comm. f_equal.
    rewrite filter_filter_comm.
    set (l := List.filter keptOption texts). clearbody l.
    induction l as [|y l IHl]; simpl; [done|].
    rewrite existsb_app. simpl. rewrite orb_false_r.
    destruct (existsb (String.eqb y) cs); simpl.
    + destruct (String.eqb y t); simpl; apply IHl.
    + destruct (String.eqb y t); simpl; by rewrite IHl.
Qed.

Lemma B_selectOptions_inv raises opts cs cs' :
  forEach (B.eachSelectOption raises) opts cs = Ok cs' →
  cs' = cs ++ dedup (List.filter (fun t => negb (existsb (String.eqb t) cs))
                                 (List.filter keptOption (map trimmedText opts))).
Proof.
  rewrite <- B_selectOptions_texts.
  revert cs. induction opts as [|opt opts IH]; simpl; intros cs H.
  - by injection H.
  - unfold B.eachSelectOption, call, mbind, outcome_bind in *.
    destruct (raises (self opt)); [done|]. simpl in H.
    by apply IH in H.
Qed.

Lemma B_selectOptions_sound opts cs :
  forEach (B.eachSelectOption sound) opts cs
  = Ok (cs ++ dedup (List.filter (fun t => negb (existsb (String.eqb t) cs))
                                 (List.filter keptOption (map trimmedText opts)))).
Proof.
  rewrite <- B_selectOptions_texts.
  revert cs. induction opts as [|opt opts IH]; simpl; intros cs; [done|].
  by rewrite IH.
Qed.

(** ** The reads of a question *)

Lemma B_readQuestion_inv raises q r :
  B.readQuestion raises q = Ok r → r = B_read q.
Proof.
  unfold B.readQuestion, B_read, marksNew, marksWrong, sourceBadge, questionTextEl,
    answerLabels, fallbackChoices, matchingTexts, optionTexts, call, mbind, outcome_bind.
  destruct (raises (self q)); [done|].
  destruct (querySelector _ q) as [qt|]; [|congruence].
  destruct (raises (self qt)); [done|].
  set (isNew := match querySelector _ qt with Some b => classListContains _ b | None => false end).
  set (isWrong := match querySelector _ qt with Some b => Js.includes _ _ | None => false end).
  destruct (querySelector _ qt) as [badge|].
  - destruct (raises (self badge)); [done|].
    destruct (querySelectorAll (Sel (ByClass "answer_label")) q) as [|lab labels] eqn:El.
    + simpl. destruct (forEach (B.eachMatchingLabel raises) _ _) as [cs|] eqn:E1; [|done].
      destruct (forEach (B.eachSelectOption raises) _ _) as [cs2|] eqn:E2; [|done].
      apply B_matchingLabels_inv in E1 as ->. apply B_selectOptions_inv in E2 as ->.
      simpl. intros [= <-]. destruct (_ && _); reflexivity.
    + change (0 <? length (lab :: labels))%nat with true. cbv iota.
      destruct (forEach _ _ _) as [[cs ca]|] eqn:E; [|done].
      apply B_answerLabels_inv in E as [-> ->]. simpl. intros [= <-]. reflexivity.
  - destruct (querySelectorAll (Sel (ByClass "answer_label")) q) as [|lab labels] eqn:El.
    + simpl. destruct (forEach (B.eachMatchingLabel raises) _ _) as [cs|] eqn:E1; [|done].
      destruct (forEach (B.eachSelectOption raises) _ _) as [cs2|] eqn:E2; [|done].
      apply B_matchingLabels_inv in E1 as ->. apply B_selectOptions_inv in E2 as ->.
      simpl. intros [= <-]. reflexivity.
    + change (0 <? length (lab :: labels))%nat with true. cbv iota.
      destruct (forEach _ _ _) as [[cs ca]|] eqn:E; [|done].
      apply B_answerLabels_inv in E as [-> ->]. simpl. intros [= <-]. reflexivity.
Qed.

Lemma B_readQuestion_sound q : B.readQuestion sound q = Ok (B_read q).
Proof.
  assert (Hp : ∀ lab, In lab (querySelectorAll (Sel (ByClass "answer_label")) q)
                      → is_Some (parentElement lab))
    by (intros lab; apply querySelectorAll_parent).
  unfold B.readQuestion, B_read, marksNew, marksWrong, sourceBadge, questionTextEl,
    answerLabels, fallbackChoices, matchingTexts, optionTexts.
  run_sound.
  destruct (querySelector _ q) as [qt|]; [|done]. run_sound.
  destruct (querySelector _ qt) as [badge|]; run_sound;
    destruct (querySelectorAll (Sel (ByClass "answer_label")) q) as [|lab labels];
    repeat first
      [ rewrite (B_answerLabels_sound _ _ (lab :: labels)) by done
      | rewrite B_matchingLabels_sound
      | rewrite B_selectOptions_sound
      | progress run_sound ];
    try done.
  simpl. by destruct (_ && _).
Qed.

(** ** Variant A: which questions are emitted *)

Lemma correctChoices_nonempty labels :
  correctChoices labels ≠ []
  ↔ ∃ lab, In lab labels ∧ Js.truthy (choiceTextOf lab) = true
           ∧ carriesCorrectBadge lab = true.
Proof.
  unfold correctChoices. split.
  - intros Hne.
    destruct (List.filter _ labels) as [|lab l] eqn:E; [done|].
    assert (Hin : In lab (List.filter
      (fun l => Js.truthy (choiceTextOf l) && carriesCorrectBadge l) labels))
      by (rewrite E; by left).
    apply filter_In in Hin as [Hin Hb]. apply andb_prop in Hb as [? ?]. eauto.
  - intros (lab & Hin & Ht & Hc) Hnil.
    assert (Hf : In lab (List.filter
      (fun l => Js.truthy (choiceTextOf l) && carriesCorrectBadge l) labels))
      by (apply filter_In; split; [done | by rewrite Ht, Hc]).
    apply (in_map choiceTextOf) in Hf. by rewrite Hnil in Hf.
Qed.

Lemma app_singleton_neq {X : Type} (l : list X) (x : X) : l ≠ l ++ [x].
Proof.
  intros H. apply (f_equal length) in H. rewrite length_app in H. simpl in H. lia.
Qed.

Lemma A_questionObj_answer l :
  A.correctAnswers l ≠ [] →
  getProp "answer" (A.questionObj l) = Some (answerOf (A.correctAnswers l)).
Proof.
  unfold A.questionObj. intros Hne.
  destruct (A.correctAnswers l) as [|c [|c' ca]] eqn:E; [done| |];
    simpl; apply record_answer.
Qed.

(** The step of variant A on a question whose reads end without an
    exception. *)
Lemma A_question_read raises s q :
  completes (A.readQuestion raises q) = true →
  A.eachQuestion raises s q
  = match A_read q with
    | Some l => if bool_decide (A.correctAnswers l = []) then s
                else s ++ [A.questionObj l]
    | None => s
    end.
Proof.
  intros Hok. unfold A.eachQuestion.
  destruct (A.readQuestion raises q) as [r|e] eqn:E; [|done].
  apply A_readQuestion_inv in E as ->.
  unfold A_read. destruct (questionTextEl q) as [qt|]; [|done]. simpl.
  pose proof (correctChoices_incl (answerLabels q)) as Hincl.
  destruct (correctChoices (answerLabels q)) as [|c ca]; [done|].
  destruct (choiceTexts (answerLabels q)) as [|c' cs]; [|done].
  destruct (Hincl c). by left.
Qed.

(** C2. In variant A, a question that has a question-text container is
    emitted if and only if one of its answer labels has a non-empty choice
    text and a container that carries a correct-answer badge; the answer of
    the emitted record is the correct choice itself when there is exactly
    one, and the array of the correct choices in document order when there
    are several.  (Stated for every host on which the reads of the question
    raise no exception.) *)
Theorem A_emits_iff_correct_choice
    (raises : node → bool) (questionEl qt : handle) (extractedQuestions : list object) :
  questionTextEl questionEl = Some qt →
  completes (A.readQuestion raises questionEl) = true →
  ((∃ r, A.eachQuestion raises extractedQuestions questionEl = extractedQuestions ++ [r])
   ↔ (∃ lab, In lab (answerLabels questionEl)
             ∧ Js.truthy (choiceTextOf lab) = true
             ∧ carriesCorrectBadge lab = true))
  ∧ ((¬ ∃ r, A.eachQuestion raises extractedQuestions questionEl = extractedQuestions ++ [r])
     → A.eachQuestion raises extractedQuestions questionEl = extractedQuestions)
  ∧ (∀ r, A.eachQuestion raises extractedQuestions questionEl = extractedQuestions ++ [r] →
          getProp "answer" r
          = Some (answerOf (correctChoices (answerLabels questionEl)))).
Proof.
  intros Hqt Hok. rewrite (A_question_read _ _ _ Hok).
  rewrite <- correctChoices_nonempty.
  unfold A_read. rewrite Hqt. simpl.
  case_bool_decide as Hc.
  - split; [|split].
    + split; [intros [r Hr]; by apply app_singleton_neq in Hr | done].
    + done.
    + intros r Hr. by apply app_singleton_neq in Hr.
  - split; [|split].
    + split; [done | eauto].
    + intros Hn. destruct Hn. eauto.
    + intros r Hr. apply app_inv_head in Hr. injection Hr as <-.
      by apply (A_questionObj_answer (A.Locals _ _ _ _)).
Qed.

Lemma A_emits_iff_correct_choice_witness :
  questionTextEl Sample.capitalEl = Some Sample.capitalTextEl
  ∧ completes (A.readQuestion sound Sample.capitalEl) = true
  ∧ A.eachQuestion sound [] Sample.capitalEl = [Sample.capitalRecord]
  ∧ getProp "answer" Sample.capitalRecord
    = Some (answerOf (correctChoices (answerLabels Sample.capitalEl))).
Proof.
  split; [reflexivity|]. split; [reflexivity|]. split; [reflexivity|].
  apply (A_emits_iff_correct_choice sound Sample.capitalEl Sample.capitalTextEl []);
    reflexivity.
Defined.

(** ** The steps of the two walks *)

(** A step of variant A leaves the array as it is or pushes the record of a
    question that has a correct choice. *)
Lemma A_question_cases raises s q :
  A.eachQuestion raises s q = s
  ∨ ∃ l, A_read q = Some l ∧ A.correctAnswers l ≠ []
         ∧ A.eachQuestion raises s q = s ++ [A.questionObj l].
Proof.
  unfold A.eachQuestion.
  destruct (A.readQuestion raises q) as [r|e] eqn:E; [|by left].
  apply A_readQuestion_inv in E as ->.
  destruct (A_read q) as [l|]; [|by left].
  destruct (A.correctAnswers l) as [|c ca] eqn:Ec; [by left|].
  destruct (A.choices l); simpl; [by left|].
  right. exists l. rewrite Ec. split; [done|]. split; [discriminate|]. done.
Qed.

(** The counters of variant B after it has pushed the record [r]. *)
Lemma B_question_cases raises w q :
  B.eachQuestion raises w q = w
  ∨ ∃ l, B_read q = Some l ∧ B.choices l ≠ []
         ∧ B.eachQuestion raises w q
           = if blankAnswer (B_record l)
             then B.Walk (B.extractedQuestions w ++ [B_record l])
                         (B.questionsWithAnswer w) (S (B.questionsWithoutAnswer w))
             else B.Walk (B.extractedQuestions w ++ [B_record l])
                         (S (B.questionsWithAnswer w)) (B.questionsWithoutAnswer w).
Proof.
  unfold B.eachQuestion.
  destruct (B.readQuestion raises q) as [r|e] eqn:E; [|by left].
  apply B_readQuestion_inv in E as ->.
  destruct (B_read q) as [l|] eqn:El; [|by left].
  destruct (B.choices l) as [|c cs] eqn:Ec; simpl; [by left|].
  right. exists l. split; [done|]. split; [by rewrite Ec|].
  unfold blankAnswer, B_record, B_answer. rewrite record_answer, Ec.
  assert (Ht : Forall (fun s => Js.truthy s = true) (B.correctAnswers l)).
  { unfold B_read in El. destruct (questionTextEl q); [|done].
    injection El as <-. simpl. destruct (_ && _); [|done].
    eapply incl_Forall; [apply correctChoices_incl | apply choiceTexts_truthy]. }
  destruct (B.isNewQuestion l), (B.isWrongAnswer l); simpl; try done.
  destruct (B.correctAnswers l) as [|a [|a' ca]]; simpl; try done.
  apply Forall_inv in Ht. by rewrite Ht.
Qed.

(** A property of the records of the questions that have a correct choice
    holds for every record variant A emits. *)
Lemma A_extract_Forall raises doc (P : object → Prop) :
  (∀ q l, A_read q = Some l → A.correctAnswers l ≠ [] → P (A.questionObj l)) →
  Forall P (A.extract raises doc).
Proof.
  intros HP. unfold A.extract. apply fold_left_invariant; [constructor|].
  intros s q Hs. destruct (A_question_cases raises s q) as [->|(l & Hl & Hc & ->)];
    [done|].
  apply Forall_app. split; [done|]. repeat constructor. eauto.
Qed.

(** A property of the records of the questions that have choices holds for
    every record variant B emits. *)
Lemma B_extract_Forall raises doc (P : object → Prop) :
  (∀ q l, B_read q = Some l → B.choices l ≠ [] → P (B_record l)) →
  Forall P (B.extractedQuestions (B.extract raises doc)).
Proof.
  intros HP. unfold B.extract.
  apply (fold_left_invariant (fun w => Forall P (B.extractedQuestions w)));
    [constructor|].
  intros w q Hw. destruct (B_question_cases raises w q) as [->|(l & Hl & Hc & ->)];
    [done|].
  destruct (blankAnswer _); simpl;
    (apply Forall_app; split; [done|]; repeat constructor; eauto).
Qed.

Lemma A_read_correct q l :
  A_read q = Some l →
  incl (A.correctAnswers l) (A.choices l)
  ∧ Forall (fun s => Js.truthy s = true) (A.correctAnswers l).
Proof.
  unfold A_read. destruct (questionTextEl q); [|done]. intros [= <-]. simpl.
  split; [apply correctChoices_incl|].
  eapply incl_Forall; [apply correctChoices_incl | apply choiceTexts_truthy].
Qed.

Lemma B_read_correct q l :
  B_read q = Some l →
  incl (B.correctAnswers l) (B.choices l)
  ∧ Forall (fun s => Js.truthy s = true) (B.correctAnswers l).
Proof.
  unfold B_read. destruct (questionTextEl q); [|done]. intros [= <-]. simpl.
  destruct (_ && _); [|split; [intros ? [] | constructor]].
  destruct (answerLabels q) as [|lab labels] eqn:E;
    [split; [intros ? [] | constructor]|].
  split; [apply correctChoices_incl|].
  eapply incl_Forall; [apply correctChoices_incl | apply choiceTexts_truthy].
Qed.

Lemma answerElements_answerOf l : answerElements (answerOf l) = l.
Proof. by destruct l as [|c [|c' l]]. Qed.

Lemma populated_answerOf l :
  l ≠ [] → Forall (fun s => Js.truthy s = true) l → populated (answerOf l).
Proof.
  destruct l as [|c [|c' l]]; [done| |]; intros _ H; simpl.
  - by apply Forall_inv in H.
  - split; [lia | done].
Qed.

Lemma A_questionObj_choices l :
  getProp "choices" (A.questionObj l) = Some (VArray (A.choices l)).
Proof. unfold A.questionObj. destruct (_ <? _)%nat; apply record_choices. Qed.

Lemma B_record_choices l :
  getProp "choices" (B_record l) = Some (VArray (B.choices l)).
Proof. apply record_choices. Qed.

Lemma B_record_answer l : getProp "answer" (B_record l) = Some (B_answer l).
Proof. apply record_answer. Qed.

(** C3. For every document (and every host), every record that either
    variant emits has a non-empty [choices] array. *)
Theorem emitted_choices_nonempty (raises : node → bool) (doc : node) :
  Forall hasChoices (A.extract raises doc)
  ∧ Forall hasChoices (B.extractedQuestions (B.extract raises doc)).
Proof.
  split.
  - apply A_extract_Forall. intros q l Hl Hc.
    exists (A.choices l). split; [apply A_questionObj_choices|].
    apply A_read_correct in Hl as [Hincl _].
    destruct (A.correctAnswers l) as [|c ca]; [done|].
    intros Hnil. rewrite Hnil in Hincl. destruct (Hincl c). by left.
  - apply B_extract_Forall. intros q l Hl Hc.
    exists (B.choices l). split; [apply B_record_choices | done].
Qed.

(** C4. In every record that either variant emits, the answer is the empty
    string or each of its elements is, as a string, one of the elements of
    the [choices] array of that record. *)
Theorem emitted_answer_among_choices (raises : node → bool) (doc : node) :
  Forall answerAmongChoices (A.extract raises doc)
  ∧ Forall answerAmongChoices (B.extractedQuestions (B.extract raises doc)).
Proof.
  split.
  - apply A_extract_Forall. intros q l Hl Hc.
    exists (A.choices l), (answerOf (A.correctAnswers l)).
    split; [apply A_questionObj_choices|].
    split; [by apply A_questionObj_answer|].
    right. rewrite answerElements_answerOf. by apply A_read_correct in Hl as [? _].
  - apply B_extract_Forall. intros q l Hl Hc.
    exists (B.choices l), (B_answer l).
    split; [apply B_record_choices|]. split; [apply B_record_answer|].
    unfold B_answer. destruct (_ || _); [by left|].
    right. rewrite answerElements_answerOf. by apply B_read_correct in Hl as [? _].
Qed.

(** C10. Every record that either variant emits has an [answer] property:
    in variant A it is a non-empty string or an array of at least two
    non-empty strings; in variant B it is such a value or the empty string.
    The property is never absent and never [undefined]. *)
Theorem emitted_answer_present (raises : node → bool) (doc : node) :
  Forall (fun r => ∃ v, getProp "answer" r = Some v ∧ populated v)
         (A.extract raises doc)
  ∧ Forall (fun r => ∃ v, getProp "answer" r = Some v
                          ∧ (v = VString "" ∨ populated v))
           (B.extractedQuestions (B.extract raises doc)).
Proof.
  split.
  - apply A_extract_Forall. intros q l Hl Hc.
    exists (answerOf (A.correctAnswers l)).
    split; [by apply A_questionObj_answer|].
    apply populated_answerOf; [done|]. by apply A_read_correct in Hl as [_ ?].
  - apply B_extract_Forall. intros q l Hl Hc.
    exists (B_answer l). split; [apply B_record_answer|].
    unfold B_answer.
    destruct (B.isNewQuestion l || B.isWrongAnswer l); simpl; [by left|].
    case_bool_decide as Hca; [by left|]. right.
    apply populated_answerOf; [done|]. by apply B_read_correct in Hl as [_ ?].
Qed.

(** ** Variant B: blank answers *)

Lemma B_read_flags q l :
  B_read q = Some l →
  B.isNewQuestion l = marksNew q
  ∧ B.isWrongAnswer l = marksWrong q
  ∧ B.correctAnswers l
    = if negb (marksNew q) && negb (marksWrong q)
      then correctChoices (answerLabels q) else [].
Proof.
  unfold B_read. destruct (questionTextEl q); [|done]. by intros [= <-].
Qed.

(** The record a step of variant B pushes, when it pushes one. *)
Lemma B_question_pushed raises w q r :
  B.extractedQuestions (B.eachQuestion raises w q) = B.extractedQuestions w ++ [r] →
  ∃ l, B_read q = Some l ∧ B.choices l ≠ [] ∧ r = B_record l.
Proof.
  intros H. destruct (B_question_cases raises w q) as [E|(l & Hl & Hc & E)];
    rewrite E in H.
  - by apply app_singleton_neq in H.
  - exists l. split; [done|]. split; [done|].
    destruct (blankAnswer _); simpl in H; apply app_inv_head in H; congruence.
Qed.

(** C1. In variant B, the record emitted for a question whose answer-source
    badge marks it as new or as wrong has the empty string as its answer,
    whatever correct-answer badges its choices carry; and so has the record
    of a question none of whose choices carries a correct-answer badge. *)
Theorem B_blank_answer
    (raises : node → bool) (w : B.walk) (questionEl : handle) (r : object) :
  B.extractedQuestions (B.eachQuestion raises w questionEl)
  = B.extractedQuestions w ++ [r] →
  (marksNew questionEl || marksWrong questionEl = true →
   getProp "answer" r = Some (VString ""))
  ∧ ((∀ lab, In lab (answerLabels questionEl) →
             Js.truthy (choiceTextOf lab) = true →
             carriesCorrectBadge lab = false) →
     getProp "answer" r = Some (VString "")).
Proof.
  intros H. apply B_question_pushed in H as (l & Hl & _ & ->).
  rewrite B_record_answer. unfold B_answer.
  apply B_read_flags in Hl as (-> & -> & ->). split.
  - intros ->. done.
  - intros Hnone.
    assert (Hc : correctChoices (answerLabels questionEl) = []).
    { destruct (correctChoices (answerLabels questionEl)) as [|c ca] eqn:E; [done|].
      assert (Hne : correctChoices (answerLabels questionEl) ≠ []) by by rewrite E.
      apply correctChoices_nonempty in Hne as (lab & Hin & Ht & Hb).
      rewrite (Hnone lab Hin Ht) in Hb. done. }
    rewrite Hc. destruct (marksNew _ || marksWrong _); [done|].
    destruct (_ && _); done.
Qed.

Lemma B_blank_answer_witness :
  B.extractedQuestions (B.eachQuestion sound (B.Walk [] 0 0) Sample.freshEl)
  = [] ++ [Sample.freshRecord]
  ∧ marksNew Sample.freshEl || marksWrong Sample.freshEl = true
  ∧ carriesCorrectBadge
      (Handle [Element "div" ["answer"] []
                 [Element "label" ["answer_label"] []
                    [Text "Madrid";
                     Element "span" ["correct-answer-badge"] [] [Text "Correct"]]];
               Sample.fresh]
              (Element "label" ["answer_label"] []
                 [Text "Madrid";
                  Element "span" ["correct-answer-badge"] [] [Text "Correct"]]))
    = true
  ∧ getProp "answer" Sample.freshRecord = Some (VString "").
Proof.
  split; [reflexivity|]. split; [reflexivity|]. split; [reflexivity|].
  apply (proj1 (B_blank_answer sound (B.Walk [] 0 0) Sample.freshEl
                               Sample.freshRecord eq_refl)).
  reflexivity.
Defined.

(** ** Variant B: the matching-question fallback *)

Lemma dedup_In t l : In t (dedup l) ↔ In t l.
Proof.
  induction l as [|x l IH]; simpl; [done|].
  rewrite filter_In, IH. destruct (String.eqb_spec t x) as [->|Hne]; simpl.
  - split; auto.
  - split; [intros [?|[? _]]; auto | intros [?|?]; [by left | by right]].
Qed.

Lemma dedup_NoDup l : NoDup (dedup l).
Proof.
  induction l as [|x l IH]; simpl; constructor.
  - rewrite list_elem_of_In, filter_In, String.eqb_refl. by intros [_ ?].
  - apply NoDup_ListNoDup, List.NoDup_filter, NoDup_ListNoDup, IH.
Qed.

(** The de-duplication keeps the order of the first occurrences: before the
    first occurrence of [t], nothing changes; at it, [t] is kept; after it,
    [t] never comes again. *)
Lemma dedup_first_occurrence l1 t l2 :
  ¬ In t l1 →
  dedup (l1 ++ t :: l2)
  = dedup l1 ++ t :: List.filter (fun y => negb (existsb (String.eqb y) (t :: l1)))
                                 (dedup l2).
Proof.
  revert l2. induction l1 as [|x l1 IH]; simpl; intros l2 Hnot.
  - f_equal. apply List.filter_ext. intros y. by rewrite orb_false_r.
  - rewrite IH by tauto. rewrite List.filter_app. simpl.
    destruct (String.eqb_spec t x) as [->|Hne]; [tauto|]. simpl. do 3 f_equal.
    rewrite filter_filter_and. apply List.filter_ext. intros y.
    destruct (String.eqb y t), (String.eqb y x), (existsb (String.eqb y) l1); done.
Qed.

(** C7. In variant B, the fallback is taken exactly when the question has no
    answer-label element.  The [choices] of the record are then the non-empty
    texts of the [.pull-left label] elements in document order, followed by
    the texts of the [select option] elements in document order, without the
    empty ones, without ["[ Choose ]"], and without any text that is already
    among the choices: each remaining option text stands once, at its first
    occurrence. *)
Theorem B_matching_fallback
    (raises : node → bool) (w : B.walk) (questionEl : handle) (r : object) :
  B.extractedQuestions (B.eachQuestion raises w questionEl)
  = B.extractedQuestions w ++ [r] →
  (answerLabels questionEl = [] →
   getProp "choices" r = Some (VArray (fallbackChoices questionEl)))
  ∧ (answerLabels questionEl ≠ [] →
     getProp "choices" r = Some (VArray (choiceTexts (answerLabels questionEl))))
  ∧ NoDup (freshOptions (matchingTexts questionEl) (optionTexts questionEl))
  ∧ (∀ t, In t (freshOptions (matchingTexts questionEl) (optionTexts questionEl))
          ↔ In t (optionTexts questionEl) ∧ ¬ In t (matchingTexts questionEl))
  ∧ (∀ before t after,
        optionTexts questionEl = before ++ t :: after →
        ¬ In t before → ¬ In t (matchingTexts questionEl) →
        freshOptions (matchingTexts questionEl) (optionTexts questionEl)
        = freshOptions (matchingTexts questionEl) before
            ++ t :: freshOptions (matchingTexts questionEl ++ t :: before) after).
Proof.
  intros H. apply B_question_pushed in H as (l & Hl & _ & ->).
  rewrite B_record_choices.
  unfold B_read in Hl. destruct (questionTextEl questionEl); [|done].
  injection Hl as <-. simpl.
  split; [by intros ->|]. split; [by destruct (answerLabels questionEl)|].
  unfold freshOptions. split; [apply dedup_NoDup|]. split.
  - intros t. rewrite dedup_In, filter_In, negb_true_iff.
    by rewrite <- (existsb_eqb_In t (matchingTexts questionEl)), not_true_iff_false.
  - intros before t after -> Hb Hm. rewrite List.filter_app. simpl.
    assert (Hex : existsb (String.eqb t) (matchingTexts questionEl) = false)
      by by rewrite <- not_true_iff_false, existsb_eqb_In.
    rewrite Hex. simpl. rewrite dedup_first_occurrence.
    2:{ rewrite filter_In. tauto. }
    do 2 f_equal. rewrite dedup_filter. f_equal.
    rewrite filter_filter_and. apply List.filter_ext. intros y.
    rewrite existsb_app. simpl.
    destruct (existsb (String.eqb y) (matchingTexts questionEl)) eqn:Ey;
      simpl; [done|].
    destruct (String.eqb y t); simpl; [done|]. f_equal.
    apply eq_true_iff_eq. rewrite !existsb_eqb_In, filter_In, Ey. simpl. tauto.
Qed.

Lemma B_matching_fallback_witness :
  B.extractedQuestions (B.eachQuestion sound (B.Walk [] 0 0) Sample.matchingEl)
  = [] ++ [Sample.matchingRecord]
  ∧ answerLabels Sample.matchingEl = []
  ∧ fallbackChoices Sample.matchingEl = ["HTTP"; "SSH"; "80"; "22"]
  ∧ getProp "choices" Sample.matchingRecord
    = Some (VArray (fallbackChoices Sample.matchingEl)).
Proof.
  split; [reflexivity|]. split; [reflexivity|]. split; [reflexivity|].
  apply (proj1 (B_matching_fallback sound (B.Walk [] 0 0) Sample.matchingEl
                                    Sample.matchingRecord eq_refl)).
  reflexivity.
Defined.

(** ** Stat cards *)

Lemma statCard_counter st card c :
  counter c (statCard st card)
  = if bool_decide (cardCategory card = Some c) then cardValue card
    else counter c st.
Proof.
  unfold statCard, cardCategory, cardValue, classify, Js.parseIntOr0.
  destruct (querySelector (Sel (ByClass "stat-label")) card) as [label|];
    [|by case_bool_decide].
  destruct (querySelector (Sel (ByClass "stat-value")) card) as [value|];
    [|by case_bool_decide].
  simpl.
  destruct (Js.includes _ "total"); [by destruct c, (Js.parseInt _)|].
  destruct (Js.includes _ "correct"); [by destruct c, (Js.parseInt _)|].
  destruct (Js.includes _ "wrong"); [by destruct c, (Js.parseInt _)|].
  destruct (Js.includes _ "new"); [by destruct c, (Js.parseInt _)|].
  by case_bool_decide.
Qed.

Lemma fold_statCard_counter cards st c :
  counter c (fold_left statCard cards st)
  = match last (List.filter (fun card => bool_decide (cardCategory card = Some c)) cards) with
    | Some card => cardValue card
    | None => counter c st
    end.
Proof.
  revert st. induction cards as [|card cards IH]; simpl; intros st; [done|].
  rewrite IH, statCard_counter.
  case_bool_decide; [|done].
  rewrite last_cons. by destruct (last _).
Qed.

(** C6. Each stat card that has a label and a value is classified by the
    keyword (total, correct, wrong, new) that occurs in its lower-cased
    label; its value text is read as an integer, 0 when that fails; and each
    counter ends as the number on the last card scanned of its category,
    without accumulation (0 when no card has the category). *)
Theorem stats_last_card_wins (doc : node) (c : category) :
  counter c (readStats doc) = lastCardValue c (statCards doc).
Proof.
  unfold readStats, lastCardValue. rewrite fold_statCard_counter.
  by destruct c.
Qed.

(** ** The counters of the summary *)

Lemma answeredCount_snoc records r :
  answeredCount (records ++ [r])
  = (answeredCount records + if blankAnswer r then 0 else 1)%nat.
Proof.
  unfold answeredCount. rewrite List.filter_app, length_app. simpl.
  by destruct (blankAnswer r).
Qed.

Lemma blankCount_snoc records r :
  blankCount (records ++ [r])
  = (blankCount records + if blankAnswer r then 1 else 0)%nat.
Proof.
  unfold blankCount. rewrite List.filter_app, length_app. simpl.
  by destruct (blankAnswer r).
Qed.

Lemma count_partition records :
  (answeredCount records + blankCount records)%nat = length records.
Proof.
  unfold answeredCount, blankCount.
  induction records as [|r records IH]; simpl; [done|].
  destruct (blankAnswer r); simpl; lia.
Qed.

(** The two counters of variant B count the records by their answer. *)
Lemma B_counters raises doc :
  B.questionsWithAnswer (B.extract raises doc)
  = answeredCount (B.extractedQuestions (B.extract raises doc))
  ∧ B.questionsWithoutAnswer (B.extract raises doc)
    = blankCount (B.extractedQuestions (B.extract raises doc)).
Proof.
  unfold B.extract.
  apply (fold_left_invariant
           (fun w => B.questionsWithAnswer w = answeredCount (B.extractedQuestions w)
                     ∧ B.questionsWithoutAnswer w = blankCount (B.extractedQuestions w)));
    [done|].
  intros w q [Ha Hb].
  destruct (B_question_cases raises w q) as [->|(l & _ & _ & ->)]; [done|].
  destruct (blankAnswer (B_record l)) eqn:E; simpl;
    rewrite answeredCount_snoc, blankCount_snoc, E, Ha, Hb; lia.
Qed.

(** Every record of variant A has an answer that is not blank. *)
Lemma A_no_blank raises doc : blankCount (A.extract raises doc) = 0%nat.
Proof.
  unfold blankCount.
  assert (H : Forall (fun r => blankAnswer r = false) (A.extract raises doc)).
  { apply A_extract_Forall. intros q l Hl Hc. unfold blankAnswer.
    rewrite (A_questionObj_answer l Hc).
    apply A_read_correct in Hl as [_ Ht].
    destruct (A.correctAnswers l) as [|c [|c' ca]]; [done| |done].
    simpl. apply Forall_inv in Ht. by rewrite Ht. }
  induction H as [|r records Hr _ IH]; simpl; [done|]. by rewrite Hr.
Qed.

(** C5, as the code has it.  Variant B keeps the two counters: after the
    walk, [questionsWithAnswer] is the number of emitted records with a
    non-empty answer and [questionsWithoutAnswer] the number of those with a
    blank answer, and its summary prints both.  Variant A keeps no such
    counters: its summary has the single line of the number of records, all
    of which have a non-empty answer. *)
Theorem B_counts_answers_A_counts_records (raises : node → bool) (doc : node) :
  reportsAnswerCounts (B.summary (readStats doc) (B.extract raises doc))
                      (B.extractedQuestions (B.extract raises doc)) = true
  ∧ B.questionsWithAnswer (B.extract raises doc)
    = answeredCount (B.extractedQuestions (B.extract raises doc))
  ∧ B.questionsWithoutAnswer (B.extract raises doc)
    = blankCount (B.extractedQuestions (B.extract raises doc))
  ∧ (B.questionsWithAnswer (B.extract raises doc)
     + B.questionsWithoutAnswer (B.extract raises doc))%nat
    = length (B.extractedQuestions (B.extract raises doc))
  ∧ extracted (A.summary (readStats doc) (A.extract raises doc))
    = [("Questions in JSON", Z.of_nat (length (A.extract raises doc)))]
  ∧ answeredCount (A.extract raises doc) = length (A.extract raises doc)
  ∧ blankCount (A.extract raises doc) = 0%nat.
Proof.
  destruct (B_counters raises doc) as [Ha Hb].
  split; [|split; [done|split; [done|split; [|split; [done|split]]]]].
  - unfold reportsAnswerCounts, reportLine, B.summary. simpl.
    rewrite Ha, Hb. by rewrite !bool_decide_eq_true_2.
  - rewrite Ha, Hb. apply count_partition.
  - pose proof (count_partition (A.extract raises doc)) as H.
    rewrite A_no_blank in H. lia.
  - apply A_no_blank.
Qed.

(** C5, as stated, fails for variant A: on the sample page its summary
    reports neither of the two counts. *)
Lemma A_summary_has_no_answer_counters :
  reportsAnswerCounts (A.summary (readStats Sample.page) (A.extract sound Sample.page))
                      (A.extract sound Sample.page) = false
  ∧ reportLine "With Answer"
      (A.summary (readStats Sample.page) (A.extract sound Sample.page)) = None
  ∧ reportLine "Blank Answer"
      (A.summary (readStats Sample.page) (A.extract sound Sample.page)) = None
  ∧ extracted (A.summary (readStats Sample.page) (A.extract sound Sample.page))
    = [("Questions in JSON", 4)].
Proof. vm_compute. repeat split. Qed.

(** ** The file system *)

Lemma lookup_mkdirs (dirs : list string) (d : disk) (q : string) :
  foldr (fun a d => <[a := Dir]> d) d dirs !! q
  = if bool_decide (q ∈ dirs) then Some Dir else d !! q.
Proof.
  induction dirs as [|a dirs IH]; simpl; [done|].
  destruct (decide (a = q)) as [->|Hne].
  - rewrite lookup_insert_eq. by rewrite bool_decide_eq_true_2 by set_solver.
  - rewrite lookup_insert_ne by done. rewrite IH.
    apply (f_equal (fun b : bool => if b then Some Dir else d !! q)).
    apply bool_decide_ext. rewrite elem_of_cons.
    split; [by right | intros [?|?]; [congruence | done]].
Qed.

(** A successful [mkdirSync] creates its directory and keeps what exists. *)
Lemma mkdirSync_ok p d d' :
  mkdirSync p d = (Ok tt, d') →
  d' !! p = Some Dir ∧ (∀ q x, d !! q = Some x → d' !! q = Some x).
Proof.
  unfold mkdirSync. destruct (existsb _ _) eqn:E; [done|]. intros [= <-].
  split.
  - rewrite lookup_mkdirs, bool_decide_eq_true_2; [done|]. set_solver.
  - intros q x Hq. rewrite lookup_mkdirs. case_bool_decide as Hin; [|done].
    assert (Hf : isFile d q = false).
    { destruct (isFile d q) eqn:Ef; [|done].
      assert (existsb (isFile d) (parents "" p ++ [p]) = true)
        by (apply existsb_exists; exists q; by rewrite <- list_elem_of_In).
      congruence. }
    unfold isFile in Hf. rewrite Hq in Hf. by destruct x.
Qed.

Lemma mkdirSync_fail p d d' e : mkdirSync p d = (Thrown e, d') → d' = d.
Proof. unfold mkdirSync. destruct (existsb _ _); congruence. Qed.

Lemma writeFileSync_fail p f d d' e :
  writeFileSync p f d = (Thrown e, d') → d' = d.
Proof.
  unfold writeFileSync. destruct (d !! p) as [[|?]|]; try congruence.
  destruct (last _); [|congruence]. destruct (d !! s) as [[|?]|]; congruence.
Qed.

Lemma writeFileSync_ok p f d d' :
  writeFileSync p f d = (Ok tt, d') → d' = <[p := File f]> d.
Proof.
  unfold writeFileSync. destruct (d !! p) as [[|?]|]; try congruence.
  destruct (last _); [|congruence]. destruct (d !! s) as [[|?]|]; congruence.
Qed.

Lemma is_Some_insert (d : disk) p x q :
  is_Some (d !! q) → is_Some (<[p := x]> d !! q).
Proof.
  intros H. destruct (decide (p = q)) as [->|Hne].
  - rewrite lookup_insert_eq. by eexists.
  - by rewrite lookup_insert_ne.
Qed.
Lemma dir_step p (d : disk) :
  (∃ d1, (if negb (bool_decide (is_Some (d !! p))) then mkdirSync p
          else (λ d0 : disk, (Ok (), d0))) d = (Ok tt, d1)
         ∧ is_Some (d1 !! p)
         ∧ (∀ q x, d !! q = Some x → d1 !! q = Some x))
  ∨ (∃ e, (if negb (bool_decide (is_Some (d !! p))) then mkdirSync p
           else (λ d0 : disk, (Ok (), d0))) d = (Thrown e, d)
          ∧ d !! p = None).
Proof.
  case_bool_decide as E; simpl.
  - left. exists d. done.
  - destruct (mkdirSync p d) as [[[]|e] d1] eqn:Em.
    + left. exists d1. apply mkdirSync_ok in Em as [H1 H2].
      split; [done|]. split; [by eexists | done].
    + right. exists e. apply mkdirSync_fail in Em as ->. split; [done|].
      by apply eq_None_not_Some.
Qed.

Lemma dir_skip p (d : disk) :
  is_Some (d !! p) →
  (if negb (bool_decide (is_Some (d !! p))) then mkdirSync p
   else (λ d0 : disk, (Ok (), d0))) d = (Ok tt, d).
Proof. intros H. by rewrite bool_decide_eq_true_2. Qed.


Lemma registry_step c courses :
  existsb (λ c0 : Course.t, bool_decide (Course.id c0 = Some c))
          (courses ++ [Course.Make (Some c) (displayName "-" "_" c) (Some [])])
  = true.
Proof.
  rewrite existsb_app. simpl. rewrite bool_decide_eq_true_2 by done.
  by rewrite orb_true_r.
Qed.

Lemma ensure_again c d r d' :
  ensureCourseStructure c d = (r, d') → ensureCourseStructure c d' = (r, d').
Proof.
  unfold ensureCourseStructure.
  set (html := pathJoin (pathJoin "assets" c) "html").
  set (json := pathJoin (pathJoin "assets" c) "json").
  set (cf := pathJoin "assets" "courses.json").
  set (paths := (pathJoin "assets" c, html, json)).
  unfold mbind, io_bind, existsSync, mret, io_ret. cbn beta.
  destruct (dir_step html d) as [(d1 & E1 & S1 & M1)|(e & E1 & N1)]; rewrite E1.
  2:{ intros [= <- <-]. by rewrite E1. }
  destruct (dir_step json d1) as [(d2 & E2 & S2 & M2)|(e & E2 & N2)]; rewrite E2.
  2:{ intros [= <- <-]. rewrite (dir_skip html d1 S1). by rewrite E2. }
  assert (S1' : is_Some (d2 !! html)) by (destruct S1 as [x Hx]; eauto).
  assert (Hwrite : ∀ courses,
    (if bool_decide (is_Some (d2 !! cf)) then readCourses cf
     else λ d0 : disk, (Ok [], d0)) d2 = (Ok courses, d2) →
    existsb (λ c0 : Course.t, bool_decide (Course.id c0 = Some c)) courses = false →
    ∀ d3,
    writeFileSync cf
      (Registry (courses ++ [Course.Make (Some c) (displayName "-" "_" c) (Some [])]))
      d2 = (Ok tt, d3) →
    ensureCourseStructure c d3 = (Ok paths, d3)).
  { intros courses _ _ d3 Hw. apply writeFileSync_ok in Hw as ->.
    unfold ensureCourseStructure. fold html json cf paths.
    unfold mbind, io_bind, existsSync, mret, io_ret. cbn beta.
    rewrite (dir_skip html) by by apply is_Some_insert.
    rewrite (dir_skip json) by by apply is_Some_insert.
    rewrite lookup_insert_eq, bool_decide_eq_true_2 by by eexists.
    unfold readCourses. rewrite lookup_insert_eq.
    by rewrite registry_step. }
  unfold ensureCourseStructure in Hwrite. fold html json cf paths in Hwrite.
  unfold mbind, io_bind, existsSync, mret, io_ret in Hwrite. cbn beta in Hwrite.
  destruct ((if bool_decide (is_Some (d2 !! cf)) then readCourses cf
             else λ d0 : disk, (Ok [], d0)) d2) as [[courses|e] d3] eqn:Er.
  2:{ assert (d3 = d2) as ->.
      { case_bool_decide; [|done]. unfold readCourses in Er.
        destruct (d2 !! cf) as [[|[]]|]; congruence. }
      intros [= <- <-].
      rewrite (dir_skip html d2 S1'), (dir_skip json d2 S2). by rewrite Er. }
  assert (d3 = d2) as ->.
  { case_bool_decide; [|congruence]. unfold readCourses in Er.
    destruct (d2 !! cf) as [[|[]]|]; congruence. }
  destruct (existsb _ courses) eqn:Ex; simpl.
  - intros [= <- <-].
    rewrite (dir_skip html d2 S1'), (dir_skip json d2 S2). rewrite Er, Ex. done.
  - destruct (writeFileSync cf _ d2) as [[[]|e] d3] eqn:Ew.
    + intros [= <- <-]. by apply (Hwrite courses).
    + apply writeFileSync_fail in Ew as Hd. subst d3. intros [= <- <-].
      rewrite (dir_skip html d2 S1'), (dir_skip json d2 S2). rewrite Er, Ex. simpl.
      by rewrite Ew.
Qed.

Lemma addModule_again checkpointName course course' :
  addModule checkpointName course = Some course' →
  addModule checkpointName course' = None
  ∧ Course.id course' = Course.id course.
Proof.
  unfold addModule. destruct (existsb _ _) eqn:E; simpl; [done|].
  intros [= <-]. simpl. split; [|done].
  rewrite existsb_app. simpl. unfold hasCheckpoint at 2. simpl.
  by rewrite String.eqb_refl, !orb_true_r.
Qed.

Lemma updateCourses_again courseFolder checkpointName courses courses' :
  updateCourses courseFolder checkpointName courses = Some courses' →
  updateCourses courseFolder checkpointName courses' = None.
Proof.
  revert courses'. induction courses as [|course rest IH]; simpl; [done|].
  intros courses'. case_bool_decide as Eid.
  - destruct (addModule checkpointName course) as [course'|] eqn:Ea; [|done].
    intros [= <-]. apply addModule_again in Ea as [Ea Eid']. simpl.
    rewrite bool_decide_eq_true_2 by congruence. by rewrite Ea.
  - destruct (updateCourses courseFolder checkpointName rest) as [rest'|] eqn:Eu;
      [|done].
    intros [= <-]. simpl. rewrite bool_decide_eq_false_2 by done.
    by rewrite (IH rest').
Qed.

Lemma update_again courseFolder checkpointName d r d' :
  updateCourseModule courseFolder checkpointName d = (r, d') →
  updateCourseModule courseFolder checkpointName d' = (r, d').
Proof.
  unfold updateCourseModule, mbind, io_bind, existsSync, mret, io_ret. cbn beta.
  case_bool_decide as Ef; simpl.
  2:{ intros [= <- <-]. by rewrite bool_decide_eq_false_2. }
  unfold readCourses.
  destruct (d !! "assets/courses.json") as [[|[courses|?|?]]|] eqn:Ed;
    try (intros [= <- <-]; rewrite bool_decide_eq_true_2 by done; simpl;
         by rewrite Ed).
  - destruct (updateCourses courseFolder checkpointName courses) as [courses'|] eqn:Eu.
    + destruct (writeFileSync _ _ d) as [[[]|e] d1] eqn:Ew.
      * intros [= <- <-]. apply writeFileSync_ok in Ew as ->.
        rewrite lookup_insert_eq, bool_decide_eq_true_2 by by eexists. simpl.
        rewrite lookup_insert_eq.
        by rewrite (updateCourses_again _ _ _ _ Eu).
      * apply writeFileSync_fail in Ew as Hd. subst d1. intros [= <- <-].
        rewrite Ed, bool_decide_eq_true_2 by done. simpl. rewrite Ed, Eu.
        by rewrite Ew.
    + intros [= <- <-]. rewrite Ed, bool_decide_eq_true_2 by done. simpl.
      by rewrite Ed, Eu.
Qed.

(** C9. Running [ensureCourseStructure] a second time for the same course
    folder, or [updateCourseModule] a second time for the same course folder
    and checkpoint name, ends as the first run did and leaves the file
    system (the directories and the registry file) exactly as the first run
    left it; in particular, no course or module entry is appended again. *)
Theorem registry_updates_idempotent (courseFolder checkpointName : string) (d : disk) :
  ensureCourseStructure courseFolder (ensureCourseStructure courseFolder d).2
  = ensureCourseStructure courseFolder d
  ∧ updateCourseModule courseFolder checkpointName
      (updateCourseModule courseFolder checkpointName d).2
    = updateCourseModule courseFolder checkpointName d.
Proof.
  split.
  - destruct (ensureCourseStructure courseFolder d) as [r d'] eqn:E.
    by apply ensure_again in E.
  - destruct (updateCourseModule courseFolder checkpointName d) as [r d'] eqn:E.
    by apply update_again in E.
Qed.

(** ** Exceptions inside the walk *)

Lemma fold_left_skip {S X : Type} (f : S → X → S) (p : X → bool) l s :
  (∀ s x, p x = false → f s x = s) →
  fold_left f l s = fold_left f (List.filter p l) s.
Proof.
  intros Hskip. revert s. induction l as [|x l IH]; simpl; intros s; [done|].
  destruct (p x) eqn:E; simpl; [done|]. by rewrite (Hskip s x E).
Qed.

Lemma fold_left_agree {S X : Type} (f g : S → X → S) l s :
  (∀ s x, In x l → f s x = g s x) → fold_left f l s = fold_left g l s.
Proof.
  revert s. induction l as [|x l IH]; simpl; intros s H; [done|].
  rewrite H by auto. apply IH. auto.
Qed.

Lemma A_question_thrown raises s q :
  completes (A.readQuestion raises q) = false → A.eachQuestion raises s q = s.
Proof. unfold A.eachQuestion. by destruct (A.readQuestion raises q). Qed.

Lemma B_question_thrown raises w q :
  completes (B.readQuestion raises q) = false → B.eachQuestion raises w q = w.
Proof. unfold B.eachQuestion. by destruct (B.readQuestion raises q). Qed.

(** A question whose reads raise no exception is processed as on the host
    without failures. *)
Lemma A_question_completes raises s q :
  completes (A.readQuestion raises q) = true →
  A.eachQuestion raises s q = A.eachQuestion sound s q.
Proof.
  intros H. unfold A.eachQuestion. rewrite A_readQuestion_sound.
  destruct (A.readQuestion raises q) as [r|] eqn:E; [|done].
  by apply A_readQuestion_inv in E as ->.
Qed.

Lemma B_question_completes raises w q :
  completes (B.readQuestion raises q) = true →
  B.eachQuestion raises w q = B.eachQuestion sound w q.
Proof.
  intros H. unfold B.eachQuestion. rewrite B_readQuestion_sound.
  destruct (B.readQuestion raises q) as [r|] eqn:E; [|done].
  by apply B_readQuestion_inv in E as ->.
Qed.

Lemma slashes_app a b : slashes (a +:+ b) = (slashes a + slashes b)%nat.
Proof. induction a as [|x a IH]; simpl; [done|]. rewrite IH. lia. Qed.

(** ** [path.join] on plain names *)

Lemma append_empty (s : string) : s +:+ "" = s.
Proof.
  induction s as [|a s IH]; [done|]. change (String a (s +:+ "") = String a s).
  by rewrite IH.
Qed.

Lemma append_assoc (a b c : string) : (a +:+ b) +:+ c = a +:+ (b +:+ c).
Proof.
  induction a as [|x a IH]; [done|].
  change (String x ((a +:+ b) +:+ c) = String x (a +:+ b +:+ c)). by rewrite IH.
Qed.

Lemma splitPath_cons (p : string) : ∃ s rest, splitPath p = s :: rest.
Proof.
  induction p as [|a r (s & rest & IH)]; simpl; [by eexists _, _|].
  destruct (Ascii.eqb a "/"); [by eexists _, _|]. rewrite IH. by eexists _, _.
Qed.

Lemma splitPath_noSlash (s : string) : noSlash s = true → splitPath s = [s].
Proof.
  induction s as [|a s IH]; simpl; [done|].
  destruct (Ascii.eqb a "/"); simpl; [done|]. intros H. by rewrite (IH H).
Qed.

Lemma splitPath_app (x y : string) :
  splitPath (x +:+ "/" +:+ y) = splitPath x ++ splitPath y.
Proof.
  induction x as [|a x IH]; [done|].
  change (splitPath (String a (x +:+ "/" +:+ y)) = splitPath (String a x) ++ splitPath y).
  simpl. destruct (Ascii.eqb a "/"); rewrite IH; [done|].
  by destruct (splitPath_cons x) as (s & rest & ->).
Qed.

Lemma joinSegments_snoc (segments : list string) (b : string) :
  segments ≠ [] →
  joinSegments (segments ++ [b]) = joinSegments segments +:+ "/" +:+ b.
Proof.
  destruct segments as [|s rest]; [done|]. intros _. simpl.
  by rewrite fold_left_app.
Qed.

Lemma splitPath_joinSegments (segments : list string) :
  segments ≠ [] → Forall (fun s => noSlash s = true) segments →
  splitPath (joinSegments segments) = segments.
Proof.
  induction segments as [|b segments IH] using rev_ind; [done|].
  intros _ [Hs Hb]%Forall_app. apply Forall_inv in Hb.
  destruct segments as [|s rest]; [by apply splitPath_noSlash|].
  rewrite joinSegments_snoc by done. rewrite splitPath_app, IH by done.
  by rewrite splitPath_noSlash.
Qed.

Lemma plainName_inv (s : string) :
  plainName s = true →
  Js.truthy s = true ∧ noSlash s = true ∧ s ≠ "" ∧ s ≠ "." ∧ s ≠ "..".
Proof.
  unfold plainName. intros H.
  apply andb_true_iff in H as [H H2]. apply andb_true_iff in H as [H H1].
  apply andb_true_iff in H as [Ht Hn].
  apply negb_true_iff, String.eqb_neq in H1.
  apply negb_true_iff, String.eqb_neq in H2.
  repeat split; try done. intros ->. done.
Qed.

Lemma normalizeSegment_plain (b : bool) (kept : list string) (s : string) :
  plainName s = true → normalizeSegment b kept s = s :: kept.
Proof.
  intros (_ & _ & H0 & H1 & H2)%plainName_inv. unfold normalizeSegment.
  apply String.eqb_neq in H0, H1, H2. by rewrite H0, H1, H2.
Qed.

Lemma normalizeSegments_plain (b : bool) (segments kept : list string) :
  Forall (fun s => plainName s = true) segments →
  fold_left (normalizeSegment b) segments kept = rev segments ++ kept.
Proof.
  intros H. revert kept. induction H as [|s segments Hs _ IH]; intros kept; [done|].
  simpl. rewrite normalizeSegment_plain by done. rewrite IH.
  by rewrite <- app_assoc.
Qed.

Lemma endsWithSlash_app (x y : string) :
  Js.truthy y = true → endsWithSlash (x +:+ y) = endsWithSlash y.
Proof.
  intros Hy. induction x as [|a x IH]; [done|].
  change (endsWithSlash (String a (x +:+ y)) = endsWithSlash y). simpl.
  rewrite IH. destruct (x +:+ y) eqn:E; [|done].
  destruct x; [|done]. change (y = "") in E. by rewrite E in Hy.
Qed.

Lemma endsWithSlash_noSlash (s : string) : noSlash s = true → endsWithSlash s = false.
Proof.
  induction s as [|a s IH]; simpl; [done|].
  intros [Ha Hs]%andb_true_iff. apply negb_true_iff in Ha.
  destruct s; [done | by apply IH].
Qed.

Lemma joinSegments_head (s : string) (rest : list string) :
  ∃ tail, joinSegments (s :: rest) = s +:+ tail.
Proof.
  simpl. revert s. induction rest as [|x rest IH]; intros s; simpl.
  - exists "". by rewrite append_empty.
  - destruct (IH (s +:+ "/" +:+ x)) as (tail & ->).
    exists ("/" +:+ x +:+ tail). by rewrite !append_assoc.
Qed.

(** A path made of plain names is normalized already. *)
Lemma normalize_plain (segments : list string) :
  segments ≠ [] → Forall (fun s => plainName s = true) segments →
  normalize (joinSegments segments) = joinSegments segments.
Proof.
  intros Hne Hplain.
  assert (Hno : Forall (fun s => noSlash s = true) segments).
  { eapply Forall_impl; [done|]. by intros s (_ & ? & _)%plainName_inv. }
  assert (Hend : endsWithSlash (joinSegments segments) = false).
  { destruct segments as [|b segments _] using rev_ind; [done|].
    apply Forall_app in Hplain as [_ Hb]. apply Forall_inv in Hb.
    apply plainName_inv in Hb as (Ht & Hb & _).
    destruct segments as [|s rest]; [by apply endsWithSlash_noSlash|].
    rewrite joinSegments_snoc by done.
    rewrite <- append_assoc, endsWithSlash_app by done.
    by apply endsWithSlash_noSlash. }
  destruct segments as [|s rest]; [done|].
  destruct (joinSegments_head s rest) as (tail & Hhead).
  apply Forall_cons in Hplain as Hs. destruct Hs as [Hs _].
  apply plainName_inv in Hs as (Ht & Hs & _).
  destruct s as [|a s]; [done|]. simpl in Hs. apply andb_true_iff in Hs as [Ha _].
  apply negb_true_iff in Ha.
  pose proof (splitPath_joinSegments (String a s :: rest) Hne Hno) as Hsplit.
  set (segments := String a s :: rest) in *.
  destruct (joinSegments segments) as [|a' p] eqn:E; [done|].
  injection Hhead as -> _.
  unfold normalize. rewrite Hend, Hsplit, Ha. cbn [negb].
  rewrite normalizeSegments_plain by done.
  rewrite app_nil_r, rev_involutive, E. simpl. by rewrite append_empty.
Qed.

Lemma pathJoin_plain (segments : list string) (b : string) :
  segments ≠ [] → Forall (fun s => plainName s = true) segments →
  plainName b = true →
  pathJoin (joinSegments segments) b = joinSegments segments +:+ "/" +:+ b.
Proof.
  intros Hne Hplain Hb.
  assert (Hall : Forall (fun s => plainName s = true) (segments ++ [b])).
  { apply Forall_app. split; [done|]. by apply Forall_singleton. }
  pose proof (normalize_plain (segments ++ [b])) as Hn.
  rewrite joinSegments_snoc in Hn by done.
  unfold pathJoin.
  destruct (joinSegments segments) as [|a p] eqn:E.
  { destruct segments as [|s rest]; [done|].
    destruct (joinSegments_head s rest) as (tail & Hhead). rewrite E in Hhead.
    apply Forall_cons in Hplain as [(Ht & _)%plainName_inv _]. by destruct s. }
  apply plainName_inv in Hb as Hb'. destruct Hb' as (Ht & _).
  destruct b as [|x b]; [done|]. apply Hn; [|done]. by destruct segments.
Qed.

Lemma noSlash_app (a b : string) :
  noSlash (a +:+ b) = noSlash a && noSlash b.
Proof.
  induction a as [|x a IH]; [done|].
  change (noSlash (String x (a +:+ b)) = noSlash (String x a) && noSlash b).
  simpl. rewrite IH. by rewrite andb_assoc.
Qed.

Lemma length_append (a b : string) :
  String.length (a +:+ b) = (String.length a + String.length b)%nat.
Proof. induction a as [|x a IH]; simpl; [done | by rewrite IH]. Qed.

(** A checkpoint name without a slash gives a plain file name. *)
Lemma plainName_file (checkpointName extension : string) :
  noSlash checkpointName = true → plainName extension = true →
  (2 < String.length extension)%nat →
  plainName (checkpointName +:+ extension) = true.
Proof.
  intros Hn (Ht & He & _)%plainName_inv Hlen. unfold plainName.
  rewrite noSlash_app, Hn, He. simpl.
  assert (Hl : (2 < String.length (checkpointName +:+ extension))%nat).
  { rewrite length_append. lia. }
  destruct (checkpointName +:+ extension) as [|a [|b [|c r]]]; simpl in Hl; try lia.
  simpl. by destruct (Ascii.eqb a "."), (Ascii.eqb b ".").
Qed.

(** The paths of variant B for a plain course folder and a checkpoint name
    without a slash: [path.join] only puts the names one below the other. *)
Lemma B_paths (courseFolder checkpointName : string) :
  plainName courseFolder = true → noSlash checkpointName = true →
  pathJoin "assets" courseFolder = "assets" +:+ "/" +:+ courseFolder
  ∧ pathJoin (pathJoin "assets" courseFolder) "html"
    = ("assets" +:+ "/" +:+ courseFolder) +:+ "/" +:+ "html"
  ∧ pathJoin (pathJoin "assets" courseFolder) "json"
    = ("assets" +:+ "/" +:+ courseFolder) +:+ "/" +:+ "json"
  ∧ B.htmlPath (pathJoin (pathJoin "assets" courseFolder) "html") checkpointName
    = (("assets" +:+ "/" +:+ courseFolder) +:+ "/" +:+ "html")
        +:+ "/" +:+ (checkpointName +:+ ".html")
  ∧ B.jsonPath (pathJoin (pathJoin "assets" courseFolder) "json") checkpointName
    = (("assets" +:+ "/" +:+ courseFolder) +:+ "/" +:+ "json")
        +:+ "/" +:+ (checkpointName +:+ ".json").
Proof.
  intros Hc Hp.
  assert (H1 : pathJoin "assets" courseFolder = "assets" +:+ "/" +:+ courseFolder).
  { apply (pathJoin_plain ["assets"]); [done| |done]. by apply Forall_singleton. }
  assert (Hdir : Forall (fun s => plainName s = true) ["assets"; courseFolder]).
  { by repeat constructor. }
  assert (H2 : ∀ name, plainName name = true →
    pathJoin ("assets" +:+ "/" +:+ courseFolder) name
    = ("assets" +:+ "/" +:+ courseFolder) +:+ "/" +:+ name).
  { intros name Hname. by apply (pathJoin_plain ["assets"; courseFolder]). }
  assert (H3 : ∀ dir name, plainName dir = true → plainName name = true →
    pathJoin (("assets" +:+ "/" +:+ courseFolder) +:+ "/" +:+ dir) name
    = (("assets" +:+ "/" +:+ courseFolder) +:+ "/" +:+ dir) +:+ "/" +:+ name).
  { intros dir name Hdir' Hname.
    apply (pathJoin_plain ["assets"; courseFolder; dir]); [done| |done].
    by repeat constructor. }
  assert (Hhtml : plainName (checkpointName +:+ ".html") = true).
  { apply plainName_file; [done..|simpl; lia]. }
  assert (Hjson : plainName (checkpointName +:+ ".json") = true).
  { apply plainName_file; [done..|simpl; lia]. }
  unfold B.htmlPath, B.jsonPath. rewrite H1, !H2 by done.
  by rewrite !H3.
Qed.

Lemma jsonPath_not_registry courseFolder checkpointName :
  plainName courseFolder = true → noSlash checkpointName = true →
  B.jsonPath (pathJoin (pathJoin "assets" courseFolder) "json") checkpointName
  ≠ "assets/courses.json".
Proof.
  intros Hc Hp H. destruct (B_paths _ _ Hc Hp) as (_ & _ & _ & _ & E).
  rewrite E in H. apply (f_equal slashes) in H.
  rewrite !slashes_app in H. simpl in H. lia.
Qed.

Lemma ensureCourseStructure_paths courseFolder d dirs d' :
  ensureCourseStructure courseFolder d = (Ok dirs, d') →
  dirs = (pathJoin "assets" courseFolder,
          pathJoin (pathJoin "assets" courseFolder) "html",
          pathJoin (pathJoin "assets" courseFolder) "json").
Proof.
  unfold ensureCourseStructure, mbind, io_bind, existsSync, mret, io_ret. cbn beta.
  repeat case_match; congruence.
Qed.

Lemma updateCourseModule_elsewhere courseFolder checkpointName d r d' p :
  updateCourseModule courseFolder checkpointName d = (r, d') →
  p ≠ "assets/courses.json" → d' !! p = d !! p.
Proof.
  unfold updateCourseModule, mbind, io_bind, existsSync, mret, io_ret, readCourses.
  cbn beta. intros H Hp.
  repeat case_match; simplify_eq; try done.
  match goal with Hw : writeFileSync _ _ _ = _ |- _ =>
    destruct r as [[]|e];
      [apply writeFileSync_ok in Hw as -> | apply writeFileSync_fail in Hw as ->]
  end; [by rewrite lookup_insert_ne | done].
Qed.

Lemma A_main_run raises name rest doc d d' :
  Js.truthy name = true →
  d !! A.htmlPath name = Some (File (Page doc)) →
  writeFileSync (A.jsonPath name) (Questions (A.extract raises doc)) d = (Ok tt, d') →
  A.main raises (name :: rest) d
  = (Ok (Exit0 (A.summary (readStats doc) (A.extract raises doc))), d')
  ∧ d' !! A.jsonPath name = Some (File (Questions (A.extract raises doc))).
Proof.
  intros Ht Hd Hw. split.
  - unfold A.main. rewrite Ht.
    unfold mbind, io_bind, existsSync, readPage, mret, io_ret. cbn beta.
    rewrite Hd, bool_decide_eq_true_2 by done. simpl. rewrite Hd. by rewrite Hw.
  - apply writeFileSync_ok in Hw as ->. apply lookup_insert_eq.
Qed.

Lemma B_main_run raises courseFolder checkpointName rest doc d dirs d1 d2 d3 :
  Js.truthy courseFolder = true →
  Js.truthy checkpointName = true →
  ensureCourseStructure courseFolder d = (Ok dirs, d1) →
  d1 !! B.htmlPath (pathJoin (pathJoin "assets" courseFolder) "html") checkpointName
  = Some (File (Page doc)) →
  writeFileSync
    (B.jsonPath (pathJoin (pathJoin "assets" courseFolder) "json") checkpointName)
    (Questions (B.extractedQuestions (B.extract raises doc))) d1 = (Ok tt, d2) →
  updateCourseModule courseFolder checkpointName d2 = (Ok tt, d3) →
  B.main raises (courseFolder :: checkpointName :: rest) d
  = (Ok (Exit0 (B.summary (readStats doc) (B.extract raises doc))), d3)
  ∧ d3 !! B.jsonPath (pathJoin (pathJoin "assets" courseFolder) "json") checkpointName
    = Some (File (Questions (B.extractedQuestions (B.extract raises doc)))).
Proof.
  intros Hc Hp He Hd Hw Hu. split.
  - unfold B.main. rewrite Hc, Hp. simpl.
    unfold mbind at 1. unfold io_bind at 1. rewrite He.
    apply ensureCourseStructure_paths in He as ->.
    unfold mbind, io_bind, existsSync, readPage, mret, io_ret. cbn beta.
    rewrite Hd, bool_decide_eq_true_2 by done. simpl. rewrite Hd, Hw. by rewrite Hu.
  - apply writeFileSync_ok in Hw as ->.
    set (jsonPath := B.jsonPath _ checkpointName) in *.
    destruct (decide (jsonPath = "assets/courses.json")) as [E|E].
    + exfalso. revert Hu. rewrite E.
      unfold updateCourseModule, mbind, io_bind, existsSync, mret, io_ret, readCourses.
      cbn beta. rewrite lookup_insert_eq, bool_decide_eq_true_2 by done.
      cbn [negb]. by rewrite lookup_insert_eq.
    + rewrite (updateCourseModule_elsewhere _ _ _ _ _ _ Hu E).
      apply lookup_insert_eq.
Qed.

(** The step of variant B on a question whose reads end without an
    exception. *)
Lemma B_question_read raises w q :
  completes (B.readQuestion raises q) = true →
  B.eachQuestion raises w q
  = match B_read q with
    | Some l =>
        if bool_decide (B.choices l = []) then w
        else if blankAnswer (B_record l)
             then B.Walk (B.extractedQuestions w ++ [B_record l])
                         (B.questionsWithAnswer w) (S (B.questionsWithoutAnswer w))
             else B.Walk (B.extractedQuestions w ++ [B_record l])
                         (S (B.questionsWithAnswer w)) (B.questionsWithoutAnswer w)
    | None => w
    end.
Proof.
  intros Hok. destruct (B_question_cases raises w q) as [E|(l & Hl & Hc & E)].
  - rewrite E. unfold B.eachQuestion in E.
    destruct (B.readQuestion raises q) as [r|] eqn:Er; [|done].
    apply B_readQuestion_inv in Er as ->.
    destruct (B_read q) as [l|]; [|done].
    case_bool_decide as Hc; [done|].
    destruct (B.choices l) as [|c cs] eqn:Ec; [done|]. simpl in E.
    apply (f_equal B.extractedQuestions) in E.
    repeat case_match; simpl in E; symmetry in E; by apply app_singleton_neq in E.
  - rewrite E, Hl. by rewrite bool_decide_eq_false_2.
Qed.

Lemma A_step_records s q :
  A.eachQuestion sound s q = s ++ A_recordsOf q.
Proof.
  rewrite (A_question_read sound) by by rewrite A_readQuestion_sound.
  unfold A_recordsOf. destruct (A_read q) as [l|]; [|by rewrite app_nil_r].
  case_bool_decide as Hc; [by rewrite app_nil_r|].
  unfold A_record, A.questionObj. by destruct (A.correctAnswers l) as [|c [|c' ca]].
Qed.

Lemma B_step_records w q :
  B.extractedQuestions (B.eachQuestion sound w q)
  = B.extractedQuestions w ++ B_recordsOf q.
Proof.
  rewrite (B_question_read sound) by by rewrite B_readQuestion_sound.
  unfold B_recordsOf. destruct (B_read q) as [l|]; [|by rewrite app_nil_r].
  case_bool_decide as Hc; [by rewrite app_nil_r|].
  by destruct (blankAnswer (B_record l)).
Qed.

Lemma A_walk_records l s :
  fold_left (A.eachQuestion sound) l s = s ++ flat_map A_recordsOf l.
Proof.
  revert s. induction l as [|q l IH]; simpl; intros s; [by rewrite app_nil_r|].
  by rewrite IH, A_step_records, <- app_assoc.
Qed.

Lemma B_walk_records l w :
  B.extractedQuestions (fold_left (B.eachQuestion sound) l w)
  = B.extractedQuestions w ++ flat_map B_recordsOf l.
Proof.
  revert w. induction l as [|q l IH]; simpl; intros w; [by rewrite app_nil_r|].
  by rewrite IH, B_step_records, <- app_assoc.
Qed.

(** C8. In both variants an exception raised while a question is processed
    leaves the records (and the counters of variant B) as they were, and the
    walk goes on: its result is the result of the walk without failures over
    the questions whose processing raises no exception.  The records of the
    run are therefore the records of exactly these questions, each as it is
    read off the page, in document order: a failed question gives no record,
    not even a partial one, and every other question gives the record it
    gives in a run without failures.  A run that gets past its fatal checks
    then writes exactly these records to its output file and ends with its
    summary. *)
Theorem faulty_questions_are_skipped (raises : node → bool) (doc : node) :
  (∀ q s, completes (A.readQuestion raises q) = false → A.eachQuestion raises s q = s)
  ∧ (∀ q w, completes (B.readQuestion raises q) = false → B.eachQuestion raises w q = w)
  ∧ A.extract raises doc
    = fold_left (A.eachQuestion sound)
        (List.filter (fun q => completes (A.readQuestion raises q)) (questionElements doc))
        []
  ∧ B.extract raises doc
    = fold_left (B.eachQuestion sound)
        (List.filter (fun q => completes (B.readQuestion raises q)) (questionElements doc))
        (B.Walk [] 0 0)
  ∧ A.extract raises doc
    = flat_map A_recordsOf
        (List.filter (fun q => completes (A.readQuestion raises q)) (questionElements doc))
  ∧ B.extractedQuestions (B.extract raises doc)
    = flat_map B_recordsOf
        (List.filter (fun q => completes (B.readQuestion raises q)) (questionElements doc))
  ∧ (∀ name rest d d',
        Js.truthy name = true →
        d !! A.htmlPath name = Some (File (Page doc)) →
        writeFileSync (A.jsonPath name) (Questions (A.extract raises doc)) d
        = (Ok tt, d') →
        A.main raises (name :: rest) d
        = (Ok (Exit0 (A.summary (readStats doc) (A.extract raises doc))), d')
        ∧ d' !! A.jsonPath name = Some (File (Questions (A.extract raises doc))))
  ∧ (∀ courseFolder checkpointName rest d dirs d1 d2 d3,
        Js.truthy courseFolder = true →
        Js.truthy checkpointName = true →
        ensureCourseStructure courseFolder d = (Ok dirs, d1) →
        d1 !! B.htmlPath (pathJoin (pathJoin "assets" courseFolder) "html")
                         checkpointName
        = Some (File (Page doc)) →
        writeFileSync
          (B.jsonPath (pathJoin (pathJoin "assets" courseFolder) "json") checkpointName)
          (Questions (B.extractedQuestions (B.extract raises doc))) d1
        = (Ok tt, d2) →
        updateCourseModule courseFolder checkpointName d2 = (Ok tt, d3) →
        B.main raises (courseFolder :: checkpointName :: rest) d
        = (Ok (Exit0 (B.summary (readStats doc) (B.extract raises doc))), d3)
        ∧ d3 !! B.jsonPath (pathJoin (pathJoin "assets" courseFolder) "json")
                           checkpointName
          = Some (File (Questions (B.extractedQuestions (B.extract raises doc))))).
Proof.
  assert (EA : A.extract raises doc
    = fold_left (A.eachQuestion sound)
        (List.filter (fun q => completes (A.readQuestion raises q)) (questionElements doc))
        []).
  { unfold A.extract.
    rewrite (fold_left_skip _ (fun q => completes (A.readQuestion raises q)))
      by (intros s q; apply A_question_thrown).
    apply fold_left_agree. intros s q Hq. apply filter_In in Hq as [_ Hq].
    by apply A_question_completes. }
  assert (EB : B.extract raises doc
    = fold_left (B.eachQuestion sound)
        (List.filter (fun q => completes (B.readQuestion raises q)) (questionElements doc))
        (B.Walk [] 0 0)).
  { unfold B.extract.
    rewrite (fold_left_skip _ (fun q => completes (B.readQuestion raises q)))
      by (intros w q; apply B_question_thrown).
    apply fold_left_agree. intros w q Hq. apply filter_In in Hq as [_ Hq].
    by apply B_question_completes. }
  split; [intros q s; apply A_question_thrown|].
  split; [intros q w; apply B_question_thrown|].
  split; [done|]. split; [done|].
  split; [by rewrite EA, A_walk_records|].
  split; [by rewrite EB, B_walk_records|].
  split.
  - intros name rest d d'. apply A_main_run.
  - intros courseFolder checkpointName rest d dirs d1 d2 d3. apply B_main_run.
Qed.

Lemma faulty_questions_are_skipped_witness :
  completes (A.readQuestion Sample.failsOnThree Sample.primesEl) = false
  ∧ A.eachQuestion Sample.failsOnThree [Sample.capitalRecord] Sample.primesEl
    = [Sample.capitalRecord]
  ∧ completes (B.readQuestion Sample.failsOnThree Sample.primesEl) = false
  ∧ B.eachQuestion Sample.failsOnThree (B.Walk [Sample.capitalRecord] 1 0) Sample.primesEl
    = B.Walk [Sample.capitalRecord] 1 0
  ∧ A.extract Sample.failsOnThree Sample.page
    = [Sample.capitalRecord;
       [("question", VString "Capital of Spain?");
        ("choices", VArray ["Madrid"; "Lisbon"]);
        ("answer", VString "Madrid")];
       Sample.missedRecord "Rome"]
  ∧ B.extractedQuestions (B.extract Sample.failsOnThree Sample.page)
    = [Sample.capitalRecord;
       [("question", VString "Largest ocean?");
        ("choices", VArray ["Pacific"; "Atlantic"]);
        ("answer", VString "")];
       [("question", VString "Capital of Spain?");
        ("choices", VArray ["Madrid"; "Lisbon"]);
        ("answer", VString "")];
       Sample.missedRecord "";
       [("question", VString "Match the ports.");
        ("choices", VArray ["HTTP"; "SSH"; "80"; "22"]);
        ("answer", VString "")]]
  ∧ (A.main Sample.failsOnThree ["cp1"] Sample.diskA).2 !! "./assets/json/cp1.json"
    = Some (File (Questions (A.extract Sample.failsOnThree Sample.page)))
  ∧ (B.main Sample.failsOnThree ["dev-net"; "cp1"] Sample.diskB).2
      !! "assets/dev-net/json/cp1.json"
    = Some (File (Questions
                    (B.extractedQuestions (B.extract Sample.failsOnThree Sample.page)))).
Proof.
  destruct (faulty_questions_are_skipped Sample.failsOnThree Sample.page)
    as (HA & HB & _ & _ & EA & EB & MA & MB).
  split; [reflexivity|]. split; [apply HA; reflexivity|].
  split; [reflexivity|]. split; [apply HB; reflexivity|].
  split; [rewrite EA; reflexivity|]. split; [rewrite EB; reflexivity|]. split.
  - destruct (MA "cp1" [] Sample.diskA
                 (<["./assets/json/cp1.json" :=
                      File (Questions (A.extract Sample.failsOnThree Sample.page))]>
                    Sample.diskA)) as [-> H]; [reflexivity..|exact H].
  - set (d1 := (ensureCourseStructure "dev-net" Sample.diskB).2).
    set (d2 := <["assets/dev-net/json/cp1.json" :=
                   File (Questions (B.extractedQuestions
                                      (B.extract Sample.failsOnThree Sample.page)))]> d1).
    set (d3 := (updateCourseModule "dev-net" "cp1" d2).2).
    destruct (MB "dev-net" "cp1" [] Sample.diskB
                 ("assets/dev-net", "assets/dev-net/html", "assets/dev-net/json")
                 d1 d2 d3) as [-> H];
      [reflexivity..|exact H].
Defined.

(** ** One record per question, in document order *)

Lemma A_eachQuestion_app raises s q :
  A.eachQuestion raises s q = s ++ A.eachQuestion raises [] q.
Proof.
  unfold A.eachQuestion. destruct (A.readQuestion raises q) as [[l|]|];
    rewrite ?app_nil_r; try done.
  destruct (_ && _); by rewrite ?app_nil_r.
Qed.

Lemma B_eachQuestion_app raises w q :
  B.extractedQuestions (B.eachQuestion raises w q)
  = B.extractedQuestions w
      ++ B.extractedQuestions (B.eachQuestion raises (B.Walk [] 0 0) q).
Proof.
  unfold B.eachQuestion. destruct (B.readQuestion raises q) as [[l|]|];
    rewrite ?app_nil_r; try done.
  repeat case_match; simpl; by rewrite ?app_nil_r.
Qed.

Lemma A_eachQuestion_length raises q : (length (A.eachQuestion raises [] q) ≤ 1)%nat.
Proof.
  destruct (A_question_cases raises [] q) as [->|(l & _ & _ & ->)]; simpl; lia.
Qed.

Lemma B_eachQuestion_length raises q :
  (length (B.extractedQuestions (B.eachQuestion raises (B.Walk [] 0 0) q)) ≤ 1)%nat.
Proof.
  destruct (B_question_cases raises (B.Walk [] 0 0) q) as [->|(l & _ & _ & ->)];
    [simpl; lia|].
  destruct (blankAnswer _); simpl; lia.
Qed.

Lemma flat_map_length_le {X Y : Type} (f : X → list Y) l :
  (∀ x, length (f x) ≤ 1)%nat → (length (flat_map f l) ≤ length l)%nat.
Proof.
  intros H. induction l as [|x l IH]; simpl; [done|].
  rewrite length_app. specialize (H x). lia.
Qed.

Lemma A_extract_flat_map raises doc :
  A.extract raises doc = flat_map (A.eachQuestion raises []) (questionElements doc).
Proof.
  unfold A.extract.
  assert (H : ∀ l s, fold_left (A.eachQuestion raises) l s
                     = s ++ flat_map (A.eachQuestion raises []) l).
  { induction l as [|q l IH]; simpl; intros s; [by rewrite app_nil_r|].
    by rewrite IH, A_eachQuestion_app, <- app_assoc. }
  by rewrite H.
Qed.

Lemma B_extract_flat_map raises doc :
  B.extractedQuestions (B.extract raises doc)
  = flat_map (fun q => B.extractedQuestions (B.eachQuestion raises (B.Walk [] 0 0) q))
             (questionElements doc).
Proof.
  unfold B.extract.
  assert (H : ∀ l w, B.extractedQuestions (fold_left (B.eachQuestion raises) l w)
                     = B.extractedQuestions w
                         ++ flat_map (fun q => B.extractedQuestions
                                       (B.eachQuestion raises (B.Walk [] 0 0) q)) l).
  { induction l as [|q l IH]; simpl; intros w; [by rewrite app_nil_r|].
    by rewrite IH, B_eachQuestion_app, <- app_assoc. }
  by rewrite H.
Qed.

(** X1. Each walk handles the display-question elements one by one, in
    document order: what an element adds to the records does not depend on
    the records before it, it adds at most one record, and the records of
    the run are the records of its elements one after the other. *)
Theorem walk_emits_in_document_order (raises : node → bool) (doc : node) :
  A.extract raises doc
  = flat_map (A.eachQuestion raises []) (questionElements doc)
  ∧ B.extractedQuestions (B.extract raises doc)
    = flat_map (fun q => B.extractedQuestions (B.eachQuestion raises (B.Walk [] 0 0) q))
               (questionElements doc)
  ∧ (length (A.extract raises doc) ≤ length (questionElements doc))%nat
  ∧ (length (B.extractedQuestions (B.extract raises doc))
     ≤ length (questionElements doc))%nat.
Proof.
  rewrite A_extract_flat_map, B_extract_flat_map.
  split; [done|]. split; [done|]. split.
  - apply flat_map_length_le, A_eachQuestion_length.
  - apply flat_map_length_le, B_eachQuestion_length.
Qed.

(** ** Questions without a question text *)

(** X2. A display-question element without a question-text element adds
    nothing in either variant, on every host: no record, and no change of
    the counters of variant B. *)
Theorem question_without_text_is_skipped
    (raises : node → bool) (questionEl : handle) (s : list object) (w : B.walk) :
  questionTextEl questionEl = None →
  A.eachQuestion raises s questionEl = s ∧ B.eachQuestion raises w questionEl = w.
Proof.
  unfold questionTextEl. intros H.
  unfold A.eachQuestion, B.eachQuestion, A.readQuestion, B.readQuestion, call.
  destruct (raises (self questionEl)); simpl; [done|]. by rewrite H.
Qed.

Lemma question_without_text_is_skipped_witness :
  questionTextEl (Handle [] Sample2.headless) = None
  ∧ A.eachQuestion sound [Sample.capitalRecord] (Handle [] Sample2.headless)
    = [Sample.capitalRecord]
  ∧ B.eachQuestion sound (B.Walk [Sample.capitalRecord] 1 0) (Handle [] Sample2.headless)
    = B.Walk [Sample.capitalRecord] 1 0.
Proof.
  split; [reflexivity|].
  apply (question_without_text_is_skipped sound (Handle [] Sample2.headless)
           [Sample.capitalRecord] (B.Walk [Sample.capitalRecord] 1 0)).
  reflexivity.
Defined.

(** ** Which questions variant B emits *)

Lemma B_read_choices q l : B_read q = Some l → B.choices l = questionChoices q.
Proof.
  unfold B_read, questionChoices. destruct (questionTextEl q); [|done].
  intros [= <-]. simpl. by destruct (answerLabels q).
Qed.

(** X3. In variant B, a question that has a question text is emitted if and
    only if it has a choice: a non-empty answer-label text or, when it has no
    answer label at all, a choice of the matching fallback.  Correct-answer
    badges play no part.  (On every host on which its reads raise no
    exception.) *)
Theorem B_emits_iff_choices
    (raises : node → bool) (w : B.walk) (questionEl qt : handle) :
  questionTextEl questionEl = Some qt →
  completes (B.readQuestion raises questionEl) = true →
  ((∃ r, B.extractedQuestions (B.eachQuestion raises w questionEl)
         = B.extractedQuestions w ++ [r])
   ↔ questionChoices questionEl ≠ [])
  ∧ (questionChoices questionEl = [] → B.eachQuestion raises w questionEl = w)
  ∧ (∀ r, B.extractedQuestions (B.eachQuestion raises w questionEl)
          = B.extractedQuestions w ++ [r] →
          getProp "choices" r = Some (VArray (questionChoices questionEl))).
Proof.
  intros Hqt Hok. rewrite (B_question_read _ _ _ Hok).
  destruct (B_read questionEl) as [l|] eqn:El.
  2:{ unfold B_read in El. by rewrite Hqt in El. }
  rewrite <- (B_read_choices _ _ El).
  case_bool_decide as Hc.
  - split; [|split]; [|done|].
    + split; [intros [r Hr]; by apply app_singleton_neq in Hr | done].
    + intros r Hr. by apply app_singleton_neq in Hr.
  - split; [|split]; [|done|].
    + split; [done|]. intros _. exists (B_record l). by destruct (blankAnswer _).
    + intros r Hr.
      assert (r = B_record l) as ->
        by (destruct (blankAnswer _); simpl in Hr; apply app_inv_head in Hr;
            congruence).
      apply B_record_choices.
Qed.

Lemma B_emits_iff_choices_witness :
  questionTextEl Sample.matchingEl
  = Some (Handle [Sample.matching]
                 (Element "div" ["question_text"] [] [Text "Match the ports."]))
  ∧ completes (B.readQuestion sound Sample.matchingEl) = true
  ∧ questionChoices Sample.matchingEl = ["HTTP"; "SSH"; "80"; "22"]
  ∧ getProp "choices" Sample.matchingRecord
    = Some (VArray (questionChoices Sample.matchingEl)).
Proof.
  split; [reflexivity|]. split; [reflexivity|]. split; [reflexivity|].
  apply (B_emits_iff_choices sound (B.Walk [] 0 0) Sample.matchingEl
           (Handle [Sample.matching]
              (Element "div" ["question_text"] [] [Text "Match the ports."]))
           eq_refl eq_refl).
  reflexivity.
Defined.

(** ** The two variants on the same question *)

Lemma setProp_setProp k v v' o : setProp k v (setProp k v' o) = setProp k v o.
Proof.
  induction o as [|[k1 v1] o IH]; simpl.
  - by rewrite String.eqb_refl.
  - destruct (String.eqb k1 k) eqn:E; simpl.
    + by rewrite String.eqb_refl.
    + by rewrite E, IH.
Qed.

Lemma A_questionObj_eq l :
  A.correctAnswers l ≠ [] →
  A.questionObj l
  = setProp "answer" (answerOf (A.correctAnswers l))
      (setProp "choices" (VArray (A.choices l))
         (addImage (A.imgSrc l) [("question", VString (A.questionText l))])).
Proof.
  unfold A.questionObj. by destruct (A.correctAnswers l) as [|c [|c' ca]].
Qed.

Lemma blankAnswer_answerOf ca o :
  ca ≠ [] → Forall (fun s => Js.truthy s = true) ca →
  blankAnswer (setProp "answer" (answerOf ca) o) = false.
Proof.
  intros Hne Ht. unfold blankAnswer. rewrite record_answer.
  destruct ca as [|c [|c' ca]]; [done| |done]. simpl.
  apply Forall_inv in Ht. by rewrite Ht.
Qed.

(** What the two variants add for one question on the host without
    failures: nothing and at most a blank record, or the record of variant A
    and, in variant B, the same record with its answer blanked when the
    question is marked as new or wrong. *)
Lemma per_question q :
  (A.eachQuestion sound [] q = []
   ∧ (B.extractedQuestions (B.eachQuestion sound (B.Walk [] 0 0) q) = []
      ∨ ∃ r, B.extractedQuestions (B.eachQuestion sound (B.Walk [] 0 0) q) = [r]
             ∧ blankAnswer r = true))
  ∨ (∃ r, A.eachQuestion sound [] q = [r]
          ∧ blankAnswer r = false
          ∧ B.extractedQuestions (B.eachQuestion sound (B.Walk [] 0 0) q)
            = [if marksNew q || marksWrong q
               then setProp "answer" (VString "") r else r]).
Proof.
  rewrite (A_question_read sound) by by rewrite A_readQuestion_sound.
  rewrite (B_question_read sound) by by rewrite B_readQuestion_sound.
  unfold A_read, B_read. destruct (questionTextEl q) as [qt|]; [|left; by split; [|left]].
  cbv zeta. set (labels := answerLabels q).
  pose proof (correctChoices_incl labels) as Hincl.
  assert (Htc : Forall (fun s => Js.truthy s = true) (correctChoices labels))
    by (eapply incl_Forall; [done | apply choiceTexts_truthy]).
  assert (Hrecords : ∀ (b : bool) x a c a' c',
             B.extractedQuestions (if b then B.Walk x a c else B.Walk x a' c') = x)
    by by intros [].
  unfold B_record, A.correctAnswers, B.choices, B.imgSrc, B.questionText.
  destruct (correctChoices labels) as [|c ca] eqn:Ec.
  - (* no correct choice: variant A adds nothing *)
    left. split; [done|]. case_bool_decide as Hcs; [by left|]. right.
    rewrite Hrecords. eexists. split; [done|].
    unfold blankAnswer, B_answer. rewrite record_answer. simpl.
    by destruct (marksNew q), (marksWrong q).
  - right. eexists. split; [simpl; reflexivity|].
    assert (Hl : labels ≠ []).
    { intros E. rewrite E in Ec. done. }
    assert (Hcs : choiceTexts labels ≠ []).
    { intros E. rewrite E in Hincl. destruct (Hincl c). by left. }
    rewrite (A_questionObj_eq (A.Locals _ _ _ _)) by done. simpl A.correctAnswers.
    simpl A.choices. simpl A.imgSrc. simpl A.questionText.
    split; [by apply blankAnswer_answerOf|].
    destruct labels as [|lab labels'] eqn:El; [done|].
    rewrite bool_decide_eq_false_2 by done. rewrite Hrecords. simpl app.
    unfold B_answer. simpl B.isNewQuestion. simpl B.isWrongAnswer.
    simpl B.correctAnswers.
    destruct (marksNew q), (marksWrong q); simpl orb; simpl andb; cbv iota;
      rewrite ?setProp_setProp; done.
Qed.

(** X4. A question for which variant A emits a record is emitted by
    variant B too: with the same record when the question is not marked as
    new or wrong, and with the same record but a blank answer when it is. *)
Theorem A_record_is_B_record
    (raises : node → bool) (s : list object) (w : B.walk) (questionEl : handle)
    (r : object) :
  completes (B.readQuestion raises questionEl) = true →
  A.eachQuestion raises s questionEl = s ++ [r] →
  B.extractedQuestions (B.eachQuestion raises w questionEl)
  = B.extractedQuestions w
      ++ [if marksNew questionEl || marksWrong questionEl
          then setProp "answer" (VString "") r else r].
Proof.
  intros HB HA.
  assert (HcA : completes (A.readQuestion raises questionEl) = true).
  { destruct (completes (A.readQuestion raises questionEl)) eqn:E; [done|].
    rewrite (A_question_thrown _ _ _ E) in HA. by apply app_singleton_neq in HA. }
  rewrite A_question_completes, A_eachQuestion_app in HA by done.
  apply app_inv_head in HA.
  rewrite B_question_completes, B_eachQuestion_app by done. f_equal.
  destruct (per_question questionEl) as [[E _]|(r' & E & _ & ->)];
    rewrite E in HA; [discriminate | by injection HA as ->].
Qed.

Lemma A_record_is_B_record_witness :
  completes (B.readQuestion sound (Handle [] Sample.missed)) = true
  ∧ A.eachQuestion sound [] (Handle [] Sample.missed) = [] ++ [Sample.missedRecord "Rome"]
  ∧ marksNew (Handle [] Sample.missed) || marksWrong (Handle [] Sample.missed) = true
  ∧ B.extractedQuestions
      (B.eachQuestion sound (B.Walk [] 0 0) (Handle [] Sample.missed))
    = [] ++ [if marksNew (Handle [] Sample.missed) || marksWrong (Handle [] Sample.missed)
             then setProp "answer" (VString "") (Sample.missedRecord "Rome")
             else Sample.missedRecord "Rome"].
Proof.
  split; [reflexivity|]. split; [reflexivity|]. split; [reflexivity|].
  apply (A_record_is_B_record sound [] (B.Walk [] 0 0) (Handle [] Sample.missed)
           (Sample.missedRecord "Rome")); reflexivity.
Defined.

(** X5. On the host without failures, the records of variant B that have an
    answer are at most as many as the records of variant A, which are at
    most as many as the records of variant B. *)
Theorem answered_le_strict_le_tolerant (doc : node) :
  (B.questionsWithAnswer (B.extract sound doc) ≤ length (A.extract sound doc))%nat
  ∧ (length (A.extract sound doc)
     ≤ length (B.extractedQuestions (B.extract sound doc)))%nat.
Proof.
  destruct (B_counters sound doc) as [-> _].
  rewrite A_extract_flat_map, B_extract_flat_map. unfold answeredCount.
  induction (questionElements doc) as [|q l [IH1 IH2]]; simpl; [done|].
  rewrite List.filter_app, !length_app.
  destruct (per_question q) as [[-> [->|(r & -> & Hr)]]|(r & -> & Hr & ->)]; simpl.
  - lia.
  - rewrite Hr. simpl. lia.
  - destruct (negb (blankAnswer _)); simpl; lia.
Qed.

(** X6. On the host without failures and a page none of whose questions is
    marked as new or wrong, the records of variant A are exactly the records
    of variant B that have an answer, in the same order. *)
Theorem strict_is_answered_part_of_tolerant (doc : node) :
  forallb (fun q => negb (marksNew q || marksWrong q)) (questionElements doc) = true →
  A.extract sound doc
  = List.filter (fun r => negb (blankAnswer r))
                (B.extractedQuestions (B.extract sound doc)).
Proof.
  rewrite A_extract_flat_map, B_extract_flat_map.
  induction (questionElements doc) as [|q l IH]; simpl; [done|].
  intros H. apply andb_prop in H as [Hq Hl]. apply negb_true_iff in Hq.
  rewrite List.filter_app, <- IH by done. f_equal.
  destruct (per_question q) as [[-> [->|(r & -> & Hr)]]|(r & -> & Hr & ->)]; simpl.
  - done.
  - by rewrite Hr.
  - by rewrite Hq, Hr.
Qed.

Lemma strict_is_answered_part_of_tolerant_witness :
  forallb (fun q => negb (marksNew q || marksWrong q))
          (questionElements Sample2.plainPage) = true
  ∧ length (A.extract sound Sample2.plainPage) = 2%nat
  ∧ length (B.extractedQuestions (B.extract sound Sample2.plainPage)) = 4%nat
  ∧ A.extract sound Sample2.plainPage
    = List.filter (fun r => negb (blankAnswer r))
                  (B.extractedQuestions (B.extract sound Sample2.plainPage)).
Proof.
  split; [reflexivity|]. split; [reflexivity|]. split; [reflexivity|].
  apply (strict_is_answered_part_of_tolerant Sample2.plainPage). reflexivity.
Defined.

(** ** The shape of a record *)

Lemma A_question_pushed raises s q r :
  A.eachQuestion raises s q = s ++ [r] →
  ∃ l, A_read q = Some l ∧ A.correctAnswers l ≠ [] ∧ r = A.questionObj l.
Proof.
  intros H. destruct (A_question_cases raises s q) as [E|(l & Hl & Hc & E)];
    rewrite E in H.
  - by apply app_singleton_neq in H.
  - exists l. apply app_inv_head in H. split; [done|]. split; [done|]. congruence.
Qed.

Lemma base_keys img q cs v :
  keys (setProp "answer" v
          (setProp "choices" (VArray cs) (addImage img [("question", VString q)])))
  = ["question"; "choices"; "answer"]
  ∨ keys (setProp "answer" v
            (setProp "choices" (VArray cs) (addImage img [("question", VString q)])))
    = ["question"; "img"; "choices"; "answer"].
Proof.
  unfold addImage. destruct img as [src|]; [destruct (Js.truthy src)|]; simpl; auto.
Qed.

(** X7. Every record of either variant has its properties in the order
    [question], [img] (when the question has an image), [choices],
    [answer], and no other property: this is the order in which the output
    file lists them. *)
Theorem emitted_record_keys (raises : node → bool) (doc : node) :
  Forall (fun r => keys r = ["question"; "choices"; "answer"]
                   ∨ keys r = ["question"; "img"; "choices"; "answer"])
         (A.extract raises doc)
  ∧ Forall (fun r => keys r = ["question"; "choices"; "answer"]
                     ∨ keys r = ["question"; "img"; "choices"; "answer"])
           (B.extractedQuestions (B.extract raises doc)).
Proof.
  split.
  - apply A_extract_Forall. intros q l _ Hc. rewrite A_questionObj_eq by done.
    apply base_keys.
  - apply B_extract_Forall. intros q l _ _. apply base_keys.
Qed.

Lemma base_question img q cs v :
  getProp "question"
    (setProp "answer" v
       (setProp "choices" (VArray cs) (addImage img [("question", VString q)])))
  = Some (VString q).
Proof. rewrite !getProp_setProp_ne, getProp_addImage by done. done. Qed.

Lemma base_img img q cs v :
  getProp "img"
    (setProp "answer" v
       (setProp "choices" (VArray cs) (addImage img [("question", VString q)])))
  = match img with
    | Some src => if Js.truthy src then Some (VString src) else None
    | None => None
    end.
Proof.
  rewrite !getProp_setProp_ne by done. unfold addImage.
  destruct img as [src|]; [destruct (Js.truthy src)|]; done.
Qed.

(** X8. The [question] of an emitted record is the trimmed text of the
    question-text element without its first answer-source badge.  The record
    has an [img] property exactly when the question text contains an image
    whose [src] attribute is present and not empty, and it is the [src] of
    the first image. *)
Theorem record_question_and_image
    (raises : node → bool) (s : list object) (w : B.walk) (questionEl qt : handle) :
  questionTextEl questionEl = Some qt →
  (∀ r, A.eachQuestion raises s questionEl = s ++ [r] →
        getProp "question" r = Some (VString (questionTextOf qt))
        ∧ getProp "img" r = imgProperty qt)
  ∧ (∀ r, B.extractedQuestions (B.eachQuestion raises w questionEl)
          = B.extractedQuestions w ++ [r] →
          getProp "question" r = Some (VString (questionTextOf qt))
          ∧ getProp "img" r = imgProperty qt).
Proof.
  intros Hqt. split; intros r Hr.
  - apply A_question_pushed in Hr as (l & Hl & Hc & ->).
    rewrite A_questionObj_eq by done. rewrite base_question, base_img.
    unfold A_read in Hl. rewrite Hqt in Hl. by injection Hl as <-.
  - apply B_question_pushed in Hr as (l & Hl & _ & ->).
    unfold B_record. rewrite base_question, base_img.
    unfold B_read in Hl. rewrite Hqt in Hl. by injection Hl as <-.
Qed.

Lemma record_question_and_image_witness :
  questionTextEl (Handle [] Sample2.pictured) = Some Sample2.picturedText
  ∧ A.eachQuestion sound [] (Handle [] Sample2.pictured)
    = [] ++ [Sample2.picturedRecord "France"]
  ∧ B.extractedQuestions (B.eachQuestion sound (B.Walk [] 0 0) (Handle [] Sample2.pictured))
    = [] ++ [Sample2.picturedRecord ""]
  ∧ questionTextOf Sample2.picturedText = "Which flag?"
  ∧ imgProperty Sample2.picturedText = Some (VString "flags/fr.png")
  ∧ getProp "img" (Sample2.picturedRecord "France") = imgProperty Sample2.picturedText
  ∧ getProp "question" (Sample2.picturedRecord "")
    = Some (VString (questionTextOf Sample2.picturedText)).
Proof.
  destruct (record_question_and_image sound [] (B.Walk [] 0 0)
              (Handle [] Sample2.pictured) Sample2.picturedText eq_refl) as [HA HB].
  split; [reflexivity|]. split; [reflexivity|]. split; [reflexivity|].
  split; [reflexivity|]. split; [reflexivity|]. split.
  - apply (HA (Sample2.picturedRecord "France")). reflexivity.
  - apply (HB (Sample2.picturedRecord "")). reflexivity.
Defined.

(** ** Stripping the badges *)

Lemma matches_simple sel a a' t cl attrs kids attrs' kids' :
  simpleSelector sel = true →
  matches sel (Handle a (Element t cl attrs kids))
  = matches sel (Handle a' (Element t cl attrs' kids')).
Proof.
  induction sel as [c|c1 c2|s1 IH1 s2 IH2]; simpl; [done|done|].
  intros H. apply andb_prop in H as [H1 H2]. by rewrite IH1, IH2.
Qed.

Lemma matches_simple_self sel h h' :
  simpleSelector sel = true → self h = self h' → matches sel h = matches sel h'.
Proof.
  intros Hs. destruct h as [a n], h' as [a' n']. simpl. intros <-.
  destruct n as [x|x|t cl attrs kids]; [| |by apply matches_simple];
    induction sel as [c|c1 c2|s1 IH1 s2 IH2]; simpl in *; try done;
    apply andb_prop in Hs as [H1 H2]; by rewrite IH1, IH2.
Qed.

Lemma descendants_selves n :
  ∀ anc anc', map self (descendants anc n) = map self (descendants anc' n).
Proof.
  induction n as [x|x|t cl attrs kids IH] using node_tree_ind; intros anc anc';
    simpl; [done|done|].
  set (n := Element t cl attrs kids). clearbody n.
  induction IH as [|k kids Hk _ IHkids]; simpl; [done|].
  rewrite !map_app, IHkids. f_equal.
  destruct k as [x|x|t' cl' attrs' kids']; simpl; [done|done|].
  f_equal. apply Hk.
Qed.

Lemma filter_selves sel (l l' : list handle) :
  simpleSelector sel = true →
  map self l = map self l' →
  map self (List.filter (matches sel) l) = map self (List.filter (matches sel) l').
Proof.
  intros Hs. revert l'. induction l as [|h l IH]; intros [|h' l'] H; simpl in *;
    try done.
  injection H as Hh Hl. rewrite (matches_simple_self sel h h' Hs Hh).
  destruct (matches sel h'); simpl; rewrite ?Hh; by rewrite (IH l').
Qed.

(** A clone has the same matching descendants as its original. *)
Lemma querySelectorAll_clone sel h :
  simpleSelector sel = true →
  querySelectorAll sel h = [] → querySelectorAll sel (cloneNode h) = [].
Proof.
  intros Hs H. unfold querySelectorAll in *. simpl.
  pose proof (filter_selves sel _ _ Hs (descendants_selves (self h) [] (ancestors h))) as E.
  rewrite H in E. by destruct (List.filter _ (descendants [] _)).
Qed.

Lemma removeFirstIn_none sel n :
  ∀ anc, List.filter (matches sel) (descendants anc n) = [] →
         removeFirstIn sel anc n = None.
Proof.
  induction n as [x|x|t cl attrs kids IH] using node_tree_ind; intros anc;
    simpl; [done|done|].
  set (n := Element t cl attrs kids). intros H.
  assert (Hgo : (fix go (ks : list node) : option (list node) :=
                   match ks with
                   | [] => None
                   | k :: ks' =>
                       if isElement k && matches sel (Handle (n :: anc) k) then Some ks'
                       else match removeFirstIn sel (n :: anc) k with
                            | Some k' => Some (k' :: ks')
                            | None => cons k <$> go ks'
                            end
                   end) kids = None); [|by rewrite Hgo].
  clearbody n. induction IH as [|k kids Hk _ IHkids]; simpl in *; [done|].
  rewrite List.filter_app in H. apply app_eq_nil in H as [H1 H2].
  rewrite (IHkids H2).
  destruct k as [x|x|t' cl' attrs' kids']; simpl in *; [done|done|].
  destruct (matches sel _); [done|]. simpl. by rewrite (Hk _ H1).
Qed.

Lemma removeAllIn_id sel n :
  ∀ anc, List.filter (matches sel) (descendants anc n) = [] →
         removeAllIn sel anc n = n.
Proof.
  induction n as [x|x|t cl attrs kids IH] using node_tree_ind; intros anc;
    simpl; [done|done|].
  set (n := Element t cl attrs kids). intros H. f_equal.
  clearbody n. induction IH as [|k kids Hk _ IHkids]; simpl in *; [done|].
  rewrite List.filter_app in H. apply app_eq_nil in H as [H1 H2].
  rewrite (IHkids H2).
  destruct k as [x|x|t' cl' attrs' kids']; simpl in *; [done|done|].
  destruct (matches sel _); [done|]. simpl. by rewrite (Hk _ H1).
Qed.

Lemma removeAllIn_clean sel n :
  simpleSelector sel = true →
  ∀ anc anc', List.filter (matches sel) (descendants anc' (removeAllIn sel anc n)) = [].
Proof.
  intros Hs.
  induction n as [x|x|t cl attrs kids IH] using node_tree_ind; intros anc anc';
    simpl; [done|done|].
  set (n := Element t cl attrs kids).
  set (n' := Element t cl attrs _). clearbody n n'.
  induction IH as [|k kids Hk _ IHkids]; simpl; [done|].
  destruct k as [x|x|t' cl' attrs' kids']; simpl; [done|done|].
  destruct (matches sel (Handle (n :: anc) _)) eqn:Em; simpl; [done|].
  rewrite List.filter_app, IHkids, app_nil_r.
  rewrite (matches_simple sel _ (n :: anc) _ _ _ _ attrs' kids') by done.
  rewrite Em. apply (Hk (n :: anc) (n' :: anc')).
Qed.

(** X9. Stripping the badges.  The text of a question whose question-text
    element contains no answer-source badge is the trimmed text of that
    element, and the text of a choice whose label contains no correct- or
    wrong-answer badge is the trimmed text of the label; in every case, the
    tree the choice text is read from contains no correct- or wrong-answer
    badge any more. *)
Theorem badge_stripping (questionTextEl answerLabel : handle) :
  (querySelector (Sel (ByClass "answer-source-badge")) questionTextEl = None →
   questionTextOf questionTextEl = Js.trim (textContent questionTextEl))
  ∧ (querySelectorAll badgeSelector answerLabel = [] →
     choiceTextOf answerLabel = Js.trim (textContent answerLabel))
  ∧ querySelectorAll badgeSelector (removeAll badgeSelector (cloneNode answerLabel)) = [].
Proof.
  split; [|split].
  - unfold querySelector. intros H.
    assert (Hq : querySelectorAll (Sel (ByClass "answer-source-badge")) questionTextEl = [])
      by by destruct (querySelectorAll _ _).
    apply querySelectorAll_clone in Hq; [|done].
    unfold questionTextOf, removeFirst. by rewrite removeFirstIn_none.
  - intros H. apply querySelectorAll_clone in H; [|done].
    unfold choiceTextOf, removeAll, textContent. simpl. by rewrite removeAllIn_id.
  - unfold querySelectorAll, removeAll, cloneNode. cbn [ancestors self].
    by apply removeAllIn_clean.
Qed.

Lemma badge_stripping_witness :
  querySelector (Sel (ByClass "answer-source-badge")) Sample.capitalTextEl = None
  ∧ questionTextOf Sample.capitalTextEl = Js.trim (textContent Sample.capitalTextEl)
  ∧ querySelectorAll badgeSelector
      (Handle [] (Element "label" ["answer_label"] [] [Text " London "])) = []
  ∧ choiceTextOf (Handle [] (Element "label" ["answer_label"] [] [Text " London "]))
    = Js.trim (textContent
                 (Handle [] (Element "label" ["answer_label"] [] [Text " London "]))).
Proof.
  destruct (badge_stripping Sample.capitalTextEl
              (Handle [] (Element "label" ["answer_label"] [] [Text " London "])))
    as (HQ & HC & _).
  split; [reflexivity|]. split; [apply HQ; reflexivity|].
  split; [reflexivity|]. apply HC. reflexivity.
Defined.

(** ** The module that [updateCourseModule] appends *)

Lemma fold_max_ge (ids : list Z) (a : Z) :
  a ≤ fold_left Z.max ids a ∧ Forall (fun i => i ≤ fold_left Z.max ids a) ids.
Proof.
  revert a. induction ids as [|i ids IH]; simpl; intros a; [split; [lia | done]|].
  destruct (IH (Z.max a i)) as [H1 H2]. split; [lia|].
  constructor; [lia | done].
Qed.

Lemma fold_max_in (ids : list Z) (a : Z) :
  fold_left Z.max ids a = a ∨ In (fold_left Z.max ids a) ids.
Proof.
  revert a. induction ids as [|i ids IH]; simpl; intros a; [by left|].
  destruct (IH (Z.max a i)) as [H|H]; [|by right; right].
  rewrite H. destruct (Z.max_spec a i) as [[_ ->]|[_ ->]]; [right; by left | by left].
Qed.

Lemma nearestDouble_exact (n : Z) : 0 ≤ n ≤ 2 ^ 53 → Js.nearestDouble n = n.
Proof.
  intros [H0 Hn]. destruct (decide (n = 2 ^ 53)) as [->|Hne]; [reflexivity|].
  destruct (decide (n = 0)) as [->|Hpos]; [reflexivity|].
  assert (Hlog : Z.log2 n < 53) by (apply Z.log2_lt_pow2; lia).
  unfold Js.nearestDouble. rewrite Z.abs_eq by done.
  by rewrite (proj2 (Z.leb_le (Z.log2 n - 52) 0)) by lia.
Qed.

(** X10. What [updateCourseModule] does to the course it updates.  When some
    module of the course already lists the checkpoint, nothing; otherwise it
    appends one module and changes nothing else, and the module lists
    exactly the checkpoint.  When no id of the modules before it exceeds
    [Number.MAX_SAFE_INTEGER], the id of the new module is one more than the
    largest of them (1 when there is none or none is positive), so it is
    larger than all of them, and module ids that were distinct stay
    distinct.  (Beyond that bound the addition rounds, and the new id can
    repeat the largest one: see [module_id_repeats_from_2_53].) *)
Theorem addModule_appends_fresh_module (checkpointName : string) (course : Course.t) :
  match addModule checkpointName course with
  | None => courseHasCheckpoint checkpointName course = true
  | Some course' =>
      courseHasCheckpoint checkpointName course = false
      ∧ courseHasCheckpoint checkpointName course' = true
      ∧ Course.id course' = Course.id course
      ∧ Course.name course' = Course.name course
      ∧ ∃ n, Course.modules course'
             = Some (courseModules course
                       ++ [CourseModule.Make (Some n)
                             (displayName "_" "-" checkpointName)
                             (Some [checkpointName])])
             ∧ (Forall (fun m => moduleId m ≤ maxSafeInteger) (courseModules course) →
                1 ≤ n
                ∧ Forall (fun m => moduleId m < n) (courseModules course)
                ∧ (n = 1 ∨ In (n - 1) (map moduleId (courseModules course)))
                ∧ (NoDup (map moduleId (courseModules course)) →
                   NoDup (map moduleId (courseModules course'))))
  end.
Proof.
  unfold addModule, courseHasCheckpoint, courseModules.
  set (mods := default [] (Course.modules course)).
  destruct (existsb _ mods) eqn:E; simpl; [done|].
  split; [done|]. split.
  { rewrite existsb_app. simpl. unfold hasCheckpoint at 2. simpl.
    by rewrite String.eqb_refl, !orb_true_r. }
  split; [done|]. split; [done|].
  fold (moduleId). set (top := fold_left Z.max (map moduleId mods) 0).
  exists (Js.nearestDouble (top + 1)). split; [done|]. intros Hsafe.
  destruct (fold_max_ge (map moduleId mods) 0) as [H0 Hall]. fold top in H0, Hall.
  assert (Htop : top ≤ maxSafeInteger).
  { destruct (fold_max_in (map moduleId mods) 0) as [H|H]; fold top in H.
    - rewrite H. by compute.
    - apply in_map_iff in H as (m & <- & Hm).
      rewrite List.Forall_forall in Hsafe. by apply Hsafe. }
  rewrite nearestDouble_exact by (unfold maxSafeInteger in Htop; lia).
  set (n := top + 1).
  assert (Hlt : Forall (fun m => moduleId m < n) mods).
  { rewrite Forall_map in Hall. eapply Forall_impl; [done|]. simpl. subst n. lia. }
  split; [subst n; lia|]. split; [done|]. split.
  - destruct (fold_max_in (map moduleId mods) 0) as [H|H]; fold top in H.
    + left. subst n. lia.
    + right. subst n. by replace (top + 1 - 1) with top by lia.
  - intros Hnd. rewrite map_app. simpl. apply NoDup_app. split; [done|]. split.
    + intros i Hi ->%list_elem_of_singleton.
      apply list_elem_of_fmap in Hi as (m & Hm & Hin).
      rewrite List.Forall_forall in Hlt. apply list_elem_of_In in Hin.
      specialize (Hlt m Hin). simpl in Hlt.
      change (n = moduleId m) in Hm. lia.
    + apply NoDup_singleton.
Qed.

Lemma addModule_appends_fresh_module_witness :
  Forall (fun m => moduleId m ≤ maxSafeInteger)
         (courseModules (Sample2.devNet [Sample2.firstModule]))
  ∧ ∃ course',
      addModule "checkpoint2" (Sample2.devNet [Sample2.firstModule]) = Some course'
      ∧ NoDup (map moduleId (courseModules course')).
Proof.
  assert (Hsafe : Forall (fun m => moduleId m ≤ maxSafeInteger)
                         (courseModules (Sample2.devNet [Sample2.firstModule]))).
  { repeat constructor. by compute. }
  split; [done|].
  pose proof (addModule_appends_fresh_module "checkpoint2"
                (Sample2.devNet [Sample2.firstModule])) as H.
  destruct (addModule "checkpoint2" (Sample2.devNet [Sample2.firstModule]))
    as [course'|]; [|discriminate H].
  destruct H as (_ & _ & _ & _ & n & _ & Hfresh).
  exists course'. split; [done|].
  destruct (Hfresh Hsafe) as (_ & _ & _ & Hnd). apply Hnd.
  apply NoDup_singleton.
Defined.

(** ** [updateCourseModule] on the registry file *)

Lemma isCourse_eq courseFolder course :
  bool_decide (Course.id course = Some courseFolder) = isCourse courseFolder course.
Proof. done. Qed.

Lemma updateCourses_first courseFolder checkpointName courses course :
  firstCourse courseFolder courses = Some course →
  ∃ pre post,
    courses = pre ++ course :: post
    ∧ Forall (fun c => isCourse courseFolder c = false) pre
    ∧ isCourse courseFolder course = true
    ∧ updateCourses courseFolder checkpointName courses
      = (fun course' => pre ++ course' :: post) <$> addModule checkpointName course.
Proof.
  unfold firstCourse.
  induction courses as [|c courses IH]; simpl; [done|].
  rewrite isCourse_eq. destruct (isCourse courseFolder c) eqn:Ec.
  - intros [= ->]. exists [], courses. by rewrite Ec.
  - intros H. destruct (IH H) as (pre & post & -> & Hpre & Hc & Hu).
    exists (c :: pre), post. split; [done|]. split; [by constructor|].
    split; [done|]. rewrite Hu. by destruct (addModule checkpointName course).
Qed.

Lemma updateCourses_unregistered courseFolder checkpointName courses :
  firstCourse courseFolder courses = None →
  updateCourses courseFolder checkpointName courses = None.
Proof.
  unfold firstCourse.
  induction courses as [|c courses IH]; simpl; [done|].
  rewrite isCourse_eq. destruct (isCourse courseFolder c); [done|].
  intros H. by rewrite (IH H).
Qed.

Lemma addModule_None checkpointName course :
  addModule checkpointName course = None
  ↔ courseHasCheckpoint checkpointName course = true.
Proof.
  unfold addModule, courseHasCheckpoint, courseModules.
  by destruct (existsb _ _).
Qed.

Lemma addModule_Some checkpointName course course' :
  addModule checkpointName course = Some course' →
  courseHasCheckpoint checkpointName course' = true
  ∧ Course.id course' = Course.id course.
Proof.
  unfold addModule, courseHasCheckpoint, courseModules.
  destruct (existsb _ _); [done|]. simpl. intros [= <-]. simpl. split; [|done].
  rewrite existsb_app. simpl. unfold hasCheckpoint at 2. simpl.
  by rewrite String.eqb_refl, !orb_true_r.
Qed.

Lemma firstCourse_app courseFolder pre course post :
  Forall (fun c => isCourse courseFolder c = false) pre →
  isCourse courseFolder course = true →
  firstCourse courseFolder (pre ++ course :: post) = Some course.
Proof.
  unfold firstCourse. intros Hpre Hc.
  induction Hpre as [|c pre Hc' _ IH]; simpl; [by rewrite Hc|]. by rewrite Hc'.
Qed.

Lemma registryOf_Some d courses :
  registryOf d = Some courses ↔
  d !! "assets/courses.json" = Some (File (Registry courses)).
Proof.
  unfold registryOf.
  destruct (d !! "assets/courses.json") as [[|[]]|]; split; congruence.
Qed.

Lemma updateCourseModule_run courseFolder checkpointName d courses :
  registryOf d = Some courses →
  updateCourseModule courseFolder checkpointName d
  = match updateCourses courseFolder checkpointName courses with
    | Some courses' =>
        (Ok tt, <["assets/courses.json" := File (Registry courses')]> d)
    | None => (Ok tt, d)
    end.
Proof.
  intros H%registryOf_Some.
  unfold updateCourseModule, mbind, io_bind, existsSync, mret, io_ret, readCourses.
  cbn beta. rewrite H, bool_decide_eq_true_2 by done. simpl. rewrite ?H.
  destruct (updateCourses _ _ _); [|done]. unfold writeFileSync. by rewrite H.
Qed.

(** X11. [updateCourseModule] on a registry in which the course is
    registered and none of its modules lists the checkpoint: the run
    succeeds and rewrites the registry file, in which only the first course
    with that id has changed (by the module [addModule] appends); the courses
    before and after it, and their order, are as they were; afterwards the
    course is still the first with its id and lists the checkpoint. *)
Theorem updateCourseModule_registers (courseFolder checkpointName : string)
    (d : disk) (courses : list Course.t) (course : Course.t) :
  registryOf d = Some courses →
  firstCourse courseFolder courses = Some course →
  courseHasCheckpoint checkpointName course = false →
  ∃ pre post course',
    courses = pre ++ course :: post
    ∧ Forall (fun c => isCourse courseFolder c = false) pre
    ∧ addModule checkpointName course = Some course'
    ∧ updateCourseModule courseFolder checkpointName d
      = (Ok tt, <["assets/courses.json" := File (Registry (pre ++ course' :: post))]> d)
    ∧ firstCourse courseFolder (pre ++ course' :: post) = Some course'
    ∧ courseHasCheckpoint checkpointName course' = true.
Proof.
  intros Hd Hfirst Hcp.
  destruct (updateCourses_first courseFolder checkpointName courses course Hfirst)
    as (pre & post & -> & Hpre & Hc & Hu).
  destruct (addModule checkpointName course) as [course'|] eqn:Ea.
  2:{ apply addModule_None in Ea. congruence. }
  destruct (addModule_Some _ _ _ Ea) as [Hcp' Hid].
  exists pre, post, course'. split; [done|]. split; [done|]. split; [done|].
  split; [|split; [|done]].
  - rewrite (updateCourseModule_run _ _ _ _ Hd), Hu. done.
  - apply firstCourse_app; [done|]. unfold isCourse in *. by rewrite Hid.
Qed.

Lemma updateCourseModule_registers_witness :
  ∃ pre post course',
    [Sample2.devNet [Sample2.firstModule]] = pre ++ Sample2.devNet [Sample2.firstModule] :: post
    ∧ Forall (fun c => isCourse "dev-net" c = false) pre
    ∧ addModule "checkpoint2" (Sample2.devNet [Sample2.firstModule]) = Some course'
    ∧ updateCourseModule "dev-net" "checkpoint2"
        (Sample2.withRegistry [Sample2.devNet [Sample2.firstModule]])
      = (Ok tt, <["assets/courses.json" := File (Registry (pre ++ course' :: post))]>
                  (Sample2.withRegistry [Sample2.devNet [Sample2.firstModule]]))
    ∧ firstCourse "dev-net" (pre ++ course' :: post) = Some course'
    ∧ courseHasCheckpoint "checkpoint2" course' = true.
Proof.
  apply (updateCourseModule_registers "dev-net" "checkpoint2"
           (Sample2.withRegistry [Sample2.devNet [Sample2.firstModule]])
           [Sample2.devNet [Sample2.firstModule]]
           (Sample2.devNet [Sample2.firstModule])); reflexivity.
Defined.

(** X12. [updateCourseModule] never creates a registry or a course and never
    lists a checkpoint twice: unless the course is registered and none of
    its modules lists the checkpoint, the file system is left as it was,
    whether the registry file is missing, is no course list (the run
    throws), has no course with that id, or has the checkpoint already; and in
    all these cases but the unreadable file the run returns normally. *)
Theorem updateCourseModule_writes_nothing (courseFolder checkpointName : string)
    (d : disk) :
  pendingCourse courseFolder checkpointName d = None →
  (updateCourseModule courseFolder checkpointName d).2 = d
  ∧ (d !! "assets/courses.json" = None ∨ is_Some (registryOf d) →
     updateCourseModule courseFolder checkpointName d = (Ok tt, d)).
Proof.
  unfold pendingCourse. intros Hp.
  destruct (registryOf d) as [courses|] eqn:Hd.
  - rewrite (updateCourseModule_run _ _ _ _ Hd).
    destruct (firstCourse courseFolder courses) as [course|] eqn:Hf.
    + destruct (updateCourses_first courseFolder checkpointName courses course Hf)
        as (pre & post & -> & Hpre & Hc & ->).
      destruct (courseHasCheckpoint checkpointName course) eqn:Hcp; [|done].
      apply addModule_None in Hcp. by rewrite Hcp.
    + by rewrite updateCourses_unregistered.
  - unfold registryOf in Hd.
    unfold updateCourseModule, mbind, io_bind, existsSync, mret, io_ret, readCourses.
    cbn beta.
    destruct (d !! "assets/courses.json") as [[|[]]|] eqn:E; try done.
    + rewrite bool_decide_eq_true_2 by done. simpl. rewrite ?E. simpl.
      split; [done|]. intros [|[? ?]]; done.
    + rewrite bool_decide_eq_true_2 by done. simpl. rewrite ?E. simpl.
      split; [done|]. intros [|[? ?]]; done.
    + rewrite bool_decide_eq_true_2 by done. simpl. rewrite ?E. simpl.
      split; [done|]. intros [|[? ?]]; done.
Qed.

Lemma updateCourseModule_writes_nothing_witness :
  (updateCourseModule "dev-net" "checkpoint1"
     (Sample2.withRegistry [Sample2.devNet [Sample2.firstModule]])).2
  = Sample2.withRegistry [Sample2.devNet [Sample2.firstModule]]
  ∧ (updateCourseModule "net-sec" "checkpoint1"
       (Sample2.withRegistry [Sample2.devNet []])).2
    = Sample2.withRegistry [Sample2.devNet []].
Proof.
  split.
  - apply (updateCourseModule_writes_nothing "dev-net" "checkpoint1"
             (Sample2.withRegistry [Sample2.devNet [Sample2.firstModule]])).
    reflexivity.
  - apply (updateCourseModule_writes_nothing "net-sec" "checkpoint1"
             (Sample2.withRegistry [Sample2.devNet []])).
    reflexivity.
Defined.

(** ** [ensureCourseStructure] on the file system *)

Lemma length_rev_app (a b : string) :
  String.length (String.rev_app a b) = (String.length a + String.length b)%nat.
Proof.
  revert b. induction a as [|x a IH]; intros b; simpl; [done|].
  rewrite IH. simpl. lia.
Qed.

(** The directories above a path have shorter names. *)
Lemma parents_length (p seen q : string) :
  In q (parents seen p) →
  (String.length q < String.length seen + String.length p)%nat.
Proof.
  revert seen. induction p as [|a r IH]; intros seen; simpl; [done|].
  rewrite in_app_iff. intros [H|H].
  - destruct (Ascii.eqb a "/" && Js.truthy seen); [|done].
    destruct H as [<-|[]]. unfold String.rev. rewrite length_rev_app. simpl. lia.
  - apply IH in H. simpl in H. lia.
Qed.

(** A step that creates a directory adds directories, none with a longer
    name than the directory asked for, and changes nothing that was
    there. *)
Lemma dir_step_frame p (d : disk) r d1 :
  (if negb (bool_decide (is_Some (d !! p))) then mkdirSync p
   else (λ d0 : disk, (Ok (), d0))) d = (r, d1) →
  ∀ q, d1 !! q = d !! q
       ∨ (d !! q = None ∧ d1 !! q = Some Dir
          ∧ (String.length q ≤ String.length p)%nat).
Proof.
  case_bool_decide as E; simpl; [by intros [= <- <-]; left|].
  unfold mkdirSync. destruct (existsb _ _) eqn:Ex; [by intros [= <- <-]; left|].
  intros [= <- <-] q. rewrite lookup_mkdirs. case_bool_decide as Eq; [|by left].
  destruct (d !! q) as [[|f]|] eqn:Ed; [by left| |].
  - exfalso. apply not_true_iff_false in Ex. apply Ex, existsb_exists.
    exists q. split; [by apply list_elem_of_In|]. unfold isFile. by rewrite Ed.
  - right. split; [done|]. split; [done|].
    apply list_elem_of_In, in_app_iff in Eq as [Hq|[<-|[]]]; [|done].
    apply parents_length in Hq. simpl in Hq. lia.
Qed.

Lemma dir_step_dir p (d d1 : disk) :
  (if negb (bool_decide (is_Some (d !! p))) then mkdirSync p
   else (λ d0 : disk, (Ok (), d0))) d = (Ok tt, d1) →
  d1 !! p = Some Dir ∨ ∃ f, d !! p = Some (File f).
Proof.
  destruct (d !! p) as [[|f]|] eqn:E.
  - rewrite bool_decide_eq_true_2 by done. simpl. intros [= <-]. by left.
  - right. by exists f.
  - rewrite bool_decide_eq_false_2 by (by intros [? ?]). simpl.
    intros Hm. apply mkdirSync_ok in Hm as [H1 _]. by left.
Qed.

Lemma ensure_steps c d r d' :
  ensureCourseStructure c d = (r, d') →
  ∃ d2,
    (∀ q, d2 !! q = d !! q
          ∨ (d !! q = None ∧ d2 !! q = Some Dir
             ∧ (String.length q
                ≤ String.length (pathJoin (pathJoin "assets" c) "html")
                ∨ String.length q
                  ≤ String.length (pathJoin (pathJoin "assets" c) "json"))%nat))
    ∧ ((∃ e, r = Thrown e ∧ d' = d2)
       ∨ (r = Ok (pathJoin "assets" c,
                  pathJoin (pathJoin "assets" c) "html",
                  pathJoin (pathJoin "assets" c) "json")
          ∧ directoryUnlessFile d d2 (pathJoin (pathJoin "assets" c) "html")
          ∧ directoryUnlessFile d d2 (pathJoin (pathJoin "assets" c) "json")
          ∧ ∃ courses,
              coursesBefore d2 courses
              ∧ d' = if existsb (isCourse c) courses then d2
                     else <["assets/courses.json" :=
                              File (Registry (courses ++ [newCourse c]))]> d2)).
Proof.
  unfold ensureCourseStructure.
  set (html := pathJoin (pathJoin "assets" c) "html").
  set (json := pathJoin (pathJoin "assets" c) "json").
  change (pathJoin "assets" "courses.json") with "assets/courses.json".
  set (cf := "assets/courses.json").
  set (paths := (pathJoin "assets" c, html, json)).
  unfold mbind, io_bind, existsSync, mret, io_ret. cbn beta.
  pose proof (dir_step_frame html d) as F1.
  destruct (dir_step html d) as [(d1 & E1 & S1 & M1)|(e & E1 & N1)]; rewrite E1.
  2:{ intros [= <- <-]. exists d. split; [by left | left; eauto]. }
  specialize (F1 _ _ E1).
  pose proof (dir_step_frame json d1) as F2.
  destruct (dir_step json d1) as [(d2 & E2 & S2 & M2)|(e & E2 & N2)]; rewrite E2.
  2:{ intros [= <- <-]. exists d1. split; [|left; eauto].
      intros q. destruct (F1 q) as [?|(? & ? & ?)]; [by left | right; auto]. }
  specialize (F2 _ _ E2).
  assert (D1 : directoryUnlessFile d d2 html).
  { destruct (dir_step_dir html d d1 E1) as [H1|H1]; [left; by apply M2 | by right]. }
  assert (D2 : directoryUnlessFile d d2 json).
  { destruct (dir_step_dir json d1 d2 E2) as [H2|[f H2]]; [by left|]. right. exists f.
    destruct (F1 json) as [<-|(? & ? & ?)]; [done | congruence]. }
  assert (F : ∀ q, d2 !! q = d !! q
                   ∨ (d !! q = None ∧ d2 !! q = Some Dir
                      ∧ (String.length q ≤ String.length html
                         ∨ String.length q ≤ String.length json)%nat)).
  { intros q. destruct (F1 q) as [H1|(H1 & H1' & L1)], (F2 q) as [H2|(H2 & H2' & L2)].
    - left. congruence.
    - right. split; [congruence|]. split; [congruence | by right].
    - right. split; [congruence|]. split; [congruence | by left].
    - congruence. }
  intros H. exists d2. split; [done|].
  assert (Hrest : ∀ courses, coursesBefore d2 courses →
    (if negb (existsb (λ c0 : Course.t, bool_decide (Course.id c0 = Some c)) courses)
     then writeFileSync cf
            (Registry (courses ++ [Course.Make (Some c) (displayName "-" "_" c) (Some [])]))
     else λ d0 : disk, (Ok (), d0)) d2 = (Ok tt, d') →
    d' = if existsb (isCourse c) courses then d2
         else <[cf := File (Registry (courses ++ [newCourse c]))]> d2).
  { intros courses _. change (λ c0 : Course.t, bool_decide (Course.id c0 = Some c))
      with (isCourse c).
    destruct (existsb (isCourse c) courses); simpl; [congruence|].
    intros Hw. by apply writeFileSync_ok in Hw. }
  revert H.
  destruct ((if bool_decide (is_Some (d2 !! cf)) then readCourses cf
             else λ d0 : disk, (Ok [], d0)) d2) as [[courses|e] d3] eqn:Er.
  2:{ assert (d3 = d2) as ->.
      { destruct (bool_decide (is_Some (d2 !! cf))); [|congruence].
        unfold readCourses in Er. destruct (d2 !! cf) as [[|[]]|]; congruence. }
      intros [= <- <-]. left. eauto. }
  assert (d3 = d2 ∧ coursesBefore d2 courses) as [-> Hb].
  { unfold coursesBefore. fold cf. destruct (d2 !! cf) as [x|] eqn:Ed.
    - rewrite bool_decide_eq_true_2 in Er by done.
      unfold readCourses in Er. rewrite Ed in Er.
      destruct x as [|[]]; try done. injection Er as <- <-. by split; [|right].
    - rewrite bool_decide_eq_false_2 in Er by (by intros [? ?]).
      injection Er as <- <-. split; [done|]. by left. }
  match goal with |- context [(if ?b then ?w else ?k) d2] =>
    destruct ((if b then w else k) d2) as [[[]|e] d3] eqn:Ew end; cbn beta iota.
  - intros [= <- <-]. right. split; [done|]. split; [done|]. split; [done|].
    exists courses. split; [done|]. by apply Hrest.
  - intros [= <- <-]. left. exists e. split; [done|].
    revert Ew. destruct (existsb _ courses); simpl; [congruence|].
    apply writeFileSync_fail.
Qed.

Lemma existsb_isCourse_app c courses :
  existsb (isCourse c)
    (courses ++ (if existsb (isCourse c) courses then [] else [newCourse c])) = true.
Proof.
  destruct (existsb (isCourse c) courses) eqn:E; [by rewrite app_nil_r|].
  rewrite existsb_app. simpl. unfold isCourse at 2. simpl.
  by rewrite bool_decide_eq_true_2, orb_true_r.
Qed.

Lemma directoryUnlessFile_registry (c : string) (d d2 : disk)
    (courses : list Course.t) (p : string) :
  coursesBefore d2 courses →
  directoryUnlessFile d d2 p →
  directoryUnlessFile d
    (if existsb (isCourse c) courses then d2
     else <["assets/courses.json" := File (Registry (courses ++ [newCourse c]))]> d2) p.
Proof.
  intros Hc [Hd|Hf]; [|by right].
  destruct (existsb _ courses); [by left|].
  destruct (decide (p = "assets/courses.json")) as [->|Hne].
  - destruct Hc as [[Hn _]|Hr]; congruence.
  - left. by rewrite lookup_insert_ne.
Qed.

(** X13. A call of [ensureCourseStructure] that returns: it returns the three
    paths [path.join] gives for the course; the [html] and the [json] path
    hold a directory afterwards, unless a file was in the place of one
    before the call (the script then leaves the file where it is); the
    registry file holds the course list it held before (the empty list when
    there was no file), followed by a new entry for the course exactly when
    no entry had its id, so the entries that were there keep their content
    and order and the course is registered; and whatever else was on the
    file system is still there, unchanged. *)
Theorem ensureCourseStructure_registers (courseFolder : string) (d d' : disk)
    (dirs : string * string * string) :
  ensureCourseStructure courseFolder d = (Ok dirs, d') →
  dirs = (pathJoin "assets" courseFolder,
          pathJoin (pathJoin "assets" courseFolder) "html",
          pathJoin (pathJoin "assets" courseFolder) "json")
  ∧ directoryUnlessFile d d' (pathJoin (pathJoin "assets" courseFolder) "html")
  ∧ directoryUnlessFile d d' (pathJoin (pathJoin "assets" courseFolder) "json")
  ∧ (∃ courses,
        coursesBefore d courses
        ∧ registryOf d'
          = Some (courses ++ (if existsb (isCourse courseFolder) courses then []
                              else [newCourse courseFolder]))
        ∧ existsb (isCourse courseFolder)
            (courses ++ (if existsb (isCourse courseFolder) courses then []
                         else [newCourse courseFolder])) = true)
  ∧ (∀ p x, p ≠ "assets/courses.json" → d !! p = Some x → d' !! p = Some x).
Proof.
  intros H. destruct (ensure_steps _ _ _ _ H) as (d2 & F & [(e & ? & _)|Hok]); [done|].
  destruct Hok as ([= ->] & D1 & D2 & courses & Hc & ->).
  split; [done|].
  assert (Hc' : coursesBefore d courses).
  { destruct Hc as [[Hn ->]|Hr].
    - left. split; [|done].
      destruct (F "assets/courses.json") as [<-|(? & ? & ?)]; done.
    - right. destruct (F "assets/courses.json") as [<-|(? & ? & ?)]; [done | congruence]. }
  split; [by apply directoryUnlessFile_registry|].
  split; [by apply directoryUnlessFile_registry|].
  split.
  - exists courses. split; [done|]. split; [|apply existsb_isCourse_app].
    apply registryOf_Some.
    destruct (existsb (isCourse courseFolder) courses) eqn:E.
    + rewrite app_nil_r. destruct Hc as [[_ ->]|Hr]; [done | done].
    + apply lookup_insert_eq.
  - intros p x Hp Hx.
    assert (d2 !! p = Some x) by (destruct (F p) as [->|(? & ? & ?)]; congruence).
    destruct (existsb _ courses); [done | by rewrite lookup_insert_ne].
Qed.

Lemma ensureCourseStructure_registers_witness :
  (ensureCourseStructure "dev-net" ∅).1
  = Ok ("assets/dev-net", "assets/dev-net/html", "assets/dev-net/json")
  ∧ directoryUnlessFile ∅ (ensureCourseStructure "dev-net" ∅).2 "assets/dev-net/html"
  ∧ directoryUnlessFile ∅ (ensureCourseStructure "dev-net" ∅).2 "assets/dev-net/json".
Proof.
  split; [reflexivity|].
  assert (E : ensureCourseStructure "dev-net" ∅
              = (Ok ("assets/dev-net", "assets/dev-net/html", "assets/dev-net/json"),
                 (ensureCourseStructure "dev-net" ∅).2)) by reflexivity.
  destruct (ensureCourseStructure_registers "dev-net" ∅ _ _ E)
    as (_ & Hhtml & Hjson & _).
  by split.
Defined.

(** ** The two scripts from their command line *)

(** X14. A run of the strict script writes its output file or nothing.  When
    it ends with its summary, there was a checkpoint name and a page of that
    name, the summary is the one of that page, and the file system differs
    from the one before only at the output path, which holds the records of
    the page, whatever it held before.  When it exits with status 1, the
    name was missing or empty or there was no page of that name, and the
    file system is as it was.  When it throws, the page was there (it could
    not be read, or the output could not be written) and the file system is
    as it was. *)
Theorem A_run_writes_one_file_or_nothing (raises : node → bool)
    (argv : list string) (d : disk) :
  match A.main raises argv d with
  | (Ok (Exit0 rep), d') =>
      ∃ name doc,
        head argv = Some name ∧ name ≠ ""
        ∧ d !! A.htmlPath name = Some (File (Page doc))
        ∧ rep = A.summary (readStats doc) (A.extract raises doc)
        ∧ d' = <[A.jsonPath name := File (Questions (A.extract raises doc))]> d
  | (Ok Exit1, d') =>
      d' = d
      ∧ match head argv with
        | Some name => name = "" ∨ d !! A.htmlPath name = None
        | None => True
        end
  | (Thrown e, d') =>
      d' = d ∧ ∃ name, head argv = Some name ∧ is_Some (d !! A.htmlPath name)
  end.
Proof.
  destruct argv as [|name rest]; [done|].
  unfold A.main. destruct (Js.truthy name) eqn:Ht.
  2:{ simpl. split; [done|]. left. by destruct name. }
  assert (Hname : name ≠ "") by (by destruct name).
  unfold mbind, io_bind, existsSync, readPage, mret, io_ret. cbn beta.
  destruct (d !! A.htmlPath name) as [x|] eqn:Ed.
  2:{ rewrite bool_decide_eq_false_2 by (by intros [? ?]). simpl.
      split; [done|]. by right. }
  rewrite bool_decide_eq_true_2 by done. cbn [negb].
  assert (Hthrown : d = d ∧ ∃ name0, head (name :: rest) = Some name0
                               ∧ is_Some (d !! A.htmlPath name0)).
  { split; [done|]. exists name. by rewrite Ed. }
  cbn beta iota. rewrite Ed.
  destruct x as [|[courses|records|doc]]; cbn beta iota; try done.
  destruct (writeFileSync _ _ d) as [[[]|e] d1] eqn:Ew; cbn beta iota.
  - apply writeFileSync_ok in Ew as ->. by exists name, doc.
  - by apply writeFileSync_fail in Ew as ->.
Qed.

(** X15. The fatal checks on the command line.  The strict script exits with
    status 1, without touching the file system, when its first argument is
    missing or empty and when there is no page of that name; the tolerant
    script does when one of its two arguments is missing or empty, and then
    not even the course structure is created. *)
Theorem missing_arguments_exit_1 (raises : node → bool) (argv : list string)
    (d : disk) :
  (argv !! 0%nat = None ∨ argv !! 0%nat = Some "" →
   A.main raises argv d = (Ok Exit1, d))
  ∧ (∀ name, argv !! 0%nat = Some name → d !! A.htmlPath name = None →
     A.main raises argv d = (Ok Exit1, d))
  ∧ (argv !! 0%nat = None ∨ argv !! 0%nat = Some ""
     ∨ argv !! 1%nat = None ∨ argv !! 1%nat = Some "" →
     B.main raises argv d = (Ok Exit1, d)).
Proof.
  split; [|split].
  - destruct argv as [|[|a name] rest]; simpl; [done..|]. intros [|]; done.
  - intros name. destruct argv as [|name' rest]; simpl; [done|].
    intros [= ->] Hd. unfold A.main. destruct (Js.truthy name); [|done].
    unfold mbind, io_bind, existsSync, mret, io_ret. cbn beta.
    by rewrite Hd.
  - destruct argv as [|[|a c] [|[|b cp] rest]]; simpl; try done.
    intros [|[|[|]]]; done.
Qed.

Lemma missing_arguments_exit_1_witness :
  A.main sound [] ∅ = (Ok Exit1, ∅)
  ∧ A.main sound ["checkpoint1"] ∅ = (Ok Exit1, ∅)
  ∧ B.main sound ["dev-net"] ∅ = (Ok Exit1, ∅).
Proof.
  split; [|split].
  - apply (missing_arguments_exit_1 sound [] ∅). by left.
  - by apply (proj1 (proj2 (missing_arguments_exit_1 sound ["checkpoint1"] ∅))
                "checkpoint1").
  - apply (missing_arguments_exit_1 sound ["dev-net"] ∅). right. right. by left.
Defined.

Lemma htmlPath_not_registry courseFolder checkpointName :
  plainName courseFolder = true → noSlash checkpointName = true →
  B.htmlPath (pathJoin (pathJoin "assets" courseFolder) "html") checkpointName
  ≠ "assets/courses.json".
Proof.
  intros Hc Hp H. destruct (B_paths _ _ Hc Hp) as (_ & _ & _ & E & _).
  rewrite E in H. apply (f_equal slashes) in H.
  rewrite !slashes_app in H. simpl in H. lia.
Qed.

Lemma htmlPath_not_jsonPath c cp :
  plainName c = true → noSlash cp = true →
  B.htmlPath (pathJoin (pathJoin "assets" c) "html") cp
  ≠ B.jsonPath (pathJoin (pathJoin "assets" c) "json") cp.
Proof.
  intros Hc Hp. destruct (B_paths _ _ Hc Hp) as (_ & _ & _ & -> & ->).
  rewrite !append_assoc.
  intros E. apply String.app_inj in E. apply String.app_inj in E.
  apply String.app_inj in E. done.
Qed.

(** The page and the output file have longer names than the two
    directories. *)
Lemma B_paths_below c cp :
  plainName c = true → noSlash cp = true →
  let html := pathJoin (pathJoin "assets" c) "html" in
  let json := pathJoin (pathJoin "assets" c) "json" in
  (String.length html < String.length (B.htmlPath html cp))%nat
  ∧ (String.length json < String.length (B.htmlPath html cp))%nat
  ∧ (String.length html < String.length (B.jsonPath json cp))%nat
  ∧ (String.length json < String.length (B.jsonPath json cp))%nat.
Proof.
  intros Hc Hp. destruct (B_paths _ _ Hc Hp) as (_ & Hh & Hj & Eh & Ej).
  cbv zeta. rewrite Eh, Ej, Hh, Hj, !length_append. simpl. lia.
Qed.

(** The two directories are neither the registry nor the output file. *)
Lemma B_dirs_apart c cp :
  plainName c = true → noSlash cp = true →
  let html := pathJoin (pathJoin "assets" c) "html" in
  let json := pathJoin (pathJoin "assets" c) "json" in
  html ≠ "assets/courses.json" ∧ json ≠ "assets/courses.json"
  ∧ html ≠ B.jsonPath json cp ∧ json ≠ B.jsonPath json cp.
Proof.
  intros Hc Hp. destruct (B_paths_below _ _ Hc Hp) as (_ & _ & L3 & L4).
  destruct (B_paths _ _ Hc Hp) as (_ & Hh & Hj & _ & _). cbv zeta in *.
  split; [|split; [|split]].
  - rewrite Hh. intros H. apply (f_equal slashes) in H.
    rewrite !slashes_app in H. simpl in H. lia.
  - rewrite Hj. intros H. apply (f_equal slashes) in H.
    rewrite !slashes_app in H. simpl in H. lia.
  - intros H. rewrite <- H in L3. lia.
  - intros H. rewrite <- H in L4. lia.
Qed.

(** [ensureCourseStructure] leaves alone what is below the two directories. *)
Lemma ensure_below c d r d1 p :
  ensureCourseStructure c d = (r, d1) →
  p ≠ "assets/courses.json" →
  (String.length (pathJoin (pathJoin "assets" c) "html") < String.length p)%nat →
  (String.length (pathJoin (pathJoin "assets" c) "json") < String.length p)%nat →
  d1 !! p = d !! p.
Proof.
  intros H Hp Hlen Hlen'. destruct (ensure_steps _ _ _ _ H) as (d2 & F & Hr).
  assert (d2 !! p = d !! p) as <-.
  { destruct (F p) as [?|(? & ? & ?)]; [done | lia]. }
  destruct Hr as [(e & _ & ->)|(_ & _ & _ & courses & _ & ->)]; [done|].
  destruct (existsb _ courses); [done | by rewrite lookup_insert_ne].
Qed.

(** [ensureCourseStructure] keeps what was there, the registry apart. *)
Lemma ensure_keeps c d r d1 p x :
  ensureCourseStructure c d = (r, d1) →
  p ≠ "assets/courses.json" → d !! p = Some x → d1 !! p = Some x.
Proof.
  intros H Hp Hx. destruct (ensure_steps _ _ _ _ H) as (d2 & F & Hr).
  assert (d2 !! p = Some x).
  { destruct (F p) as [?|(? & ? & ?)]; congruence. }
  destruct Hr as [(e & _ & ->)|(_ & _ & _ & courses & _ & ->)]; [done|].
  destruct (existsb _ courses); [done | by rewrite lookup_insert_ne].
Qed.

Lemma ensure_registered c d dirs d1 :
  ensureCourseStructure c d = (Ok dirs, d1) →
  ∃ courses, registryOf d1 = Some courses ∧ existsb (isCourse c) courses = true.
Proof.
  intros H. destruct (ensure_steps _ _ _ _ H) as (d2 & F & [(e & ? & _)|Hok]); [done|].
  destruct Hok as (_ & _ & _ & courses & Hc & ->).
  destruct (existsb (isCourse c) courses) eqn:E.
  - exists courses. split; [|done]. apply registryOf_Some.
    destruct Hc as [[_ ->]|Hr]; done.
  - exists (courses ++ [newCourse c]). split.
    + apply registryOf_Some, lookup_insert_eq.
    + pose proof (existsb_isCourse_app c courses) as Hx. by rewrite E in Hx.
Qed.

Lemma ensure_dirs c d dirs d1 :
  ensureCourseStructure c d = (Ok dirs, d1) →
  directoryUnlessFile d d1 (pathJoin (pathJoin "assets" c) "html")
  ∧ directoryUnlessFile d d1 (pathJoin (pathJoin "assets" c) "json").
Proof.
  intros H. destruct (ensure_steps _ _ _ _ H) as (d2 & F & [(e & ? & _)|Hok]); [done|].
  destruct Hok as (_ & D1 & D2 & courses & Hc & ->).
  split; by apply directoryUnlessFile_registry.
Qed.

Lemma firstCourse_registered c courses :
  existsb (isCourse c) courses = true → is_Some (firstCourse c courses).
Proof.
  unfold firstCourse. induction courses as [|x courses IH]; simpl; [done|].
  destruct (isCourse c x); [by eexists | done].
Qed.

(** [updateCourseModule] on a registry in which the course is registered. *)
Lemma update_registered c cp d courses :
  registryOf d = Some courses →
  existsb (isCourse c) courses = true →
  ∃ d' courses' course',
    updateCourseModule c cp d = (Ok tt, d')
    ∧ registryOf d' = Some courses'
    ∧ firstCourse c courses' = Some course'
    ∧ courseHasCheckpoint cp course' = true.
Proof.
  intros Hd [course Hf]%firstCourse_registered.
  rewrite (updateCourseModule_run _ _ _ _ Hd).
  destruct (updateCourses_first c cp courses course Hf)
    as (pre & post & -> & Hpre & Hc & ->).
  destruct (addModule cp course) as [course'|] eqn:Ea; simpl.
  - destruct (addModule_Some _ _ _ Ea) as [Hcp Hid].
    eexists _, (pre ++ course' :: post), course'. split; [done|].
    split; [apply registryOf_Some, lookup_insert_eq|]. split; [|done].
    apply firstCourse_app; [done|]. unfold isCourse in *. by rewrite Hid.
  - apply addModule_None in Ea. by exists d, (pre ++ course :: post), course.
Qed.

(** The steps of a run of the tolerant script that got its two arguments. *)
Lemma B_main_steps raises c cp rest d r d' :
  Js.truthy c = true → Js.truthy cp = true →
  B.main raises (c :: cp :: rest) d = (r, d') →
  ∃ re d1,
    ensureCourseStructure c d = (re, d1)
    ∧ ((d' = d1 ∧ (∀ rep, r ≠ Ok (Exit0 rep))
        ∧ (r = Ok Exit1 →
           d1 !! B.htmlPath (pathJoin (pathJoin "assets" c) "html") cp = None))
       ∨ ∃ doc ru,
           d1 !! B.htmlPath (pathJoin (pathJoin "assets" c) "html") cp
           = Some (File (Page doc))
           ∧ updateCourseModule c cp
               (<[B.jsonPath (pathJoin (pathJoin "assets" c) "json") cp :=
                    File (Questions (B.extractedQuestions (B.extract raises doc)))]> d1)
             = (ru, d')
           ∧ r = match ru with
                 | Ok _ => Ok (Exit0 (B.summary (readStats doc) (B.extract raises doc)))
                 | Thrown e => Thrown e
                 end).
Proof.
  intros Hc Hp. unfold B.main. rewrite Hc, Hp. cbn [andb].
  unfold mbind at 1. unfold io_bind at 1.
  destruct (ensureCourseStructure c d) as [[dirs|e] d1] eqn:He.
  2:{ intros [= <- <-]. exists (Thrown e), d1. split; [done|]. left. done. }
  apply ensureCourseStructure_paths in He as Hdirs. subst dirs.
  unfold mbind, io_bind, existsSync, readPage, mret, io_ret. cbn beta.
  set (htmlPath := B.htmlPath _ cp). set (jsonPath := B.jsonPath _ cp).
  intros H. eexists _, d1. split; [done|]. revert H.
  destruct (d1 !! htmlPath) as [x|] eqn:Ed.
  2:{ simpl. intros [= <- <-]. left. done. }
  rewrite bool_decide_eq_true_2 by done. cbn [negb]. cbn beta iota. rewrite Ed.
  destruct x as [|[courses|records|doc]]; try (intros [= <- <-]; left; done).
  destruct (writeFileSync jsonPath _ d1) as [[[]|e] d2] eqn:Ew; cbn beta iota.
  2:{ apply writeFileSync_fail in Ew as ->. intros [= <- <-]. left. done. }
  apply writeFileSync_ok in Ew as ->.
  destruct (updateCourseModule c cp _) as [[[]|e] d3] eqn:Eu;
    intros [= <- <-]; right; exists doc; eexists; done.
Qed.

(** X16. The tolerant script on a missing page.  For a plain course folder
    name and a checkpoint name without a slash, both not empty, and no page
    of that name, a run in which [ensureCourseStructure] returns exits with
    status 1 and writes no output file; but the course structure has been
    set up by then: the file system is the one [ensureCourseStructure]
    leaves, in which the course is registered. *)
Theorem B_missing_page_after_setup (raises : node → bool)
    (courseFolder checkpointName : string) (rest : list string) (d d1 : disk)
    (dirs : string * string * string) :
  plainName courseFolder = true →
  noSlash checkpointName = true →
  Js.truthy checkpointName = true →
  d !! B.htmlPath (pathJoin (pathJoin "assets" courseFolder) "html") checkpointName
  = None →
  ensureCourseStructure courseFolder d = (Ok dirs, d1) →
  B.main raises (courseFolder :: checkpointName :: rest) d = (Ok Exit1, d1)
  ∧ d1 !! B.jsonPath (pathJoin (pathJoin "assets" courseFolder) "json") checkpointName
    = d !! B.jsonPath (pathJoin (pathJoin "assets" courseFolder) "json") checkpointName
  ∧ ∃ courses, registryOf d1 = Some courses
               ∧ existsb (isCourse courseFolder) courses = true.
Proof.
  intros Hplain Hns Hp Hd He.
  destruct (plainName_inv _ Hplain) as (Hc & _).
  destruct (B_paths_below _ _ Hplain Hns) as (L1 & L2 & L3 & L4).
  split; [|split].
  - unfold B.main. rewrite Hc, Hp. cbn [andb].
    unfold mbind at 1. unfold io_bind at 1. rewrite He.
    apply ensureCourseStructure_paths in He as Hdirs. subst dirs.
    unfold mbind, io_bind, existsSync, mret, io_ret. cbn beta.
    rewrite (ensure_below _ _ _ _ _ He (htmlPath_not_registry _ _ Hplain Hns) L1 L2).
    by rewrite Hd.
  - apply (ensure_below _ _ _ _ _ He (jsonPath_not_registry _ _ Hplain Hns) L3 L4).
  - by apply (ensure_registered _ _ _ _ He).
Qed.

Lemma B_missing_page_after_setup_witness :
  B.main sound ["dev-net"; "checkpoint1"] ∅
  = (Ok Exit1, (ensureCourseStructure "dev-net" ∅).2).
Proof.
  apply (B_missing_page_after_setup sound "dev-net" "checkpoint1" [] ∅
           (ensureCourseStructure "dev-net" ∅).2
           ("assets/dev-net", "assets/dev-net/html", "assets/dev-net/json"));
    reflexivity.
Defined.

(** X17. A run of the tolerant script that ends with its summary, for a
    plain course folder name and a checkpoint name without a slash.  The
    page was on the file system before the run and is still there; the
    summary is the one of that page; the output file holds the records of
    the page; the course is registered and the first course with its id has
    a module that lists the checkpoint; the [html] and the [json] path of
    the course hold a directory, unless a file was in the place of one
    before the run. *)
Theorem B_run_registers_checkpoint (raises : node → bool)
    (courseFolder checkpointName : string) (rest : list string) (d d' : disk)
    (rep : report) :
  plainName courseFolder = true →
  noSlash checkpointName = true →
  B.main raises (courseFolder :: checkpointName :: rest) d = (Ok (Exit0 rep), d') →
  ∃ doc,
    d !! B.htmlPath (pathJoin (pathJoin "assets" courseFolder) "html") checkpointName
    = Some (File (Page doc))
    ∧ d' !! B.htmlPath (pathJoin (pathJoin "assets" courseFolder) "html") checkpointName
      = Some (File (Page doc))
    ∧ rep = B.summary (readStats doc) (B.extract raises doc)
    ∧ d' !! B.jsonPath (pathJoin (pathJoin "assets" courseFolder) "json") checkpointName
      = Some (File (Questions (B.extractedQuestions (B.extract raises doc))))
    ∧ (∃ courses course,
          registryOf d' = Some courses
          ∧ firstCourse courseFolder courses = Some course
          ∧ courseHasCheckpoint checkpointName course = true)
    ∧ directoryUnlessFile d d' (pathJoin (pathJoin "assets" courseFolder) "html")
    ∧ directoryUnlessFile d d' (pathJoin (pathJoin "assets" courseFolder) "json").
Proof.
  intros Hplain Hns H.
  assert (Js.truthy courseFolder = true ∧ Js.truthy checkpointName = true) as [Hc Hp].
  { unfold B.main in H.
    destruct (Js.truthy courseFolder), (Js.truthy checkpointName); done. }
  destruct (B_main_steps _ _ _ _ _ _ _ Hc Hp H) as (re & d1 & He & Hsteps).
  destruct Hsteps as [(_ & Hno & _)|(doc & ru & Hd & Hu & Hr)]; [by destruct (Hno rep)|].
  destruct ru as [[]|e]; [|done]. injection Hr as ->.
  destruct (B_paths_below _ _ Hplain Hns) as (L1 & L2 & L3 & L4).
  destruct (B_dirs_apart _ _ Hplain Hns) as (A1 & A2 & A3 & A4).
  pose proof (htmlPath_not_registry _ _ Hplain Hns) as Nh.
  pose proof (jsonPath_not_registry _ _ Hplain Hns) as Nj.
  pose proof (htmlPath_not_jsonPath _ _ Hplain Hns) as Hne.
  cbv zeta in L1, L2, L3, L4, A1, A2, A3, A4.
  set (html := pathJoin (pathJoin "assets" courseFolder) "html") in *.
  set (json := pathJoin (pathJoin "assets" courseFolder) "json") in *.
  destruct re as [dirs|e].
  2:{ destruct (ensure_steps _ _ _ _ He) as (d2 & F & [(e' & _ & ->)|(? & _)]); [|done].
      exfalso. unfold B.main in H. rewrite Hc, Hp in H. cbn [andb] in H.
      unfold mbind at 1 in H. unfold io_bind at 1 in H. by rewrite He in H. }
  assert (Hpage : d !! B.htmlPath html checkpointName = Some (File (Page doc))).
  { by rewrite <- (ensure_below _ _ _ _ (B.htmlPath html checkpointName) He Nh L1 L2). }
  assert (Hkeep : ∀ p, p ≠ "assets/courses.json" → p ≠ B.jsonPath json checkpointName →
                       d' !! p = d1 !! p).
  { intros p Hp1 Hp2. rewrite (updateCourseModule_elsewhere _ _ _ _ _ _ Hu Hp1).
    by rewrite lookup_insert_ne. }
  exists doc. split; [done|]. split; [by rewrite Hkeep|].
  split; [done|]. split.
  { rewrite (updateCourseModule_elsewhere _ _ _ _ _ _ Hu Nj). apply lookup_insert_eq. }
  destruct (ensure_registered _ _ _ _ He) as (courses & Hreg & Hex).
  destruct (ensure_dirs _ _ _ _ He) as [D1 D2]. fold html json in D1, D2.
  split; [|split].
  - set (d3 := <[B.jsonPath json checkpointName := _]> d1) in Hu.
    assert (Hreg3 : registryOf d3 = Some courses).
    { apply registryOf_Some. unfold d3. rewrite lookup_insert_ne by done.
      by apply registryOf_Some. }
    destruct (update_registered courseFolder checkpointName d3 courses Hreg3 Hex)
      as (d4 & courses' & course' & Hu' & Hreg' & Hf & Hcp).
    rewrite Hu in Hu'. injection Hu' as <-. by exists courses', course'.
  - destruct D1 as [D1|D1]; [left | by right]. by rewrite Hkeep.
  - destruct D2 as [D2|D2]; [left | by right]. by rewrite Hkeep.
Qed.

Lemma B_run_registers_checkpoint_witness :
  ∃ doc,
    Sample2.savedPage !! "assets/dev-net/html/checkpoint1.html" = Some (File (Page doc))
    ∧ (B.main sound ["dev-net"; "checkpoint1"] Sample2.savedPage).2
        !! "assets/dev-net/html/checkpoint1.html"
      = Some (File (Page doc))
    ∧ B.summary (readStats Sample.page) (B.extract sound Sample.page)
      = B.summary (readStats doc) (B.extract sound doc)
    ∧ (B.main sound ["dev-net"; "checkpoint1"] Sample2.savedPage).2
        !! "assets/dev-net/json/checkpoint1.json"
      = Some (File (Questions (B.extractedQuestions (B.extract sound doc))))
    ∧ (∃ courses course,
          registryOf (B.main sound ["dev-net"; "checkpoint1"] Sample2.savedPage).2
          = Some courses
          ∧ firstCourse "dev-net" courses = Some course
          ∧ courseHasCheckpoint "checkpoint1" course = true)
    ∧ directoryUnlessFile Sample2.savedPage
        (B.main sound ["dev-net"; "checkpoint1"] Sample2.savedPage).2
        "assets/dev-net/html"
    ∧ directoryUnlessFile Sample2.savedPage
        (B.main sound ["dev-net"; "checkpoint1"] Sample2.savedPage).2
        "assets/dev-net/json".
Proof.
  apply (B_run_registers_checkpoint sound "dev-net" "checkpoint1" []
           Sample2.savedPage
           (B.main sound ["dev-net"; "checkpoint1"] Sample2.savedPage).2
           (B.summary (readStats Sample.page) (B.extract sound Sample.page)));
    reflexivity.
Defined.

(** [ensureCourseStructure] only adds directories, the registry apart. *)
Lemma ensure_frame c d r d1 p :
  ensureCourseStructure c d = (r, d1) →
  p ≠ "assets/courses.json" →
  d1 !! p = d !! p ∨ (d !! p = None ∧ d1 !! p = Some Dir).
Proof.
  intros H Hp. destruct (ensure_steps _ _ _ _ H) as (d2 & F & Hr).
  assert (d1 !! p = d2 !! p) as ->.
  { destruct Hr as [(e & _ & ->)|(_ & _ & _ & courses & _ & ->)]; [done|].
    destruct (existsb _ courses); [done | by rewrite lookup_insert_ne]. }
  destruct (F p) as [?|(? & ? & ?)]; [by left | by right].
Qed.

(** X18. What a run of the tolerant script may touch.  For a plain course
    folder name and a checkpoint name without a slash, however the run ends,
    at every path but its output file and the registry file the file system
    holds afterwards what it held before, or a directory where there was
    nothing: no other file is written, changed or removed, and in
    particular the saved page is left as it was. *)
Theorem B_run_keeps_other_files (raises : node → bool)
    (courseFolder checkpointName : string) (rest : list string) (d : disk)
    (p : string) :
  plainName courseFolder = true →
  noSlash checkpointName = true →
  p ≠ "assets/courses.json" →
  p ≠ B.jsonPath (pathJoin (pathJoin "assets" courseFolder) "json") checkpointName →
  (B.main raises (courseFolder :: checkpointName :: rest) d).2 !! p = d !! p
  ∨ (d !! p = None
     ∧ (B.main raises (courseFolder :: checkpointName :: rest) d).2 !! p = Some Dir).
Proof.
  intros _ _ Hreg Hout.
  destruct (Js.truthy courseFolder && Js.truthy checkpointName) eqn:Hargs.
  2:{ left. unfold B.main. by rewrite Hargs. }
  apply andb_true_iff in Hargs as [Hc Hp].
  destruct (B.main raises _ d) as [r d'] eqn:H.
  destruct (B_main_steps _ _ _ _ _ _ _ Hc Hp H) as (re & d1 & He & Hsteps).
  cbn [snd].
  destruct Hsteps as [(-> & _)|(doc & ru & _ & Hu & _)].
  - by apply (ensure_frame _ _ _ _ _ He).
  - rewrite (updateCourseModule_elsewhere _ _ _ _ _ _ Hu Hreg).
    rewrite lookup_insert_ne by done. by apply (ensure_frame _ _ _ _ _ He).
Qed.

Lemma B_run_keeps_other_files_witness :
  (B.main sound ["dev-net"; "checkpoint1"] Sample2.savedPage).2
    !! "assets/dev-net/html/checkpoint1.html"
  = Sample2.savedPage !! "assets/dev-net/html/checkpoint1.html"
  ∨ (Sample2.savedPage !! "assets/dev-net/html/checkpoint1.html" = None
     ∧ (B.main sound ["dev-net"; "checkpoint1"] Sample2.savedPage).2
         !! "assets/dev-net/html/checkpoint1.html" = Some Dir).
Proof.
  apply (B_run_keeps_other_files sound "dev-net" "checkpoint1" [] Sample2.savedPage
           "assets/dev-net/html/checkpoint1.html"); (reflexivity || discriminate).
Defined.

(** ** Display names *)

Lemma replaceChar_comm (s : string) :
  Js.replaceChar "_" (Js.replaceChar "-" s) = Js.replaceChar "-" (Js.replaceChar "_" s).
Proof.
  induction s as [|a s IH]; simpl; [done|]. rewrite IH. f_equal.
  destruct (Ascii.eqb_spec a "-") as [->|H1]; [done|].
  destruct (Ascii.eqb_spec a "_") as [->|H2]; [done|].
  destruct (Ascii.eqb_spec a "-"), (Ascii.eqb_spec a "_"); done.
Qed.

Lemma capitalize_char_word (a : ascii) (b : bool) :
  Js.isWordChar (if Js.isWordChar a && negb b then Js.upperChar a else a)
  = Js.isWordChar a.
Proof. destruct a as [[] [] [] [] [] [] [] []], b; reflexivity. Qed.

Lemma capitalize_char_again (a : ascii) (b : bool) :
  let a' := if Js.isWordChar a && negb b then Js.upperChar a else a in
  (if Js.isWordChar a' && negb b then Js.upperChar a' else a') = a'.
Proof. destruct a as [[] [] [] [] [] [] [] []], b; reflexivity. Qed.

Lemma capitalize_again (b : bool) (s : string) :
  Js.capitalize b (Js.capitalize b s) = Js.capitalize b s.
Proof.
  revert b. induction s as [|a s IH]; intros b; simpl; [done|].
  f_equal; [apply capitalize_char_again | rewrite capitalize_char_word; apply IH].
Qed.

Lemma capitalize_char_separator (a : ascii) (b : bool) :
  a ≠ "-"%char → a ≠ "_"%char →
  (if Js.isWordChar a && negb b then Js.upperChar a else a) ≠ "-"%char
  ∧ (if Js.isWordChar a && negb b then Js.upperChar a else a) ≠ "_"%char.
Proof.
  destruct a as [[] [] [] [] [] [] [] []], b; intros H1 H2; split; done.
Qed.

(** The characters of a string. *)
Lemma get_cons (i : nat) (a x : ascii) (s : string) :
  String.get i (String x s) = Some a →
  (i = 0%nat ∧ x = a) ∨ ∃ j, i = S j ∧ String.get j s = Some a.
Proof. destruct i as [|j]; simpl; [intros [= ->]; by left | right; eauto]. Qed.

Lemma replaced_get (s : string) (i : nat) (a : ascii) :
  String.get i (Js.replaceChar "_" (Js.replaceChar "-" s)) = Some a →
  a ≠ "-"%char ∧ a ≠ "_"%char.
Proof.
  revert i. induction s as [|x s IH]; intros i; simpl; [by destruct i|].
  intros [[_ <-]|(j & _ & H)]%get_cons; [|by apply (IH j)].
  destruct (Ascii.eqb_spec x "-") as [->|H1]; [done|].
  destruct (Ascii.eqb_spec x "_") as [->|H2]; done.
Qed.

Lemma capitalize_get (b : bool) (s : string) :
  (∀ i a, String.get i s = Some a → a ≠ "-"%char ∧ a ≠ "_"%char) →
  ∀ i a, String.get i (Js.capitalize b s) = Some a → a ≠ "-"%char ∧ a ≠ "_"%char.
Proof.
  revert b. induction s as [|x s IH]; intros b Hs i a; simpl; [by destruct i|].
  intros [[_ <-]|(j & _ & H)]%get_cons.
  - destruct (Hs 0%nat x eq_refl). by apply capitalize_char_separator.
  - apply (IH (Js.isWordChar x)) with j; [|done].
    intros k c Hk. by apply (Hs (S k)).
Qed.

Lemma replaceChar_absent (c : ascii) (s : string) :
  (∀ i a, String.get i s = Some a → a ≠ c) → Js.replaceChar c s = s.
Proof.
  induction s as [|x s IH]; intros Hs; simpl; [done|].
  rewrite IH by (intros k a Hk; by apply (Hs (S k))).
  destruct (Ascii.eqb_spec x c) as [->|]; [|done]. by destruct (Hs 0%nat c).
Qed.

Lemma length_replaceChar (c : ascii) (s : string) :
  String.length (Js.replaceChar c s) = String.length s.
Proof. induction s as [|x s IH]; simpl; [done | by rewrite IH]. Qed.

Lemma length_capitalize (b : bool) (s : string) :
  String.length (Js.capitalize b s) = String.length s.
Proof. revert b. induction s as [|x s IH]; intros b; simpl; [done | by rewrite IH]. Qed.

(** X19. The display names of courses and modules.  The course name replaces
    the hyphens first and the module name the underscores first: the two
    orders give the same name.  The name is as long as the folder or
    checkpoint name, contains no hyphen and no underscore, and is a display
    name of itself, so a name that is already normalized is kept. *)
Theorem displayName_normalizes (s : string) :
  displayName "-" "_" s = displayName "_" "-" s
  ∧ String.length (displayName "-" "_" s) = String.length s
  ∧ (∀ i a, String.get i (displayName "-" "_" s) = Some a →
            a ≠ "-"%char ∧ a ≠ "_"%char)
  ∧ displayName "-" "_" (displayName "-" "_" s) = displayName "-" "_" s.
Proof.
  unfold displayName.
  assert (Hget : ∀ i a,
    String.get i (Js.capitalize false (Js.replaceChar "_" (Js.replaceChar "-" s)))
    = Some a → a ≠ "-"%char ∧ a ≠ "_"%char).
  { apply capitalize_get. apply replaced_get. }
  split; [by rewrite replaceChar_comm|].
  split; [by rewrite length_capitalize, !length_replaceChar|].
  split; [done|].
  rewrite (replaceChar_absent "-") by (intros i a H; by destruct (Hget i a H)).
  rewrite (replaceChar_absent "_") by (intros i a H; by destruct (Hget i a H)).
  apply capitalize_again.
Qed.

(** ** The strings of a record *)

Lemma filter_truthy (p : string → bool) (l : list string) :
  (∀ t, p t = true → Js.truthy t = true) →
  Forall (fun c => Js.truthy c = true) (List.filter p l).
Proof.
  intros Hp. apply List.Forall_forall. intros t [_ Ht]%filter_In. by apply Hp.
Qed.

Lemma fallbackChoices_truthy q :
  Forall (fun c => Js.truthy c = true) (fallbackChoices q).
Proof.
  unfold fallbackChoices, matchingTexts, freshOptions, optionTexts.
  apply Forall_app. split; [by apply filter_truthy|].
  apply List.Forall_forall. intros t Ht. apply (proj1 (dedup_In _ _)) in Ht.
  apply filter_In in Ht as [Ht _]. apply filter_In in Ht as [_ Ht].
  unfold keptOption in Ht. by apply andb_true_iff in Ht as [Ht _].
Qed.

(** X20. No choice of an emitted record is the empty string, in both
    variants and whichever way the choices were collected: an answer label,
    a matching label or an option whose trimmed text is empty adds no
    choice. *)
Theorem emitted_choices_are_not_blank (raises : node → bool) (doc : node) :
  Forall choicesNotBlank (A.extract raises doc)
  ∧ Forall choicesNotBlank (B.extractedQuestions (B.extract raises doc)).
Proof.
  split.
  - apply A_extract_Forall. intros q l Hl _. exists (A.choices l).
    split; [apply A_questionObj_choices|].
    unfold A_read in Hl. destruct (questionTextEl q); [|done].
    injection Hl as <-. apply choiceTexts_truthy.
  - apply B_extract_Forall. intros q l Hl _. exists (B.choices l).
    split; [apply B_record_choices|].
    rewrite (B_read_choices _ _ Hl). unfold questionChoices.
    destruct (answerLabels q) eqn:E; [apply fallbackChoices_truthy|].
    apply choiceTexts_truthy.
Qed.

Lemma correctChoices_sublist labels :
  sublist (correctChoices labels) (choiceTexts labels).
Proof.
  unfold correctChoices, choiceTexts.
  induction labels as [|l labels IH]; simpl; [constructor|].
  destruct (Js.truthy (choiceTextOf l)); simpl; [|done].
  destruct (carriesCorrectBadge l); simpl; [by constructor | by constructor].
Qed.

(** X21. The answer follows the order of the choices.  In both variants the
    elements of a populated answer are choices of the record, in the order
    in which the choices are listed, which is document order: a choice
    text that occurs once among the choices occurs at most once in the
    answer. *)
Theorem emitted_answer_in_choice_order (raises : node → bool) (doc : node) :
  Forall answerInChoiceOrder (A.extract raises doc)
  ∧ Forall answerInChoiceOrder (B.extractedQuestions (B.extract raises doc)).
Proof.
  split.
  - apply A_extract_Forall. intros q l Hl Hc.
    exists (A.choices l), (answerOf (A.correctAnswers l)).
    split; [apply A_questionObj_choices|]. split; [by apply A_questionObj_answer|].
    right. rewrite answerElements_answerOf.
    unfold A_read in Hl. destruct (questionTextEl q); [|done].
    injection Hl as <-. apply correctChoices_sublist.
  - apply B_extract_Forall. intros q l Hl _.
    exists (B.choices l), (B_answer l).
    split; [apply B_record_choices|]. split; [apply B_record_answer|].
    unfold B_answer. destruct (_ || _); [by left|]. right.
    rewrite answerElements_answerOf.
    unfold B_read in Hl. destruct (questionTextEl q); [|done].
    injection Hl as <-. simpl.
    destruct (negb _ && negb _); [|apply sublist_nil_l].
    destruct (answerLabels q) eqn:E; [apply sublist_nil_l|].
    apply correctChoices_sublist.
Qed.

(** ** The examples of the specification, run on the sample pages *)

(** One stat card "Total Questions" with the value 10, and a question with
    the answer labels "Paris" (marked correct) and "London". *)
Example paris_london :
  total (readStats Sample.page) = 10
  ∧ A.eachQuestion sound [] Sample.capitalEl
    = [[("question", VString "Capital of France?");
        ("choices", VArray ["Paris"; "London"]);
        ("answer", VString "Paris")]].
Proof. split; reflexivity. Qed.

(** Three choices, two of them marked correct: the answer is the array of
    the two, in document order. *)
Example two_correct_choices :
  A.eachQuestion sound [] (Handle [] Sample.primes)
  = [[("question", VString "Which are prime?");
      ("choices", VArray ["2"; "3"; "4"]);
      ("answer", VArray ["2"; "3"])]].
Proof. reflexivity. Qed.

(** Variant B on a question whose badge text contains "wrong": the answer is
    blank although one choice has a correct-answer badge; variant A takes
    the badge of the choice. *)
Example wrong_badge :
  B.extractedQuestions (B.eachQuestion sound (B.Walk [] 0 0) (Handle [] Sample.missed))
  = [Sample.missedRecord ""]
  ∧ A.eachQuestion sound [] (Handle [] Sample.missed) = [Sample.missedRecord "Rome"].
Proof. split; reflexivity. Qed.

(** A question text without an image: the record has no [img] property; with
    an image, it has the [src] of the image. *)
Example image_property :
  getProp "img" Sample.capitalRecord = None
  ∧ getProp "img"
      (B_record (B.Locals false false "Q" (Some "a.png") ["x"] ["x"]))
    = Some (VString "a.png").
Proof. split; reflexivity. Qed.

(** The stat cards of the sample page: a value that is no number counts as
    0, and a label with two keywords goes to the first of total, correct,
    wrong and new. *)
Example sample_stats :
  readStats Sample.page = Stats 10 7 2 0
  ∧ Js.parseInt "x" = None
  ∧ Js.parseInt " 42 questions" = Some 42
  ∧ classify "total correct" = Some Total.
Proof. repeat split. Qed.

(** A first run on an empty file system creates the directories and the
    registry with one course and one module; a second run changes nothing. *)
Example registry_after_two_runs :
  (ensureCourseStructure "dev-net" ∅).2 !! "assets/courses.json"
  = Some (File (Registry [Course.Make (Some "dev-net") "Dev Net" (Some [])]))
  ∧ (updateCourseModule "dev-net" "check_point-1"
       (ensureCourseStructure "dev-net" ∅).2).2 !! "assets/courses.json"
    = Some (File (Registry
                    [Course.Make (Some "dev-net") "Dev Net"
                       (Some [CourseModule.Make (Some 1) "Check Point 1"
                                                (Some ["check_point-1"])])]))
  ∧ (ensureCourseStructure "dev-net" ∅).2 !! "assets/dev-net/json" = Some Dir.
Proof. repeat split. Qed.

(** From 2^53 on, adding 1 to the largest module id rounds: the module added
    to a course whose largest module id is 2^53 gets the id 2^53 again. *)
Example module_id_repeats_from_2_53 :
  addModule "b"
    (Course.Make (Some "c") "C"
       (Some [CourseModule.Make (Some (2 ^ 53)) "A" (Some ["a"])]))
  = Some (Course.Make (Some "c") "C"
            (Some [CourseModule.Make (Some (2 ^ 53)) "A" (Some ["a"]);
                   CourseModule.Make (Some (2 ^ 53)) "B" (Some ["b"])])).
Proof. reflexivity. Qed.
